(** * RACS-tools, [racs_tools/beamcon_3D.py]: the common-beam planner

    A shallow embedding of the planning phase of [beamcon_3D.py]
    ([masking], [commonbeamer], [readlogs], the configuration checks
    and the task partition of [main]) and the properties proved about
    it; then of the code around it: [copyfileobj], the column headers of
    [getbeams], [smooth], [cpu_to_use], [worker], [makedata],
    [initfiles], and the set-up and the output phase of [main].

    Conventions of the embedding.
    - A numpy float is a [float64]: either [NaN] or an exact rational.
      Binary rounding error and infinities are not represented; every
      operation with a [NaN] operand gives [NaN] and every comparison
      with a [NaN] operand is [false], as in IEEE 754.  Where the last
      binary place decides, in the decimal rounding, the rule is
      evaluated as well on the binary64 numbers of the kernel ([B64]).
    - An astropy [Quantity] is a value with an angular unit ([arcsec] or
      [deg]); [to] converts between them.
    - A radio_beam [Beam] is a record of three quantities, and a [Beams]
      object a record of three quantity arrays.  Seen as a number, a beam
      is its area (a positive constant times major times minor): this is
      what [np.isnan] and [<] look at.
    - The geometry of radio_beam ([common_beam], [deconvolve],
      [convolve]), its comparison of beams ([==]) and
      [au2.gauss_factor] are parameters of the development: nothing is
      assumed about them except where a theorem names a hypothesis.
    - Python exceptions are values of [exn]; a computation that can raise
      returns a [result]; code that mutates the data dictionary, writes
      files or calls the library runs in the monad [M] over a [world].
    - The data dictionary is a Python dict filled in the order of the
      input files and always walked in that order, and the planner uses
      the key of the last iteration after its loops: it is a list of
      cubes, the i-th one being [datadict["cube_i"]].
    - A log file is the table of its numbers; its text form, written and
      parsed by astropy, is not represented.
    - Reading a FITS header, a beam table or a plane, opening an image,
      the kernels and the convolutions of the libraries, and the gather
      of MPI are parameters as well, local to the sections that use
      them. *)

From Stdlib Require Import String Ascii ZArith List Lia QArith Qround Bool.
From Stdlib Require PrimFloat FloatOps SpecFloat Uint63.
Import ListNotations.
Open Scope Z_scope.

(** ** Numbers, units and quantities *)

Inductive float64 : Type :=
| NaN
| Fin (q : Q).

Definition isnan (x : float64) : bool :=
match x with NaN => true | Fin _ => false end.

Definition fmul (a b : float64) : float64 :=
match a, b with
| Fin x, Fin y => Fin (x * y)
| _, _ => NaN
end.

(** Division; a zero divisor (numpy: [inf] or [nan] with a warning) is
    mapped to [NaN], which every comparison below treats like [inf]. *)
Definition fdiv (a b : float64) : float64 :=
match a, b with
| Fin x, Fin y => if Qeq_bool y 0 then NaN else Fin (x / y)
| _, _ => NaN
end.

Definition flt (a b : float64) : bool :=
match a, b with
| Fin x, Fin y => negb (Qle_bool y x)
| _, _ => false
end.

Definition fgt (a b : float64) : bool := flt b a.

Definition feq (a b : float64) : bool :=
match a, b with
| Fin x, Fin y => Qeq_bool x y
| _, _ => false
end.

(** Same number: [NaN] with [NaN], rationals up to [Qeq]. *)
Definition float_equiv (a b : float64) : Prop :=
match a, b with
| NaN, NaN => True
| Fin x, Fin y => (x == y)%Q
| _, _ => False
end.

Inductive AngUnit : Type := arcsec | deg.

Definition unit_str (u : AngUnit) : string :=
match u with arcsec => "arcsec" | deg => "deg" end.

Record Quantity : Type := mkQuantity { value : float64; unit_of : AngUnit }.

(** [q.to(u)] *)
Definition to (u : AngUnit) (q : Quantity) : Quantity :=
match unit_of q, u with
| deg, arcsec => mkQuantity (fmul (value q) (Fin 3600)) arcsec
| arcsec, deg => mkQuantity (fmul (value q) (Fin (1 # 3600))) deg
| _, _ => q
end.

(** [a < b] and [a > b] on quantities: [b] is converted to the unit of [a]. *)
Definition q_lt (a b : Quantity) : bool := flt (value a) (value (to (unit_of a) b)).
Definition q_gt (a b : Quantity) : bool := fgt (value a) (value (to (unit_of a) b)).
Definition q_eq (a b : Quantity) : bool := feq (value a) (value (to (unit_of a) b)).

(** [q * x] for a float [x] *)
Definition q_scale (q : Quantity) (x : float64) : Quantity :=
mkQuantity (fmul (value q) x) (unit_of q).

(** Order and sameness of quantities, for statements. *)
Definition Quantity_le (a b : Quantity) : Prop :=
match value (to arcsec a), value (to arcsec b) with
| Fin x, Fin y => (x <= y)%Q
| _, _ => False
end.


(** ** Decimal rounding ([racs_tools.beamcon_2D]) *)

Definition decimal_ceil (q : Q) (p : Z) : Q :=
(inject_Z (Qceiling (q * inject_Z (10 ^ p))) / inject_Z (10 ^ p))%Q.

(** Modelled from the spec: [my_ceil] is imported from
    [racs_tools.beamcon_2D], which is not among the sources; the
    specification describes it as rounding an axis up to a fixed decimal
    precision, a ceiling and not rounding to nearest. *)
Definition my_ceil (a : float64) (precision : Z) : float64 :=
match a with
| NaN => NaN
| Fin q => Fin (decimal_ceil q precision)
end.

(** Modelled from the spec: [round_up] is imported from
    [racs_tools.beamcon_2D], which is not among the sources; the
    specification describes it as the decimal-ceiling rule applied to the
    position angle.  It is applied to a quantity and keeps its unit. *)
Definition round_up (n : Quantity) (decimals : Z) : Quantity :=
mkQuantity (my_ceil (value n) decimals) (unit_of n).

(** ** Beams *)

Record Beam : Type := mkBeam { major : Quantity; minor : Quantity; pa : Quantity }.

(** [Beam(major=np.nan*u.deg, minor=np.nan*u.deg, pa=np.nan*u.deg)] *)
Definition nan_beam : Beam :=
mkBeam (mkQuantity NaN deg) (mkQuantity NaN deg) (mkQuantity NaN deg).

(** [Beam(major=0*u.deg, minor=0*u.deg, pa=0*u.deg)] *)
Definition nullbeam : Beam :=
mkBeam (mkQuantity (Fin 0) deg) (mkQuantity (Fin 0) deg) (mkQuantity (Fin 0) deg).

(** The beam area up to its positive constant factor, in square degrees. *)
Definition beam_area (b : Beam) : float64 :=
fmul (value (to deg (major b))) (value (to deg (minor b))).

(** [np.isnan(beam)] *)
Definition beam_isnan (b : Beam) : bool := isnan (beam_area b).

(** [a < b] on beams compares their areas. *)
Definition beam_lt (a b : Beam) : bool := flt (beam_area a) (beam_area b).


(** The rounding block of [commonbeamer] (lines 426-434 and 530-538):
<<
  commonbeam = Beam(
      major=my_ceil(commonbeam.major.to(u.arcsec).value, precision=1)*u.arcsec,
      minor=my_ceil(commonbeam.minor.to(u.arcsec).value, precision=1)*u.arcsec,
      pa=round_up(commonbeam.pa.to(u.deg), decimals=2))
>> *)
Definition round_beam (commonbeam : Beam) : Beam :=
mkBeam
  (mkQuantity (my_ceil (value (to arcsec (major commonbeam))) 1) arcsec)
  (mkQuantity (my_ceil (value (to arcsec (minor commonbeam))) 1) arcsec)
  (round_up (to deg (pa commonbeam)) 2).

(** ** Quantity arrays and [Beams] *)

Record QArray : Type := mkQArray { values : list float64; aunit : AngUnit }.

Record Beams : Type := mkBeams { majors : QArray; minors : QArray; pas : QArray }.

Definition Beams_len (b : Beams) : nat := List.length (values (majors b)).

(** Iterating a [Beams] object yields one [Beam] per entry. *)
Fixpoint zip_beams (u1 u2 u3 : AngUnit) (l1 l2 l3 : list float64) : list Beam :=
match l1, l2, l3 with
| x :: l1', y :: l2', z :: l3' =>
    mkBeam (mkQuantity x u1) (mkQuantity y u2) (mkQuantity z u3)
    :: zip_beams u1 u2 u3 l1' l2' l3'
| _, _, _ => []
end.

Definition beams_iter (b : Beams) : list Beam :=
zip_beams (aunit (majors b)) (aunit (minors b)) (aunit (pas b))
          (values (majors b)) (values (minors b)) (values (pas b)).

(** [beams[n]]; [None] stands for Python's [IndexError]. *)
Definition beams_get (b : Beams) (n : nat) : option Beam :=
match nth_error (values (majors b)) n,
      nth_error (values (minors b)) n,
      nth_error (values (pas b)) n with
| Some x, Some y, Some z =>
    Some (mkBeam (mkQuantity x (aunit (majors b)))
                 (mkQuantity y (aunit (minors b)))
                 (mkQuantity z (aunit (pas b))))
| _, _, _ => None
end.

(** [np.isnan(beams)]: one boolean per entry, on the area. *)
Definition beams_isnan (b : Beams) : list bool := map beam_isnan (beams_iter b).

Fixpoint select {A} (keep : list bool) (l : list A) : list A :=
match keep, l with
| k :: keep', x :: l' => if k then x :: select keep' l' else select keep' l'
| _, _ => []
end.

(** [beams[~np.isnan(beams)]]: the entries whose area is a number, units kept. *)
Definition beams_notnan (b : Beams) : Beams :=
let keep := map negb (beams_isnan b) in
mkBeams (mkQArray (select keep (values (majors b))) (aunit (majors b)))
        (mkQArray (select keep (values (minors b))) (aunit (minors b)))
        (mkQArray (select keep (values (pas b))) (aunit (pas b))).

(** [Beams(major=vs1*u1, minor=vs2*u2, pa=vs3*u3)] from per-entry beams whose
    values are taken as they are and tagged with the units of [unit_src]. *)
Definition beams_of_values (bs : list Beam) (unit_src : Beam) : Beams :=
mkBeams (mkQArray (map (fun b => value (major b)) bs) (unit_of (major unit_src)))
        (mkQArray (map (fun b => value (minor b)) bs) (unit_of (minor unit_src)))
        (mkQArray (map (fun b => value (pa b)) bs) (unit_of (pa unit_src))).

Definition last_opt {A} (l : list A) : option A :=
match l with
| [] => None
| x :: l' => Some (last l' x)
end.

(** ** Exceptions and results *)

Inductive exn : Type :=
| BeamError
| ValueError (msg : string)
| IndexError
| KeyError
| UnboundLocalError (name : string)
| Exception (msg : string).

Inductive result (A : Type) : Type :=
| Ok (a : A)
| Raise (e : exn).
Arguments Ok {A} a.
Arguments Raise {A} e.

Definition is_BeamError (e : exn) : bool :=
match e with BeamError => true | _ => false end.

Fixpoint mapR {A B} (f : A -> result B) (l : list A) : result (list B) :=
match l with
| [] => Ok []
| x :: l' =>
    match f x with
    | Raise e => Raise e
    | Ok y => match mapR f l' with
              | Raise e => Raise e
              | Ok ys => Ok (y :: ys)
              end
    end
end.

(** ** Strings *)

Fixpoint replace_from (old new : string) (skip : nat) (s : string) : string :=
match s with
| EmptyString => EmptyString
| String c s' =>
    match skip with
    | S k => replace_from old new k s'
    | O => if String.prefix old s
           then new ++ replace_from old new (String.length old - 1) s'
           else String c (replace_from old new 0 s')
    end
end.

(** [s.replace(old, new)] for a non-empty [old]. *)
Definition replace (s old new : string) : string := replace_from old new 0 s.

(** ** The data dictionary, the files and the world *)

(** The common-beam log: its eight columns and the comment line of units. *)
Record Table : Type := mkTable {
  Channel : list Z;
  Target_BMAJ : list float64;
  Target_BMIN : list float64;
  Target_BPA : list float64;
  Convolving_BMAJ : list float64;
  Convolving_BMIN : list float64;
  Convolving_BPA : list float64;
  Convolving_factor : list float64;
  comments : list string
}.

(** One entry [datadict["cube_i"]].  The keys ['beams'] and ['mask'] are
    set by [main] and [masking] before the planner runs; the four keys
    the planner adds are optional. *)
Record cube : Type := mkCube {
  filename : string;
  outdir : string;
  dx : Quantity;
  dy : Quantity;
  beamlog : string;
  nchan : nat;
  beams : Beams;
  mask : list bool;
  facs : option (list float64);
  convbeams : option Beams;
  commonbeams : option Beams;
  commonbeamlog : option string
}.

Definition set_mask (c : cube) (m : list bool) : cube :=
mkCube (filename c) (outdir c) (dx c) (dy c) (beamlog c) (nchan c) (beams c) m
       (facs c) (convbeams c) (commonbeams c) (commonbeamlog c).

Definition set_beams (c : cube) (b : Beams) : cube :=
mkCube (filename c) (outdir c) (dx c) (dy c) (beamlog c) (nchan c) b (mask c)
       (facs c) (convbeams c) (commonbeams c) (commonbeamlog c).

Definition set_facs (c : cube) (f : list float64) : cube :=
mkCube (filename c) (outdir c) (dx c) (dy c) (beamlog c) (nchan c) (beams c) (mask c)
       (Some f) (convbeams c) (commonbeams c) (commonbeamlog c).

Definition set_convbeams (c : cube) (b : Beams) : cube :=
mkCube (filename c) (outdir c) (dx c) (dy c) (beamlog c) (nchan c) (beams c) (mask c)
       (facs c) (Some b) (commonbeams c) (commonbeamlog c).

Definition set_commonbeams (c : cube) (b : Beams) : cube :=
mkCube (filename c) (outdir c) (dx c) (dy c) (beamlog c) (nchan c) (beams c) (mask c)
       (facs c) (convbeams c) (Some b) (commonbeamlog c).

Definition set_commonbeamlog (c : cube) (s : string) : cube :=
mkCube (filename c) (outdir c) (dx c) (dy c) (beamlog c) (nchan c) (beams c) (mask c)
       (facs c) (convbeams c) (commonbeams c) (Some s).

(** What the trace records, in the order it happens: the calls of
    [Beams.common_beam], [Beam.deconvolve] and [Beam.convolve], and the
    warnings.  The comparison of beams and [au2.gauss_factor] leave no
    event; the logs that are written show in [files]. *)
Inductive event : Type :=
| ev_common_beam (beams : Beams) (tolerance : Q) (nsamps : Z) (epsilon : Q)
| ev_deconvolve (target other : Beam)
| ev_convolve (a b : Beam)
| ev_warn (msg : string).

(** The data dictionary is one object, mutated in place: it lives in the
    world, the i-th element being [datadict["cube_i"]]. *)
Record world : Type := mkWorld {
  datadict : list cube;
  files : list (string * Table);
  trace : list event
}.

Fixpoint lookup_file (name : string) (fs : list (string * Table)) : option Table :=
match fs with
| [] => None
| (n, t) :: fs' => if String.eqb n name then Some t else lookup_file name fs'
end.

Fixpoint list_update {A} (l : list A) (k : nat) (x : A) : list A :=
match l, k with
| [], _ => []
| _ :: l', O => x :: l'
| y :: l', S k' => y :: list_update l' k' x
end.

(** ** The monad of the planner: state and exceptions *)

Definition M (A : Type) : Type := world -> result A * world.

Definition ret {A} (a : A) : M A := fun w => (Ok a, w).

Definition bind {A B} (m : M A) (k : A -> M B) : M B :=
fun w => match m w with
         | (Ok a, w') => k a w'
         | (Raise e, w') => (Raise e, w')
         end.

Definition raise {A} (e : exn) : M A := fun w => (Raise e, w).

Definition lift {A} (r : result A) : M A := fun w => (r, w).

Notation "x <- m ;; k" := (bind m (fun x => k))
  (at level 61, m at next level, right associativity).
Notation "m ;;; k" := (bind m (fun _ => k))
  (at level 61, right associativity).

(** [try: m  except BeamError: h] *)
Definition except_BeamError {A} (m h : M A) : M A :=
fun w => match m w with
         | (Raise BeamError, w') => h w'
         | r => r
         end.

Definition get_datadict : M (list cube) := fun w => (Ok (datadict w), w).

Definition get_cube (k : nat) : M cube :=
fun w => match nth_error (datadict w) k with
         | Some c => (Ok c, w)
         | None => (Raise KeyError, w)
         end.

Definition put_cube (k : nat) (c : cube) : M unit :=
fun w => (Ok tt, mkWorld (list_update (datadict w) k c) (files w) (trace w)).

Definition emit (e : event) : M unit :=
fun w => (Ok tt, mkWorld (datadict w) (files w) (trace w ++ [e])).

Definition warn (msg : string) : M unit := emit (ev_warn msg).

(** [ascii.write(tab, output=name, overwrite=True)] *)
Definition write_file (name : string) (t : Table) : M unit :=
fun w => (Ok tt, mkWorld (datadict w) ((name, t) :: files w) (trace w)).

Definition read_file (name : string) : M (option Table) :=
fun w => (Ok (lookup_file name (files w)), w).

Fixpoint mapM {A B} (f : A -> M B) (l : list A) : M (list B) :=
match l with
| [] => ret []
| x :: l' => y <- f x ;; ys <- mapM f l' ;; ret (y :: ys)
end.

Fixpoint forM_ {A} (l : list A) (f : A -> M unit) : M unit :=
match l with
| [] => ret tt
| x :: l' => f x ;;; forM_ l' f
end.

Fixpoint foldM {A S} (f : S -> A -> M S) (s : S) (l : list A) : M S :=
match l with
| [] => ret s
| x :: l' => s' <- f s x ;; foldM f s' l'
end.

(** [for key in datadict.keys()] *)
Definition keys (dd : list cube) : list nat := seq 0 (List.length dd).

(** ** [masking] (lines 668-683) *)

Section Masking.

(** [a == b] on beams is the comparison of radio_beam, a parameter like
    the rest of the library: what it takes for equal (how close the
    axes, which position angles) is the library's business, and nothing
    is assumed about it. *)
Variable beam_eq : Beam -> Beam -> bool.

Fixpoint zip_or (a b : list bool) : list bool :=
match a, b with
| x :: a', y :: b' => (x || y) :: zip_or a' b'
| _, _ => []
end.

(** [mask += other] on boolean arrays: element-wise "or", in place.  An
    operand of another length is broadcast when it has one element and
    refused otherwise. *)
Definition iadd_mask (mask other : list bool) : result (list bool) :=
if Nat.eqb (List.length other) (List.length mask) then Ok (zip_or mask other)
else match other with
     | [y] => Ok (map (fun x => x || y) mask)
     | _ => Raise (ValueError "operands could not be broadcast together")
     end.

(** [majors > cutoff] *)
Definition cutmask_of (b : Beams) (cutoff : Quantity) : list bool :=
map (fun v => q_gt (mkQuantity v (aunit (majors b))) cutoff) (values (majors b)).

(** [beams == nullbeam] *)
Definition nullmask_of (b : Beams) : list bool :=
map (fun x => beam_eq x nullbeam) (beams_iter b).

(** First loop: every cube gets a fresh all-[False] mask. *)
Definition init_masks (nchans : nat) : M unit :=
dd <- get_datadict ;;
forM_ (keys dd) (fun key =>
  c <- get_cube key ;;
  put_cube key (set_mask c (repeat false nchans))).

(** Second loop, run when [cutoff is not None]. *)
Definition add_cutmasks (cutoff : Quantity) : M unit :=
dd <- get_datadict ;;
forM_ (keys dd) (fun key =>
  c <- get_cube key ;;
  m <- lift (iadd_mask (mask c) (cutmask_of (beams c) cutoff)) ;;
  put_cube key (set_mask c m)).

(** Third loop: the pipeline's null beams. *)
Definition add_nullmasks : M unit :=
dd <- get_datadict ;;
forM_ (keys dd) (fun key =>
  c <- get_cube key ;;
  m <- lift (iadd_mask (mask c) (nullmask_of (beams c))) ;;
  put_cube key (set_mask c m)).

Definition masking (nchans : nat) (cutoff : option Quantity) : M unit :=
init_masks nchans ;;;
match cutoff with
| Some cutoff => add_cutmasks cutoff
| None => ret tt
end ;;;
add_nullmasks.

(** The same three loops with the two mask sources exchanged. *)
Definition masking_null_first (nchans : nat) (cutoff : option Quantity) : M unit :=
init_masks nchans ;;;
add_nullmasks ;;;
match cutoff with
| Some cutoff => add_cutmasks cutoff
| None => ret tt
end.

End Masking.

(** ** The configuration checks of [main] (lines 800-862) *)

(** The options that [cli] (lines 1051-1212) hands to [main].  The four
    options read with [type=float] are floats: [float] accepts the text
    [nan]. *)
Record Args : Type := mkArgs {
  arg_infile : list string;
  arg_uselogs : bool;
  arg_mode : string;
  arg_conv_mode : string;
  arg_dryrun : bool;
  arg_bmaj : option float64;
  arg_bmin : option float64;
  arg_bpa : option float64;
  arg_cutoff : option float64;
  arg_tolerance : Q;
  arg_epsilon : Q;
  arg_nsamps : Z
}.

Fixpoint insert_sorted (s : string) (l : list string) : list string :=
match l with
| [] => [s]
| x :: l' => if String.leb s x then s :: l else x :: insert_sorted s l'
end.

(** [sorted(files)] *)
Definition sorted (l : list string) : list string := fold_right insert_sorted [] l.

(** [Beam(major, minor, pa)]: the constructor refuses a minor axis greater
    than the major axis.  The check is modelled here, where the user's
    numbers enter; every other beam or beam set the planner builds comes
    from beams that passed the check when [main] built them or that the
    library returned, from ceilings of them, or has equal axes. *)
Definition Beam_new (major minor pa : Quantity) : result Beam :=
if q_gt minor major then Raise (ValueError "Minor axis greater than major axis.")
else Ok (mkBeam major minor pa).

Record Config : Type := mkConfig {
  cfg_mode : string;
  cfg_cutoff : option Quantity;
  cfg_conv_mode : string;
  cfg_target_beam : option Beam;
  cfg_files : list string
}.

Definition is_None {A} (o : option A) : bool :=
match o with None => true | Some _ => false end.

Definition main_config (args : Args) : result Config :=
let mode := arg_mode args in
if String.eqb mode "natural" && String.eqb mode "total"
then Raise (Exception "'mode' must be 'natural' or 'total'")
else
let cutoff := match arg_cutoff args with
              | Some c => Some (mkQuantity c arcsec)
              | None => None
              end in
let conv_mode := arg_conv_mode args in
if negb (String.eqb conv_mode "robust") && negb (String.eqb conv_mode "scipy") &&
   negb (String.eqb conv_mode "astropy") && negb (String.eqb conv_mode "astropy_fft")
then Raise (Exception "Please select valid convolution method!")
else
let nonetest := [is_None (arg_bmaj args); is_None (arg_bmin args); is_None (arg_bpa args)] in
if negb (forallb id nonetest) && negb (String.eqb mode "total")
then Raise (Exception "Only specify a target beam in 'total' mode")
else
match
  (if forallb id nonetest then Ok None
   else if existsb id nonetest
   then Raise (Exception "Please specify all target beam params!")
   else match arg_bmaj args, arg_bmin args, arg_bpa args with
        | Some bmaj, Some bmin, Some bpa =>
            match Beam_new (mkQuantity bmaj arcsec)
                           (mkQuantity bmin arcsec)
                           (mkQuantity bpa deg) with
            | Ok b => Ok (Some b)
            | Raise e => Raise e
            end
        | _, _, _ => Ok None
        end)
with
| Raise e => Raise e
| Ok target_beam =>
    let files := sorted (arg_infile args) in
    match files with
    | [] => Raise (Exception "No files found!")
    | _ => Ok (mkConfig mode cutoff conv_mode target_beam files)
    end
end.

(** ** The task partition of [main] (lines 1018-1037) *)

(** [(my_start, my_end)] of rank [myPE] among [nPE] for [dims] tasks. *)
Definition my_range (nPE myPE dims : Z) : Z * Z :=
let count := dims / nPE in
let rem := dims mod nPE in
if myPE <? rem then
  let my_start := myPE * (count + 1) in
  let my_end := my_start + count in
  (my_start, my_end)
else
  let my_start := myPE * count + rem in
  let my_end := my_start + (count - 1) in
  (my_start, my_end).

(** A slice bound as Python normalises it against the length. *)
Definition slice_index (len i : Z) : Z :=
if i <? 0 then Z.max (len + i) 0 else Z.min i len.

(** [l[a:b]] *)
Definition py_slice {A} (l : list A) (a b : Z) : list A :=
let len := Z.of_nat (List.length l) in
let a' := slice_index len a in
let b' := slice_index len b in
firstn (Z.to_nat (b' - a')) (skipn (Z.to_nat a') l).

(** [inputs[my_start:my_end+1]], with [dims = len(inputs)] as asserted. *)
Definition my_inputs {A} (nPE myPE : Z) (inputs : list A) : list A :=
let '(my_start, my_end) := my_range nPE myPE (Z.of_nat (List.length inputs)) in
py_slice inputs my_start (my_end + 1).

Definition ranks (nPE : Z) : list Z := map Z.of_nat (seq 0 (Z.to_nat nPE)).

(** The first task index of rank [r], in closed form. *)
Definition boundary (nPE dims r : Z) : Z :=
r * (dims / nPE) + Z.min r (dims mod nPE).

(** ** The pure steps of the planner, and [readlogs] *)

Definition zip_nan (vs : list float64) (mask : list bool) : list float64 :=
map (fun p : float64 * bool => if snd p then fmul (fst p) NaN else fst p)
    (combine vs mask).

(** [a[mask] *= np.nan] on the array [a] itself: a boolean index of another
    length is an [IndexError]. *)
Definition nan_where (mask : list bool) (a : QArray) : result QArray :=
if Nat.eqb (List.length mask) (List.length (values a))
then Ok (mkQArray (zip_nan (values a) mask) (aunit a))
else Raise IndexError.

Definition same_lengths (bs : list Beams) : bool :=
match bs with
| [] => true
| b :: bs' => forallb (fun b' => Nat.eqb (Beams_len b') (Beams_len b)) bs'
end.

(** [commonbeam_log = beamlog.replace('beamlog.', f'beamlogConvolve-{mode}.')] *)
Definition commonbeam_log_name (c : cube) (mode : string) : string :=
replace (beamlog c) "beamlog." ("beamlogConvolve-" ++ mode ++ ".")%string.

Definition opt_unit_str (u : option AngUnit) : string :=
match u with Some u => unit_str u | None => "None" end.

(** The comment line: [str(unit) + ' '] for every column, in order. *)
Definition units_line (commonbeams convbeams : Beams) : string :=
fold_right (fun u acc => (opt_unit_str u ++ " " ++ acc)%string) EmptyString
  [ None;
    Some (aunit (majors commonbeams)); Some (aunit (minors commonbeams));
    Some (aunit (pas commonbeams));
    Some (aunit (majors convbeams)); Some (aunit (minors convbeams));
    Some (aunit (pas convbeams));
    None ].

(** Lines 636-655: the table; a column of another length than the first
    is refused by [add_column]. *)
Definition make_table (nchans : nat) (commonbeams convbeams : Beams)
  (facs : list float64) : result Table :=
let cols := [ values (majors commonbeams); values (minors commonbeams);
              values (pas commonbeams);
              values (majors convbeams); values (minors convbeams);
              values (pas convbeams); facs ] in
if forallb (fun col => Nat.eqb (List.length col) nchans) cols
then Ok (mkTable (map Z.of_nat (seq 0 nchans))
           (values (majors commonbeams)) (values (minors commonbeams))
           (values (pas commonbeams))
           (values (majors convbeams)) (values (minors convbeams))
           (values (pas convbeams)) facs
           [units_line commonbeams convbeams])
else Raise (ValueError "Inconsistent data column lengths").

(** [datadict[key]["dy"]] after the loops over the keys: [key] is the last one. *)
Definition last_grid : M Quantity :=
dd <- get_datadict ;;
match last_opt dd with
| Some c => ret (dy c)
| None => raise (UnboundLocalError "key")
end.

Definition undersampled (samps : list float64) : bool :=
existsb (fun s => flt s (Fin 2)) samps.

(** [Beam(major=grid*2, minor=grid*2, pa=0*u.deg)] *)
Definition nyq_con_beam (grid : Quantity) : Beam :=
mkBeam (q_scale grid (Fin 2)) (q_scale grid (Fin 2)) (mkQuantity (Fin 0) deg).

(** Lines 376-385: one cube's beam of channel [n], made [NaN] on a fresh
    quantity when the channel is masked. *)
Definition masked_entry (n : nat) (c : cube) : result Beam :=
match beams_get (beams c) n with
| None => Raise IndexError
| Some b =>
    match nth_error (mask c) n with
    | None => Raise IndexError
    | Some m =>
        Ok (if m then mkBeam (q_scale (major b) NaN) (q_scale (minor b) NaN)
                             (q_scale (pa b) NaN)
            else b)
    end
end.

(** Lines 372-394: the beams of channel [n] over all cubes, tagged with
    the units of the last cube. *)
Definition channel_beams (dd : list cube) (n : nat) : result Beams :=
match mapR (masked_entry n) dd with
| Raise e => Raise e
| Ok entries =>
    match last_opt entries with
    | None => Raise (UnboundLocalError "major")
    | Some e => Ok (beams_of_values entries e)
    end
end.

(** Lines 750-776: one cube of [readlogs]. *)
Definition readlog (mode : string) (key : nat) : M Beams :=
c <- get_cube key ;;
let commonbeam_log := commonbeam_log_name c mode in
f <- read_file commonbeam_log ;;
match f with
| None => raise (Exception "beamlogConvolve must be co-located with image")
| Some commonbeam_tab =>
    let commonbeams :=
      mkBeams (mkQArray (Target_BMAJ commonbeam_tab) arcsec)
              (mkQArray (Target_BMIN commonbeam_tab) arcsec)
              (mkQArray (Target_BPA commonbeam_tab) deg) in
    let convbeams :=
      mkBeams (mkQArray (Convolving_BMAJ commonbeam_tab) arcsec)
              (mkQArray (Convolving_BMIN commonbeam_tab) arcsec)
              (mkQArray (Convolving_BPA commonbeam_tab) deg) in
    let facs := Convolving_factor commonbeam_tab in
    put_cube key
      (set_commonbeamlog
         (set_commonbeams (set_convbeams (set_facs c facs) convbeams) commonbeams)
         commonbeam_log) ;;;
    ret commonbeams
end.

(** [readlogs] (lines 746-781) *)
Definition readlogs (mode : string) (verbose : bool) : M unit :=
dd <- get_datadict ;;
read <- mapM (readlog mode) (keys dd) ;;
if verbose && is_None (last_opt read)
then raise (UnboundLocalError "commonbeams") else ret tt.

(** ** The rest of the script: helpers, names, set-up and partitions *)

Definition rbind {A B} (m : result A) (k : A -> result B) : result B :=
match m with
| Ok a => k a
| Raise e => Raise e
end.

Notation "x <~ m ;; k" := (rbind m (fun x => k))
  (at level 61, m at next level, right associativity).

(** [d[key]] for a key that may not have been set. *)
Definition key_of {A} (o : option A) : result A :=
match o with
| Some a => Ok a
| None => Raise KeyError
end.

(** [a[i]] *)
Definition index_of {A} (o : option A) : result A :=
match o with
| Some a => Ok a
| None => Raise IndexError
end.

(** [range(a, b)] *)
Definition py_range (a b : Z) : list Z :=
map (fun k => a + Z.of_nat k) (seq 0 (Z.to_nat (b - a))).

(** [max(l)] of the builtins: a [ValueError] on an empty sequence. *)
Definition py_max (l : list Z) : result Z :=
match l with
| [] => Raise (ValueError "max() arg is an empty sequence")
| x :: l' => Ok (fold_left Z.max l' x)
end.

(** [cpu_to_use] (lines 264-281):
<<
  factors = []
  for i in range(1, count + 1):
      if count % i == 0:
          factors.append(i)
  factors = np.array(factors)
  return max(factors[factors <= max_cpu])
>> *)
Definition cpu_to_use (max_cpu count : Z) : result Z :=
let factors := filter (fun i => count mod i =? 0) (py_range 1 (count + 1)) in
py_max (filter (fun f => f <=? max_cpu) factors).

(** *** The partition of the cubes among the ranks (lines 945-974) *)

(** [(my_start, my_end)] of the loop that initialises the output files:
    with more ranks than cubes every rank takes the cube of its own
    number. *)
Definition init_range (nPE myPE dims : Z) : Z * Z :=
if nPE >? dims then
  let my_start := myPE in
  let my_end := myPE in
  (my_start, my_end)
else my_range nPE myPE dims.

(** [inputs[my_start:my_end+1]] with [inputs = list(datadict.keys())]. *)
Definition init_inputs {A} (nPE myPE : Z) (inputs : list A) : list A :=
let '(my_start, my_end) := init_range nPE myPE (Z.of_nat (List.length inputs)) in
py_slice inputs my_start (my_end + 1).

(** Lines 1003-1007: the list of the tasks of the convolution,
<<
  inputs = []
  for key in datadict.keys():
      ...
      for chan in range(nchans):
          inputs.append((key, chan))
>> *)
Definition task_list (dd : list cube) (nchans : nat) : list (nat * nat) :=
flat_map (fun key => map (fun chan => (key, chan)) (seq 0 nchans)) (keys dd).

(** *** Strings and paths *)

(** [s.find(sub)] counted from [i]: the index of the first occurrence,
    or [-1]. *)
Fixpoint find_from (sub s : string) (i : Z) : Z :=
if String.prefix sub s then i
else match s with
     | EmptyString => -1
     | String _ s' => find_from sub s' (i + 1)
     end.

Definition str_find (s sub : string) : Z := find_from sub s 0.

(** [s.rfind(sub)] counted from [i]: the index of the last occurrence,
    or [-1]. *)
Fixpoint rfind_from (sub s : string) (i : Z) : Z :=
match s with
| EmptyString => if String.prefix sub s then i else -1
| String _ s' =>
    let r := rfind_from sub s' (i + 1) in
    if r =? -1 then (if String.prefix sub s then i else -1) else r
end.

Definition str_rfind (s sub : string) : Z := rfind_from sub s 0.

(** [sub in s] *)
Fixpoint contains (sub s : string) : bool :=
String.prefix sub s ||
match s with
| EmptyString => false
| String _ s' => contains sub s'
end.

(** [c in s] for a one-character string *)
Fixpoint occurs (c : ascii) (s : string) : bool :=
match s with
| EmptyString => false
| String x s' => Ascii.eqb x c || occurs c s'
end.

(** The first character of the string occurs nowhere else in it: the
    string cannot overlap itself. *)
Definition first_char_once (s : string) : bool :=
match s with
| EmptyString => false
| String c rest => negb (occurs c rest)
end.

(** [s[a:b]] *)
Definition str_slice (s : string) (a b : Z) : string :=
string_of_list_ascii (py_slice (list_ascii_of_string s) a b).

(** [s[a:]] *)
Definition str_from (s : string) (a : Z) : string :=
str_slice s a (Z.of_nat (String.length s)).

(** [c * n] for a one-character string *)
Fixpoint str_repeat (c : Ascii.ascii) (n : nat) : string :=
match n with
| O => EmptyString
| S n' => String c (str_repeat c n')
end.

(** [s.rstrip(c)] for a one-character string *)
Fixpoint rstrip (s : string) (c : Ascii.ascii) : string :=
match s with
| EmptyString => EmptyString
| String a s' =>
    match rstrip s' c with
    | EmptyString => if Ascii.eqb a c then EmptyString else String a EmptyString
    | r => String a r
    end
end.

(** [os.path.dirname] and [os.path.basename] of [posixpath]:
<<
  i = p.rfind(sep) + 1
  head = p[:i]
  if head and head != sep*len(head):
      head = head.rstrip(sep)
  return head
>>
    and [return p[i:]]. *)
Definition dirname (p : string) : string :=
let i := str_rfind p "/" + 1 in
let head := str_slice p 0 i in
if negb (String.eqb head "") &&
   negb (String.eqb head (str_repeat "/"%char (String.length head)))
then rstrip head "/"%char
else head.

Definition basename (p : string) : string :=
let i := str_rfind p "/" + 1 in
str_from p i.

(** The header of a column of the beam log, in [getbeams] (lines
    151-158): the name of the column and the text of its unit,
<<
  idx = col.find('[')
  if idx == -1:
      new_col = col
      unit = u.Unit('')
  else:
      new_col = col[:idx]
      unit = u.Unit(col[idx+1:-1])
>> *)
Definition colname_unit (col : string) : string * string :=
let idx := str_find col "[" in
if idx =? -1 then (col, EmptyString)
else (str_slice col 0 idx, str_slice col (idx + 1) (-1)).

(** The name of the beam log of an image, in [makedata] (lines 336-340). *)
Definition makedata_beamlog (file : string) : string :=
let dirname := dirname file in
let basename := basename file in
let dirname := if String.eqb dirname "" then "."%string else dirname in
replace (dirname ++ "/beamlog." ++ basename) ".fits" ".txt".

(** The name of the output file, in [initfiles] (lines 729-737). *)
Definition initfiles_outfile (filename outdir mode : string)
  (suffix prefix : option string) : string :=
let suffix := match suffix with None => mode | Some s => s end in
let outname := basename filename in
let outname := replace outname ".fits" ("." ++ suffix ++ ".fits") in
let outname := match prefix with
               | Some prefix => (prefix ++ outname)%string
               | None => outname
               end in
(outdir ++ "/" ++ outname)%string.

(** The output directories, in [main] (lines 864-875): the directory
    given, less one trailing slash, for every file, or else the
    directory of each file. *)
Definition main_outdir (outdir : option string) (files : list string)
  : result (list string) :=
match outdir with
| Some outdir =>
    match String.get (String.length outdir - 1)%nat outdir with
    | None => Raise IndexError
    | Some last =>
        let outdir := if Ascii.eqb last "/"%char then str_slice outdir 0 (-1) else outdir in
        Ok (repeat outdir (List.length files))
    end
| None =>
    Ok (map (fun f => let out := dirname f in
                      if String.eqb out "" then "."%string else out) files)
end.

(** *** [makedata] (lines 311-345) *)

(** One entry of the dictionary as [makedata] leaves it: the keys
    ['filename'], ['outdir'], ['dx'], ['dy'], ['beamlog'], ['beam'] and
    ['nchan']. *)
Record raw_cube (T : Type) : Type := mkRaw {
  raw_filename : string;
  raw_outdir : string;
  raw_dx : Quantity;
  raw_dy : Quantity;
  raw_beamlog : string;
  raw_beam : T;
  raw_nchan : nat
}.
Arguments mkRaw {T}.
Arguments raw_filename {T}.
Arguments raw_outdir {T}.
Arguments raw_dx {T}.
Arguments raw_dy {T}.
Arguments raw_beamlog {T}.
Arguments raw_beam {T}.
Arguments raw_nchan {T}.

(** [header[key]] *)
Definition header_key (header : string -> option float64) (key : string)
  : result float64 :=
key_of (header key).

(** Lines 880-887 of [main]: the cubes must have the same number of
    channels, that of the first one. *)
Definition main_nchans (nchans : list nat) : result nat :=
match nchans with
| [] => Raise IndexError
| n0 :: _ =>
    if forallb (fun n => Nat.eqb n n0) nchans then Ok n0
    else Raise (Exception "Unequal number of spectral channels!")
end.

Section Makedata.

(** Reading the files: [fits.getheader(file)], seen as the lookup of a
    key in the header, and [getbeams(beamlog)], which gives the table of
    the beam log and the number of its rows.  Both may raise. *)
Variable beam_table : Type.
Variable getheader : string -> result (string -> option float64).
Variable getbeams : string -> result (beam_table * nat).

(** The body of the loop of [makedata], for one file and its output
    directory. *)
Definition makedata_cube (file out : string) : result (raw_cube beam_table) :=
header <~ getheader file ;;
cdelt1 <~ header_key header "CDELT1" ;;
let dxas := mkQuantity (fmul cdelt1 (Fin (-1))) deg in
cdelt2 <~ header_key header "CDELT2" ;;
let dyas := mkQuantity cdelt2 deg in
if negb (q_eq dxas dyas) then Raise (Exception "GRID MUST BE SAME IN X AND Y")
else
  let beamlog := makedata_beamlog file in
  r <~ getbeams beamlog ;;
  Ok (mkRaw file out dxas dyas beamlog (fst r) (snd r)).

(** [makedata]: the entries ["cube_0"], ["cube_1"], ... in the order of
    [zip(files, outdir)]. *)
Definition makedata (files outdir : list string) : result (list (raw_cube beam_table)) :=
mapR (fun p => makedata_cube (fst p) (snd p)) (combine files outdir).

(** Lines 800-887 of [main]: the checks of the options, the output
    directories, the dictionary and the number of channels. *)
Definition main_setup (args : Args) (outdir : option string)
  : result (Config * list (raw_cube beam_table) * nat) :=
cfg <~ main_config args ;;
let files := cfg_files cfg in
outdir <~ main_outdir outdir files ;;
datadict <~ makedata files outdir ;;
nchans <~ main_nchans (map raw_nchan datadict) ;;
Ok (cfg, datadict, nchans).

End Makedata.

(** *** The output files (lines 686-743 and 936-1001) *)

(** [a.to(u)] on a quantity array *)
Definition qarray_to (u : AngUnit) (a : QArray) : QArray :=
mkQArray (map (fun v => value (to u (mkQuantity v (aunit a)))) (values a)) u.

(** What [initfiles] writes: the data and the header of the image it
    read, the beam it attached to the header, and in natural mode the
    data cast to 32 bits and the table of the beams, in arcsec, arcsec
    and degrees. *)
Record out_file : Type := mkOut {
  out_name : string;
  out_source : string;
  out_beam : Beam;
  out_float32 : bool;
  out_table : option (QArray * QArray * QArray)
}.

(** [d.update(e)] and [d[key]] on dictionaries from cubes to names *)
Definition dict_update (d e : list (nat * string)) : list (nat * string) :=
e ++ d.

Fixpoint dict_get (d : list (nat * string)) (key : nat) : option string :=
match d with
| [] => None
| (k, v) :: d' => if Nat.eqb k key then Some v else dict_get d' key
end.

Section Output.

(** [fits.open(filename)]: whether the image can be opened. *)
Variable fits_open : string -> result unit.
(** [comm.gather(outfile_dict, root=0)], as rank 0 receives it. *)
Variable comm_gather : list (nat * string) -> list (list (nat * string)).

(** [initfiles] (lines 686-743): the name of the file, and the file as
    it is written.  With a mode that is neither ['natural'] nor
    ['total'] the variable [new_hdulist] is never bound. *)
Definition initfiles (c : cube) (mode : string) (suffix prefix : option string)
  : result (string * out_file) :=
_ <~ fits_open (filename c) ;;
commonbeams <~ key_of (commonbeams c) ;;
beam0 <~ index_of (beams_get commonbeams 0) ;;
let new_hdulist :=
  if String.eqb mode "natural" then
    Some (true, Some (qarray_to arcsec (majors commonbeams),
                      qarray_to arcsec (minors commonbeams),
                      qarray_to deg (pas commonbeams)))
  else if String.eqb mode "total" then Some (false, None)
  else None in
let outfile := initfiles_outfile (filename c) (outdir c) mode suffix prefix in
match new_hdulist with
| None => Raise (UnboundLocalError "new_hdulist")
| Some (float32, table) =>
    Ok (outfile, mkOut outfile (filename c) beam0 float32 table)
end.

(** Lines 972-986: the loop over the cubes of the rank, from the
    dictionary of the names so far.  It gives the dictionary of the
    names, or the exception that stopped it, and the files written
    until then. *)
Fixpoint init_loop (dd : list cube) (inputs : list nat) (mode : string)
  (suffix prefix : option string) (outfile_dict : list (nat * string))
  : result (list (nat * string)) * list out_file :=
match inputs with
| [] => (Ok outfile_dict, [])
| inp :: inputs' =>
    match (c <~ key_of (nth_error dd inp) ;; initfiles c mode suffix prefix) with
    | Raise e => (Raise e, [])
    | Ok (outfile, written) =>
        let '(r, more) :=
          init_loop dd inputs' mode suffix prefix
            (dict_update outfile_dict [(inp, outfile)]) in
        (r, written :: more)
    end
end.

(** Lines 945-1005, on rank 0: the output files are initialised, the
    names are gathered when MPI is there, and every cube is given the
    name of its output file.  Without MPI nothing binds [outlist]. *)
Definition main_init (mpiSwitch : bool) (nPE : Z) (dd : list cube) (mode : string)
  (suffix prefix : option string)
  : result (list string) * list out_file :=
let inputs := keys dd in
let '(r, written) := init_loop dd (init_inputs nPE 0 inputs) mode suffix prefix [] in
(outfile_dict <~ r ;;
 outlist <~ (if mpiSwitch then Ok (comm_gather outfile_dict)
             else Raise (UnboundLocalError "outlist")) ;;
 let outlist_dict := fold_left dict_update outlist [] in
 mapR (fun key => key_of (dict_get outlist_dict key)) (keys dd),
 written).

End Output.


(** *** [copyfileobj] (lines 123-138) *)

(** [fsrc.read(length)] on what is left of the stream: at most [length]
    bytes, all of them for a negative [length]; and what is left then. *)
Definition stream_read (length : Z) (fsrc : list Byte.byte)
  : list Byte.byte * list Byte.byte :=
if length <? 0 then (fsrc, [])
else (firstn (Z.to_nat length) fsrc, skipn (Z.to_nat length) fsrc).

(** The loop of [copyfileobj],
<<
  while True:
      buf = fsrc.read(length)
      if not buf:
          break
      fdst.write(buf)
      copied = len(buf)
      pbar.update(copied)
>>
    run for at most [fuel] rounds: what the destination holds and what
    the progress bar counts at the end, or [None] if the rounds did not
    suffice. *)
Fixpoint copyfileobj (fuel : nat) (fsrc fdst : list Byte.byte) (length : Z) (pbar : Z)
  : option (list Byte.byte * Z) :=
match fuel with
| O => None
| S fuel' =>
    let '(buf, fsrc') := stream_read length fsrc in
    match buf with
    | [] => Some (fdst, pbar)
    | _ :: _ =>
        let fdst := fdst ++ buf in
        let copied := Z.of_nat (List.length buf) in
        copyfileobj fuel' fsrc' fdst length (pbar + copied)
    end
end.

(** *** The decimal ceiling in binary64 *)

Module B64.

(** The float of an integer (exact below [2^53]). *)
Definition of_Z (z : Z) : PrimFloat.float :=
if z <? 0 then PrimFloat.opp (PrimFloat.of_uint63 (Uint63.of_Z (- z)))
else PrimFloat.of_uint63 (Uint63.of_Z z).


(** The ceiling of a float: the least integer not below it.  A float
    with a non-negative exponent is an integer already; infinities and
    [nan] are left as they are. *)
Definition ceil (x : PrimFloat.float) : PrimFloat.float :=
match FloatOps.Prim2SF x with
| SpecFloat.S754_finite s m e =>
    if 0 <=? e then x
    else let v := if s then Z.neg m else Z.pos m in
         of_Z (- ((- v) / 2 ^ (- e)))
| _ => x
end.

(** Modelled from the spec: [round_up] is imported from
    [racs_tools.beamcon_2D], which is not among the sources; this is the
    decimal-ceiling rule the specification describes, the ceiling of
    [n * 10^decimals] over [10^decimals], with every operation rounded
    to binary64 as Python rounds it. *)
Definition round_up (n : PrimFloat.float) (decimals : Z) : PrimFloat.float :=
let multiplier := of_Z (10 ^ decimals) in
PrimFloat.div (ceil (PrimFloat.mul n multiplier)) multiplier.

End B64.

(** ** A reference instance of the library, for concrete runs

    Gaussian beams that share a position angle combine their axes in
    quadrature: convolution adds the squares, deconvolution subtracts
    them, and gives up with [BeamError] when nothing is left, as when a
    beam is deconvolved by itself.  [Ref] computes this with a square root rounded down at six
    decimals, exact when the root is a short decimal.  The smallest
    common beam of a set is its largest member when that member covers
    the others; the search is given up otherwise, and an empty set has
    no largest member.  Two beams are equal when their axes and their
    position angles agree within a small tolerance.  The instance is used to run the planner on
    concrete inputs only; no general theorem depends on it. *)
Module Ref.

Definition sqrtQ (q : Q) : Q :=
(inject_Z (Z.sqrt (Qnum q * Zpos (Qden q) * 10 ^ 12)) /
 inject_Z (Zpos (Qden q) * 10 ^ 6))%Q.

Definition quad_add (a b : float64) : float64 :=
match a, b with
| Fin x, Fin y => Fin (sqrtQ (x * x + y * y))
| _, _ => NaN
end.

(** [None] when the difference of squares is negative. *)
Definition quad_sub (a b : float64) : option float64 :=
match a, b with
| Fin x, Fin y =>
    if Qle_bool (y * y) (x * x) then Some (Fin (sqrtQ (x * x - y * y))) else None
| _, _ => Some NaN
end.

Definition convolve (a b : Beam) : Beam :=
mkBeam
  (mkQuantity (quad_add (value (to arcsec (major a))) (value (to arcsec (major b)))) arcsec)
  (mkQuantity (quad_add (value (to arcsec (minor a))) (value (to arcsec (minor b)))) arcsec)
  (to deg (pa a)).

Definition deconvolve (a b : Beam) : result Beam :=
match quad_sub (value (to arcsec (major a))) (value (to arcsec (major b))),
      quad_sub (value (to arcsec (minor a))) (value (to arcsec (minor b))) with
| Some x, Some y =>
    if feq x (Fin 0) && feq y (Fin 0) then Raise BeamError
    else if flt x y
    then Ok (mkBeam (mkQuantity y arcsec) (mkQuantity x arcsec)
                    (mkQuantity (match value (to deg (pa a)) with
                                 | Fin p => Fin (p + 90)
                                 | NaN => NaN
                                 end) deg))
    else Ok (mkBeam (mkQuantity x arcsec) (mkQuantity y arcsec) (to deg (pa a)))
| _, _ => Raise BeamError
end.

Definition covers (a b : Beam) : bool :=
negb (q_lt (major a) (major b)) && negb (q_lt (minor a) (minor b)).

Fixpoint largest (b : Beam) (l : list Beam) : Beam :=
match l with
| [] => b
| x :: l' => largest (if beam_lt b x then x else b) l'
end.

Definition common_beam (bs : Beams) (tolerance : Q) (nsamps : Z) (epsilon : Q)
  : result Beam :=
match beams_iter bs with
| [] => Raise (ValueError "attempt to get argmax of an empty sequence")
| b :: l =>
    let c := largest b l in
    if forallb (covers c) (b :: l) then Ok c else Raise BeamError
end.

(** A stand-in for the comparison of beams: the axes agree within [atol]
    degrees, and so do the position angles taken modulo 180 degrees;
    [NaN] is close to nothing. *)
Definition atol : Q := 1 # 1000000.

Definition close (a b : float64) : bool :=
match a, b with
| Fin x, Fin y => negb (Qle_bool atol (x - y)) && negb (Qle_bool atol (y - x))
| _, _ => false
end.

Definition mod180 (a : float64) : float64 :=
match a with
| Fin x => Fin (x - inject_Z (180 * Qfloor (x / 180)))
| NaN => NaN
end.

Definition beam_eq (a b : Beam) : bool :=
close (value (to deg (major a))) (value (to deg (major b))) &&
close (value (to deg (minor a))) (value (to deg (minor b))) &&
close (mod180 (value (to deg (pa a)))) (mod180 (value (to deg (pa b)))).

(** A stand-in for [au2.gauss_factor]: the convolving beam's area in
    pixels, [NaN] as soon as one argument is [NaN]. *)
Definition gauss_factor (beamConv beamOrig : float64 * float64 * float64)
  (dx1 dy1 : float64) : float64 :=
let '(bmaj, bmin, bpa) := beamConv in
let '(omaj, omin, opa) := beamOrig in
if isnan bpa || isnan omaj || isnan omin || isnan opa then NaN
else fdiv (fmul bmaj bmin) (fmul dx1 dy1).

End Ref.

(** ** Notions used to state the properties *)

(** A property of one component of the world that a computation keeps,
    whatever its outcome. *)
Definition inv {X : Type} (f : world -> X) (P : X -> Prop) {A} (m : M A) : Prop :=
forall w, P (f w) -> P (f (snd (m w))).

Definition with_trace (w : world) (evs : list event) : world :=
mkWorld (datadict w) (files w) (trace w ++ evs).

Definition beams_kept (c0 c : cube) : Prop :=
beams c = beams c0 /\ mask c = mask c0.

Definition unmasked_kept (c0 c : cube) : Prop :=
mask c = mask c0 /\
forall n, nth_error (mask c0) n = Some false ->
          beams_get (beams c) n = beams_get (beams c0) n.

Definition planned_with (cbs : Beams) (k : nat) (dd : list cube) : Prop :=
exists c, nth_error dd k = Some c /\ commonbeams c = Some cbs.

(** The sub-set [beams[~np.isnan(beams)]] of an all-[NaN] set: empty
    arrays with the units of the set. *)
Definition no_beams (bs : Beams) : Beams :=
mkBeams (mkQArray [] (aunit (majors bs))) (mkQArray [] (aunit (minors bs)))
        (mkQArray [] (aunit (pas bs))).

(** One cube of two channels, the second one flagged by the pipeline with
    the null beam, planned in natural mode. *)
Definition slip_beams : Beams :=
mkBeams (mkQArray [Fin 10; Fin 0] arcsec) (mkQArray [Fin 5; Fin 0] arcsec)
        (mkQArray [Fin 0; Fin 0] deg).

Definition slip_cube : cube :=
mkCube "image.fits" "." (mkQuantity (Fin (1 # 3600)) deg) (mkQuantity (Fin (1 # 3600)) deg)
       "beamlog.image.txt" 2 slip_beams [false; true] None None None None.

Definition slip_world : world := mkWorld [slip_cube] [] [].

Definition slip_args : Args :=
mkArgs ["image.fits"%string] false "natural" "robust" false None None None None
       (1 # 10000) (5 # 10000) 200.

(** The beam set of channel 0 and its only beam. *)
Definition slip_set : Beams :=
mkBeams (mkQArray [Fin 10] arcsec) (mkQArray [Fin 5] arcsec) (mkQArray [Fin 0] deg).

Definition slip_beam : Beam :=
mkBeam (mkQuantity (Fin 10) arcsec) (mkQuantity (Fin 5) arcsec) (mkQuantity (Fin 0) deg).

(** Same angle, whatever the units. *)
Definition same_angle (a b : Quantity) : Prop :=
float_equiv (value (to arcsec a)) (value (to arcsec b)).

Definition planned_major (w : world) (chan : nat) : option Quantity :=
match nth_error (datadict w) 0 with
| Some c => match commonbeams c with
            | Some cbs => option_map major (beams_get cbs chan)
            | None => None
            end
| None => None
end.

(** The common beam of channel 0 as [commonbeamer] holds it: the
    rounded values [10.0], [5.0] and [0.00], tagged with the units of the
    last channel's common beam, the [NaN] beam in degrees. *)
Definition slip_common : Beam :=
mkBeam (mkQuantity (Fin (100 # 10)) deg) (mkQuantity (Fin (50 # 10)) deg)
       (mkQuantity (Fin (0 # 100)) deg).

Definition sampled (s : float64) : Prop :=
match s with
| Fin q => (2 <= q)%Q
| NaN => False
end.

Definition foo_args : Args :=
mkArgs ["cube.fits"%string] false "foo" "robust" false None None None None
       (1 # 10000) (5 # 10000) 200.

Definition put_dd (w : world) (dd : list cube) : world :=
mkWorld dd (files w) (trace w).

Definition well_shaped (nchans : nat) (c : cube) : Prop :=
List.length (values (majors (beams c))) = nchans /\
List.length (values (minors (beams c))) = nchans /\
List.length (values (pas (beams c))) = nchans.

(** The mask entry of one beam: over the cutoff, or the null beam. *)
Definition masked (beam_eq : Beam -> Beam -> bool) (cutoff : option Quantity)
  (b : Beam) : bool :=
match cutoff with
| Some q => q_gt (major b) q
| None => false
end || beam_eq b nullbeam.

Definition with_mask (beam_eq : Beam -> Beam -> bool) (cutoff : option Quantity)
  (c : cube) : cube :=
set_mask c (map (masked beam_eq cutoff) (beams_iter (beams c))).

(** The cube of the specification's example: major axes 10, 12, [NaN] and
    15 arcsec, minor axis 2 arcsec, position angle 0. *)
Definition example_beams : Beams :=
mkBeams (mkQArray [Fin 10; Fin 12; NaN; Fin 15] arcsec)
        (mkQArray [Fin 2; Fin 2; Fin 2; Fin 2] arcsec)
        (mkQArray [Fin 0; Fin 0; Fin 0; Fin 0] deg).

Definition example_world : world :=
mkWorld [mkCube "image.fits" "." (mkQuantity (Fin (1 # 3600)) deg)
           (mkQuantity (Fin (1 # 3600)) deg) "beamlog.image.txt" 4 example_beams []
           None None None None] [] [].

Definition example_cutoff : Quantity := mkQuantity (Fin 14) arcsec.

(** Two beams neither of which covers the other: the reference search
    gives up at every tolerance. *)
Definition crossed_set : Beams :=
mkBeams (mkQArray [Fin 10; Fin 5] arcsec) (mkQArray [Fin 2; Fin 4] arcsec)
        (mkQArray [Fin 0; Fin 0] deg).

(** One cube of one channel with an 8 arcsec circular beam on a 12 arcsec
    grid, and a 10 arcsec circular target beam. *)
Definition coarse_beams : Beams :=
mkBeams (mkQArray [Fin 8] arcsec) (mkQArray [Fin 8] arcsec) (mkQArray [Fin 0] deg).

Definition coarse_beam : Beam :=
mkBeam (mkQuantity (Fin 8) arcsec) (mkQuantity (Fin 8) arcsec) (mkQuantity (Fin 0) deg).

Definition coarse_grid : Quantity := mkQuantity (Fin (1 # 300)) deg.

Definition coarse_world : world :=
mkWorld [mkCube "image.fits" "." coarse_grid coarse_grid "beamlog.image.txt" 1
           coarse_beams [false] None None None None] [] [].

Definition target10 : Beam :=
mkBeam (mkQuantity (Fin 10) arcsec) (mkQuantity (Fin 10) arcsec) (mkQuantity (Fin 0) deg).

Definition coarse_args (conv_mode : string) : Args :=
mkArgs ["image.fits"%string] false "total" conv_mode false
       (Some (Fin 10)) (Some (Fin 10)) (Some (Fin 0)) None (1 # 10000) (5 # 10000) 200.

(** The same grid with a circular beam of 7.95 arcsec, which is rounded
    up to 8 arcsec. *)
Definition near_beams : Beams :=
mkBeams (mkQArray [Fin (795 # 100)] arcsec) (mkQArray [Fin (795 # 100)] arcsec)
        (mkQArray [Fin 0] deg).

Definition near_beam : Beam :=
mkBeam (mkQuantity (Fin (795 # 100)) arcsec) (mkQuantity (Fin (795 # 100)) arcsec)
       (mkQuantity (Fin 0) deg).

Definition near_world : world :=
mkWorld [mkCube "image.fits" "." coarse_grid coarse_grid "beamlog.image.txt" 1
           near_beams [false] None None None None] [] [].

(** One cube of two channels: a beam of 9.95 by 4.95 arcsec, and the
    null beam of the pipeline, flagged by [masking]. *)
Definition flagged_beams : Beams :=
mkBeams (mkQArray [Fin (995 # 100); Fin 0] arcsec)
        (mkQArray [Fin (495 # 100); Fin 0] arcsec)
        (mkQArray [Fin 0; Fin 0] deg).

Definition flagged_world : world :=
mkWorld [mkCube "image.fits" "." (mkQuantity (Fin (1 # 3600)) deg)
           (mkQuantity (Fin (1 # 3600)) deg) "beamlog.image.txt" 2 flagged_beams
           [false; true] None None None None] [] [].

(** A cube whose only channel carries the null beam: every entry of the
    beam set of total mode is [NaN]. *)
Definition blank_beams : Beams :=
mkBeams (mkQArray [Fin 0] arcsec) (mkQArray [Fin 0] arcsec) (mkQArray [Fin 0] deg).

Definition blank_world : world :=
mkWorld [mkCube "image.fits" "." (mkQuantity (Fin (1 # 3600)) deg)
           (mkQuantity (Fin (1 # 3600)) deg) "beamlog.image.txt" 1 blank_beams [true]
           None None None None] [] [].

Definition blank_set : Beams :=
mkBeams (mkQArray [NaN] arcsec) (mkQArray [NaN] arcsec) (mkQArray [NaN] deg).




(** An event of the trace that is neither a warning nor a convolution
    of beams. *)
Definition quiet (e : event) : bool :=
match e with
| ev_warn _ | ev_convolve _ _ => false
| ev_common_beam _ _ _ _ | ev_deconvolve _ _ => true
end.

(** The trace [t] continues [t0] with quiet events only. *)
Definition quietly_extends (t0 t : list event) : Prop :=
exists evs, t = t0 ++ evs /\ forallb quiet evs = true.


(** The four keys that [readlogs] gives a cube, from the table of its log. *)
Definition replayed (mode : string) (fs : list (string * Table)) (c : cube) : cube :=
match lookup_file (commonbeam_log_name c mode) fs with
| Some tab =>
    set_commonbeamlog
      (set_commonbeams
         (set_convbeams (set_facs c (Convolving_factor tab))
            (mkBeams (mkQArray (Convolving_BMAJ tab) arcsec)
                     (mkQArray (Convolving_BMIN tab) arcsec)
                     (mkQArray (Convolving_BPA tab) deg)))
         (mkBeams (mkQArray (Target_BMAJ tab) arcsec)
                  (mkQArray (Target_BMIN tab) arcsec)
                  (mkQArray (Target_BPA tab) deg)))
      (commonbeam_log_name c mode)
| None => c
end.

(** The three arrays of a [Beams] object have [n] entries. *)
Definition beams_shape (n : nat) (b : Beams) : Prop :=
List.length (values (majors b)) = n /\
List.length (values (minors b)) = n /\
List.length (values (pas b)) = n.



(** [b > a] does not hold: [b <= a] for two numbers, and whenever one of
    the two is [NaN]. *)
Definition not_above (b a : float64) : Prop :=
match b, a with
| Fin y, Fin x => (y <= x)%Q
| _, _ => True
end.

(** The stored beams of a cube after the masked multiplications of
    total mode: [NaN] wherever the mask is set, the stored value
    elsewhere, the units as they were. *)
Definition blanked_beams (c : cube) : Beams :=
mkBeams (mkQArray (zip_nan (values (majors (beams c))) (mask c)) (aunit (majors (beams c))))
        (mkQArray (zip_nan (values (minors (beams c))) (mask c)) (aunit (minors (beams c))))
        (mkQArray (zip_nan (values (pas (beams c))) (mask c)) (aunit (pas (beams c)))).


(** What the last loop of [commonbeamer] feeds the convolving beams of a
    cube with: per channel, the common beam, the cube's beam and the
    mask. *)
Definition conv_inputs (cbs : Beams) (c : cube) : list (Beam * Beam * bool) :=
combine (combine (beams_iter cbs) (beams_iter (beams c))) (mask c).

(** The [Beams] object made of the convolving beams [convs]: their
    values as they are, with the units of [convbeam] for the axes, and
    the position angles in degrees. *)
Definition conv_beams_of (convs : list Beam) (convbeam : Beam) : Beams :=
mkBeams (mkQArray (map (fun b => value (major b)) convs) (unit_of (major convbeam)))
        (mkQArray (map (fun b => value (minor b)) convs) (unit_of (minor convbeam)))
        (mkQArray (map (fun b => value (to deg (pa b))) convs) deg).

(** ** [smooth] and [worker] (lines 199-308) *)

(** An image plane: rows of pixels. *)
Definition image : Type := list (list float64).

(** [image * x] *)
Definition scale (im : image) (x : float64) : image :=
map (map (fun p => fmul p x)) im.

(** [np.isnan(image).all()] *)
Definition all_nan (im : image) : bool := forallb (forallb isnan) im.

(** A plane of the same shape with [NaN] in every pixel. *)
Definition blank (im : image) : image := map (map (fun _ => NaN)) im.

Definition fmax (a b : float64) : float64 :=
match a, b with
| Fin x, Fin y => if Qle_bool x y then Fin y else Fin x
| _, _ => NaN
end.

(** [a.max()]: a [NaN] entry gives [NaN], and an array with no entry is
    refused. *)
Definition array_max (a : image) : result float64 :=
match concat a with
| [] => Raise (ValueError "zero-size array to reduction operation maximum which has no identity")
| x :: l => Ok (fold_left fmax l x)
end.

Section Smoothing.

(** The routines of the other libraries, any of which may raise:
    [conbeam.as_kernel(pix_scale).array] of radio_beam,
    [convolve_uv.convolve], [scipy.signal.convolve] with [mode='same'],
    [convolve] and [convolve_fft] of astropy with
    [normalize_kernel=False], and the plane
    [SpectralCube.read(filename).unmasked_data[i].value]. *)
Variable as_kernel : Beam -> Quantity -> result image.
Variable convolve_uv :
  image -> Beam -> Beam -> Quantity -> Quantity -> result (image * float64).
Variable scipy_signal_convolve : image -> image -> result image.
Variable astropy_convolve : image -> image -> result image.
Variable astropy_convolve_fft : image -> image -> result image.
Variable read_plane : string -> nat -> result image.

(** [smooth] (lines 199-261).  The variable [newim] is bound by the
    branch of the convolution mode, if there is one. *)
Definition smooth (im : image) (dx dy : Quantity) (oldbeam newbeam conbeam : Beam)
  (sfactor : float64) (conv_mode : string) : result image :=
if beam_isnan conbeam then Ok (scale im NaN)
else if all_nan im then Ok im
else
  let pix_scale := dy in
  gauss_kern <~ as_kernel conbeam pix_scale ;;
  peak <~ array_max gauss_kern ;;
  let conbm1 := map (map (fun k => fdiv k peak)) gauss_kern in
  let fac := sfactor in
  robust <~ (if String.eqb conv_mode "robust"
             then r <~ convolve_uv im oldbeam newbeam dx dy ;;
                  Ok (Some (fst r), snd r)
             else Ok (None, fac)) ;;
  let '(newim, fac) := robust in
  newim <~ (if String.eqb conv_mode "scipy"
            then r <~ scipy_signal_convolve im conbm1 ;; Ok (Some r)
            else if String.eqb conv_mode "astropy"
            then r <~ astropy_convolve im conbm1 ;; Ok (Some r)
            else if String.eqb conv_mode "astropy_fft"
            then r <~ astropy_convolve_fft im conbm1 ;; Ok (Some r)
            else Ok newim) ;;
  match newim with
  | None => Raise (UnboundLocalError "newim")
  | Some newim => Ok (scale newim fac)
  end.

(** [worker] (lines 284-308), for a channel [start + idx] that is not
    negative, as [main] calls it. *)
Definition worker (idx : nat) (cubedict : cube) (conv_mode : string) (start : nat)
  : result image :=
plane <~ read_plane (filename cubedict) (start + idx) ;;
oldbeam <~ index_of (beams_get (beams cubedict) (start + idx)) ;;
commonbeams <~ key_of (commonbeams cubedict) ;;
newbeam <~ index_of (beams_get commonbeams (start + idx)) ;;
convbeams <~ key_of (convbeams cubedict) ;;
conbeam <~ index_of (beams_get convbeams (start + idx)) ;;
facs <~ key_of (facs cubedict) ;;
sfactor <~ index_of (nth_error facs (start + idx)) ;;
smooth plane (dx cubedict) (dy cubedict) oldbeam newbeam conbeam sfactor conv_mode.

End Smoothing.

(** ** Stand-ins for the files and the other libraries, for concrete runs *)

(** A plane of two rows, one pixel of which is blank already. *)
Definition example_plane : image := [[Fin 1; Fin 2]; [Fin 3; NaN]].

Definition example_read_plane : string -> nat -> result image :=
fun _ _ => Ok example_plane.

(** A kernel of one pixel; a robust convolution that returns the plane
    and the factor 2; other convolutions that return the plane. *)
Definition example_kernel : Beam -> Quantity -> result image :=
fun _ _ => Ok [[Fin 1]].

Definition example_convolve_uv
  : image -> Beam -> Beam -> Quantity -> Quantity -> result (image * float64) :=
fun im _ _ _ _ => Ok (im, Fin 2).

Definition example_convolve : image -> image -> result image :=
fun im _ => Ok im.

(** A header with a grid step of one arcsec, and a beam log of two rows. *)
Definition example_header : string -> result (string -> option float64) :=
fun _ => Ok (fun key => if String.eqb key "CDELT1" then Some (Fin (-1 # 3600))
                        else if String.eqb key "CDELT2" then Some (Fin (1 # 3600))
                        else None).

Definition example_getbeams : string -> result (unit * nat) :=
fun _ => Ok (tt, 2%nat).

Definition example_fits_open : string -> result unit := fun _ => Ok tt.

(** A gather on one rank. *)
Definition example_gather : list (nat * string) -> list (list (nat * string)) :=
fun d => [d].

(** ** The planner over the library: [getfacs] and [commonbeamer] *)

Section Planner.

(** The comparison [==] of beams, [Beams.common_beam(tolerance, nsamps,
    epsilon)], [Beam.deconvolve], [Beam.convolve] of radio_beam, and
    [au2.gauss_factor]. *)
Variable beam_eq : Beam -> Beam -> bool.
Variable common_beam : Beams -> Q -> Z -> Q -> result Beam.
Variable deconvolve : Beam -> Beam -> result Beam.
Variable convolve : Beam -> Beam -> Beam.
Variable gauss_factor :
  float64 * float64 * float64 -> float64 * float64 * float64 ->
  float64 -> float64 -> float64.

Definition call_common_beam (bs : Beams) (tolerance : Q) (nsamps : Z) (epsilon : Q)
  : M Beam :=
emit (ev_common_beam bs tolerance nsamps epsilon) ;;;
lift (common_beam bs tolerance nsamps epsilon).

Definition call_deconvolve (target other : Beam) : M Beam :=
emit (ev_deconvolve target other) ;;; lift (deconvolve target other).

Definition call_convolve (a b : Beam) : M Beam :=
emit (ev_convolve a b) ;;; ret (convolve a b).

Definition beam_triple (b : Beam) : float64 * float64 * float64 :=
(value (to arcsec (major b)), value (to arcsec (minor b)), value (to deg (pa b))).

(** [getfacs] (lines 165-196) *)
Definition getfacs (c : cube) (convbeams : Beams) : list float64 :=
map (fun p : Beam * Beam =>
       gauss_factor (beam_triple (fst p)) (beam_triple (snd p))
                (value (to arcsec (dx c))) (value (to arcsec (dy c))))
    (combine (beams_iter convbeams) (beams_iter (beams c))).

(** Lines 413-424 and 514-525: the search, tried again once on [BeamError]. *)
Definition find_common_beam (args : Args) (bs : Beams) : M Beam :=
except_BeamError
  (call_common_beam (beams_notnan bs) (arg_tolerance args)
     (arg_nsamps args) (arg_epsilon args))
  (call_common_beam (beams_notnan bs) (arg_tolerance args * (1 # 10))%Q
     (arg_nsamps args) (arg_epsilon args)).

(** Lines 439-444 and 542-547: the sample counts of the convolving beams. *)
Definition nyquist_samps (commonbeam : Beam) (bs : Beams) (grid : Quantity)
  : M (list float64) :=
minorcons <- mapM (fun beam =>
               d <- call_deconvolve commonbeam beam ;;
               ret (value (to arcsec (minor d))))
             (beams_iter (beams_notnan bs)) ;;
ret (map (fun m => fdiv m (value (to arcsec grid))) minorcons).

(** Lines 448-462 and 551-565: the candidate convolved with the Nyquist
    beam, rounded up. *)
Definition nyquist_beam (commonbeam : Beam) (grid : Quantity) : M Beam :=
nyq_beam <- call_convolve commonbeam (nyq_con_beam grid) ;;
ret (round_beam nyq_beam).

(** Lines 406-469: the common beam of one channel. *)
Definition natural_commonbeam (args : Args) (conv_mode : string) (bs : Beams)
  : M Beam :=
if forallb id (beams_isnan bs) then ret nan_beam
else
  commonbeam <- find_common_beam args bs ;;
  let commonbeam := round_beam commonbeam in
  grid <- last_grid ;;
  if negb (String.eqb conv_mode "robust") then
    samps <- nyquist_samps commonbeam bs grid ;;
    if undersampled samps then
      nyq_beam <- nyquist_beam commonbeam grid ;;
      warn "COMMON BEAM WILL BE UNDERSAMPLED!" ;;;
      warn "SETTING COMMON BEAM TO NYQUIST BEAM" ;;;
      ret nyq_beam
    else ret commonbeam
  else ret commonbeam.

(** Lines 365-484: natural mode.  The values of the per-channel common
    beams are collected as they are and tagged with the units of the last
    channel's common beam. *)
Definition natural_commonbeams (nchans : nat) (args : Args) (conv_mode : string)
  : M Beams :=
dd <- get_datadict ;;
big_beams <- lift (mapR (channel_beams dd) (seq 0 nchans)) ;;
commons <- mapM (natural_commonbeam args conv_mode) big_beams ;;
match last_opt commons with
| None => raise (UnboundLocalError "commonbeam")
| Some commonbeam => ret (beams_of_values commons commonbeam)
end.

(** Lines 491-499: one cube in total mode.  [major], [minor] and [pa] are
    the arrays stored in the cube's [Beams] object, so the three masked
    multiplications write into the data dictionary. *)
Definition total_gather (key : nat) : M Beams :=
c <- get_cube key ;;
major' <- lift (nan_where (mask c) (majors (beams c))) ;;
let c1 := set_beams c (mkBeams major' (minors (beams c)) (pas (beams c))) in
put_cube key c1 ;;;
minor' <- lift (nan_where (mask c1) (minors (beams c1))) ;;
let c2 := set_beams c1 (mkBeams (majors (beams c1)) minor' (pas (beams c1))) in
put_cube key c2 ;;;
pa' <- lift (nan_where (mask c2) (pas (beams c2))) ;;
let c3 := set_beams c2 (mkBeams (majors (beams c2)) (minors (beams c2)) pa') in
put_cube key c3 ;;;
ret (beams c3).

(** Lines 487-508: all beams of all cubes in one [Beams] object, tagged
    with the units of the last cube.  [np.array(majors).ravel()] puts
    the cubes' arrays end to end; arrays of different lengths are
    refused. *)
Definition total_big_beams : M Beams :=
dd <- get_datadict ;;
gathered <- mapM total_gather (keys dd) ;;
if negb (same_lengths gathered)
then raise (ValueError "inhomogeneous shape")
else
match last_opt gathered with
| None => raise (UnboundLocalError "major")
| Some b =>
    ret (mkBeams
           (mkQArray (concat (map (fun g => values (majors g)) gathered)) (aunit (majors b)))
           (mkQArray (concat (map (fun g => values (minors g)) gathered)) (aunit (minors b)))
           (mkQArray (concat (map (fun g => values (pas g)) gathered)) (aunit (pas b))))
end.

(** Lines 539-576: the Nyquist check of total mode. *)
Definition total_nyquist (conv_mode : string) (target_beam : option Beam)
  (commonbeam : Beam) (big_beams : Beams) : M Beam :=
if negb (String.eqb conv_mode "robust") then
  grid <- last_grid ;;
  samps <- nyquist_samps commonbeam big_beams grid ;;
  if undersampled samps then
    nyq_beam <- nyquist_beam commonbeam grid ;;
    match target_beam with
    | Some target_beam =>
        if beam_lt target_beam nyq_beam then
          warn "TARGET BEAM WILL BE UNDERSAMPLED!" ;;;
          raise (Exception "CAN'T UNDERSAMPLE BEAM - EXITING")
        else ret target_beam
    | None =>
        warn "COMMON BEAM WILL BE UNDERSAMPLED!" ;;;
        warn "SETTING COMMON BEAM TO NYQUIST BEAM" ;;;
        ret nyq_beam
    end
  else ret commonbeam
else ret commonbeam.

(** Lines 486-583: total mode. *)
Definition total_commonbeams (nchans : nat) (args : Args) (conv_mode : string)
  (target_beam : option Beam) : M Beams :=
big_beams <- total_big_beams ;;
commonbeam <- find_common_beam args big_beams ;;
let commonbeam := match target_beam with
                  | Some t => t
                  | None => round_beam commonbeam
                  end in
commonbeam <- total_nyquist conv_mode target_beam commonbeam big_beams ;;
ret (beams_of_values (repeat commonbeam nchans) commonbeam).

(** Lines 601-612: one channel's convolving beam. *)
Definition convolving_beam (p : Beam * Beam * bool) : M Beam :=
let '(commonbeam, oldbeam, mask) := p in
if mask then ret nan_beam else call_deconvolve commonbeam oldbeam.

(** Lines 595-661: one cube of the last loop.  [convbeam_var] is the
    function's variable [convbeam], which keeps its value from one cube
    to the next. *)
Definition convolution_data (mode : string) (nchans : nat)
  (commonbeams : option Beams) (convbeam_var : option Beam) (key : nat)
  : M (option Beam) :=
c <- get_cube key ;;
match commonbeams with
| None => raise (UnboundLocalError "commonbeams")
| Some commonbeams =>
    convs <- mapM convolving_beam
               (combine (combine (beams_iter commonbeams) (beams_iter (beams c)))
                        (mask c)) ;;
    let convbeam_var := match last_opt convs with
                        | Some b => Some b
                        | None => convbeam_var
                        end in
    match convbeam_var with
    | None => raise (UnboundLocalError "convbeam")
    | Some convbeam =>
        let convbeams :=
          mkBeams
            (mkQArray (map (fun b => value (major b)) convs) (unit_of (major convbeam)))
            (mkQArray (map (fun b => value (minor b)) convs) (unit_of (minor convbeam)))
            (mkQArray (map (fun b => value (to deg (pa b))) convs) deg) in
        let facs := getfacs c convbeams in
        let commonbeam_log := commonbeam_log_name c mode in
        let c' := set_commonbeamlog
                    (set_commonbeams (set_convbeams (set_facs c facs) convbeams)
                       commonbeams)
                    commonbeam_log in
        put_cube key c' ;;;
        commonbeam_tab <- lift (make_table nchans commonbeams convbeams facs) ;;
        write_file commonbeam_log commonbeam_tab ;;;
        ret convbeam_var
    end
end.

(** [commonbeamer] (lines 348-665).  With a mode that is neither
    ['natural'] nor ['total'] the variable [commonbeams] is never bound,
    and its first use fails. *)
Definition commonbeamer (nchans : nat) (args : Args) (conv_mode mode : string)
  (target_beam : option Beam) (verbose : bool) : M unit :=
commonbeams <-
  (if String.eqb mode "natural" then
     b <- natural_commonbeams nchans args conv_mode ;; ret (Some b)
   else if String.eqb mode "total" then
     b <- total_commonbeams nchans args conv_mode target_beam ;; ret (Some b)
   else ret None) ;;
(if verbose && is_None commonbeams
 then raise (UnboundLocalError "commonbeams") else ret tt) ;;;
dd <- get_datadict ;;
foldM (convolution_data mode nchans commonbeams) None (keys dd) ;;;
ret tt.

(** Lines 902-925 of [main]: mask, then plan or replay. *)
Definition plan (nchans : nat) (args : Args) (cfg : Config) (verbose : bool)
  : M unit :=
masking beam_eq nchans (cfg_cutoff cfg) ;;;
if negb (arg_uselogs args) then
  commonbeamer nchans args (cfg_conv_mode cfg) (cfg_mode cfg)
    (cfg_target_beam cfg) verbose
else
  readlogs (cfg_mode cfg) verbose.

(** The cube holds a plan made for the common beams [cbs]: these common
    beams, one convolving beam per channel that has a common beam, a
    beam and a mask entry, the [NaN] beam where the channel is masked,
    and the factors of these convolving beams. *)
Definition planned_for (cbs : Beams) (c : cube) : Prop :=
commonbeams c = Some cbs /\
exists convs convbeam,
  convbeams c = Some (conv_beams_of convs convbeam) /\
  facs c = Some (getfacs c (conv_beams_of convs convbeam)) /\
  List.length convs = List.length (conv_inputs cbs c) /\
  forall n cb ob, nth_error (conv_inputs cbs c) n = Some (cb, ob, true) ->
                  nth_error convs n = Some nan_beam.

(** ** Reasoning about runs *)

Lemma list_update_app {A} (pre post : list A) (x y : A) :
  list_update (pre ++ x :: post) (List.length pre) y = pre ++ y :: post.
Proof. induction pre as [|a pre IH]; simpl; [reflexivity | now rewrite IH]. Qed.

Lemma nth_error_middle {A} (pre post : list A) (x : A) :
  nth_error (pre ++ x :: post) (List.length pre) = Some x.
Proof. induction pre as [|a pre IH]; simpl; [reflexivity | exact IH]. Qed.

Lemma bind_ok {A B} (m : M A) (k : A -> M B) w a w' :
  m w = (Ok a, w') -> bind m k w = k a w'.
Proof. intros E. unfold bind. now rewrite E. Qed.

Lemma bind_raise {A B} (m : M A) (k : A -> M B) w e w' :
  m w = (Raise e, w') -> bind m k w = (Raise e, w').
Proof. intros E. unfold bind. now rewrite E. Qed.

Lemma bind_ok_inv {A B} (m : M A) (k : A -> M B) w b w2 :
  bind m k w = (Ok b, w2) ->
  exists a w1, m w = (Ok a, w1) /\ k a w1 = (Ok b, w2).
Proof.
unfold bind. destruct (m w) as [[a|e] w1]; intros E; [|discriminate].
now exists a, w1.
Qed.

Lemma mapM_app {A B} (f : A -> M B) (l1 l2 : list A) w :
  mapM f (l1 ++ l2) w =
  (ys1 <- mapM f l1 ;; ys2 <- mapM f l2 ;; ret (ys1 ++ ys2)) w.
Proof.
revert w. induction l1 as [|x l1 IH]; intros w; simpl.
- unfold bind, ret. destruct (mapM f l2 w) as [[ys|e] w']; reflexivity.
- unfold bind in *. destruct (f x w) as [[y|e] w1]; [|reflexivity].
  rewrite IH.
  destruct (mapM f l1 w1) as [[ys1|e] w2]; [|reflexivity].
  unfold ret; cbv beta iota.
  destruct (mapM f l2 w2) as [[ys2|e] w3]; reflexivity.
Qed.

Section Frame.
Context {X : Type} (f : world -> X) (P : X -> Prop).

Lemma inv_ret {A} (a : A) : inv f P (ret a).
Proof. intros w H. exact H. Qed.

Lemma inv_raise {A} (e : exn) : inv f P (@raise A e).
Proof. intros w H. exact H. Qed.

Lemma inv_lift {A} (r : result A) : inv f P (lift r).
Proof. intros w H. exact H. Qed.

Lemma inv_bind {A B} (m : M A) (k : A -> M B) :
  inv f P m -> (forall a, inv f P (k a)) -> inv f P (bind m k).
Proof.
intros Hm Hk w H. unfold bind. specialize (Hm w H).
destruct (m w) as [[a|e] w1]; simpl in *; [now apply Hk | exact Hm].
Qed.

Lemma inv_bind_lift {A B} (r : result A) (k : A -> M B) :
  (forall a, r = Ok a -> inv f P (k a)) -> inv f P (bind (lift r) k).
Proof.
intros Hk w H. unfold bind, lift. destruct r as [a|e]; [|exact H].
now apply Hk.
Qed.

Lemma inv_except {A} (m h : M A) : inv f P m -> inv f P h -> inv f P (except_BeamError m h).
Proof.
intros Hm Hh w H. unfold except_BeamError. specialize (Hm w H).
destruct (m w) as [[a|[]] w1]; simpl in *; try exact Hm. now apply Hh.
Qed.

Lemma inv_mapM {A B} (g : A -> M B) (l : list A) :
  (forall x, inv f P (g x)) -> inv f P (mapM g l).
Proof.
intros Hg. induction l as [|x l IH]; simpl.
- apply inv_ret.
- apply inv_bind; [apply Hg|]. intros y.
  apply inv_bind; [exact IH|]. intros ys. apply inv_ret.
Qed.

Lemma inv_forM_ {A} (l : list A) (g : A -> M unit) :
  (forall x, inv f P (g x)) -> inv f P (forM_ l g).
Proof.
intros Hg. induction l as [|x l IH]; simpl.
- apply inv_ret.
- apply inv_bind; [apply Hg|]. intros _. exact IH.
Qed.

Lemma inv_foldM {A S} (g : S -> A -> M S) (l : list A) (s : S) :
  (forall s x, inv f P (g s x)) -> inv f P (foldM g s l).
Proof.
intros Hg. revert s. induction l as [|x l IH]; intros s; simpl.
- apply inv_ret.
- apply inv_bind; [apply Hg|]. intros s'. apply IH.
Qed.

End Frame.

Lemma inv_get_datadict {X} (f : world -> X) P : inv f P get_datadict.
Proof. intros w H. exact H. Qed.

Lemma inv_get_cube {X} (f : world -> X) P k : inv f P (get_cube k).
Proof. intros w H. unfold get_cube. destruct (nth_error _ _); exact H. Qed.

Lemma inv_read_file {X} (f : world -> X) P n : inv f P (read_file n).
Proof. intros w H. exact H. Qed.

Lemma inv_dd_emit P e : inv datadict P (emit e).
Proof. intros w H. exact H. Qed.

Lemma inv_dd_write_file P n t : inv datadict P (write_file n t).
Proof. intros w H. exact H. Qed.

Lemma inv_trace_put_cube P k c : inv trace P (put_cube k c).
Proof. intros w H. exact H. Qed.

Lemma inv_trace_write_file P n t : inv trace P (write_file n t).
Proof. intros w H. exact H. Qed.

Lemma inv_files_put_cube P k c : inv files P (put_cube k c).
Proof. intros w H. exact H. Qed.

Lemma inv_files_emit P e : inv files P (emit e).
Proof. intros w H. exact H. Qed.

Create HintDb frame.
#[local] Hint Resolve inv_ret inv_raise inv_lift inv_get_datadict inv_get_cube
  inv_read_file inv_dd_emit inv_dd_write_file inv_trace_put_cube
  inv_trace_write_file inv_files_put_cube inv_files_emit : frame.

(** Breaks a computation into its steps and closes the ones that cannot
    touch the component at hand. *)
Ltac frame_step :=
match goal with
| |- inv _ _ (bind _ _) => apply inv_bind; [|intros ?]
| |- inv _ _ (except_BeamError _ _) => apply inv_except
| |- inv _ _ (mapM _ _) => apply inv_mapM; intros ?
| |- inv _ _ (forM_ _ _) => apply inv_forM_; intros ?
| |- inv _ _ (foldM _ _ _) => apply inv_foldM; intros ? ?
| |- inv _ _ (warn _) => unfold warn
| |- inv _ _ (if ?b then _ else _) => destruct b
| |- inv _ _ (match ?x with _ => _ end) => destruct x
| |- inv _ _ (let '(_, _) := ?p in _) => destruct p
| |- inv _ _ _ => solve [auto with frame]
end.

Ltac frame := repeat frame_step.

Lemma inv_dd_call_common_beam P bs t n e : inv datadict P (call_common_beam bs t n e).
Proof. unfold call_common_beam. frame. Qed.

Lemma inv_dd_call_deconvolve P a b : inv datadict P (call_deconvolve a b).
Proof. unfold call_deconvolve. frame. Qed.

Lemma inv_dd_call_convolve P a b : inv datadict P (call_convolve a b).
Proof. unfold call_convolve. frame. Qed.

#[local] Hint Resolve inv_dd_call_common_beam inv_dd_call_deconvolve
  inv_dd_call_convolve : frame.

Lemma inv_dd_find_common_beam P args bs : inv datadict P (find_common_beam args bs).
Proof. unfold find_common_beam. frame. Qed.

Lemma inv_dd_last_grid P : inv datadict P last_grid.
Proof. unfold last_grid. frame. Qed.

Lemma inv_dd_nyquist_samps P c bs g : inv datadict P (nyquist_samps c bs g).
Proof. unfold nyquist_samps. frame. Qed.

Lemma inv_dd_nyquist_beam P c g : inv datadict P (nyquist_beam c g).
Proof. unfold nyquist_beam. frame. Qed.

#[local] Hint Resolve inv_dd_find_common_beam inv_dd_last_grid
  inv_dd_nyquist_samps inv_dd_nyquist_beam : frame.

Lemma inv_dd_natural_commonbeam P args conv_mode bs :
  inv datadict P (natural_commonbeam args conv_mode bs).
Proof. unfold natural_commonbeam. frame. Qed.

Lemma inv_dd_total_nyquist P conv_mode t c bb :
  inv datadict P (total_nyquist conv_mode t c bb).
Proof. unfold total_nyquist. frame. Qed.

Lemma inv_dd_convolving_beam P p : inv datadict P (convolving_beam p).
Proof. unfold convolving_beam. frame. Qed.

#[local] Hint Resolve inv_dd_natural_commonbeam inv_dd_total_nyquist
  inv_dd_convolving_beam : frame.

Lemma inv_dd_natural_commonbeams P nchans args conv_mode :
  inv datadict P (natural_commonbeams nchans args conv_mode).
Proof. unfold natural_commonbeams. frame. Qed.

(** What a computation that keeps the data dictionary returns it with. *)
Lemma inv_dd_same {A} (m : M A) w :
  (forall P, inv datadict P m) -> datadict (snd (m w)) = datadict w.
Proof. intros H. apply (H (fun d => d = datadict w)). reflexivity. Qed.

(** ** The search and its single retry (claim C4) *)

Lemma call_common_beam_run bs t n e w :
  call_common_beam bs t n e w =
  (common_beam bs t n e, with_trace w [ev_common_beam bs t n e]).
Proof. reflexivity. Qed.

Lemma with_trace_app w l1 l2 : with_trace (with_trace w l1) l2 = with_trace w (l1 ++ l2).
Proof. unfold with_trace. simpl. now rewrite app_assoc. Qed.

Lemma find_common_beam_run args bs w :
  let sub := beams_notnan bs in
  let tol := arg_tolerance args in
  let call t := ev_common_beam sub t (arg_nsamps args) (arg_epsilon args) in
  let first := common_beam sub tol (arg_nsamps args) (arg_epsilon args) in
  let second := common_beam sub (tol * (1 # 10))%Q (arg_nsamps args) (arg_epsilon args) in
  find_common_beam args bs w =
  match first with
  | Raise BeamError => (second, with_trace w [call tol; call (tol * (1 # 10))%Q])
  | r => (r, with_trace w [call tol])
  end.
Proof.
intros sub tol call first second.
unfold find_common_beam, except_BeamError. rewrite call_common_beam_run.
fold sub tol first.
destruct first as [b|[]]; try reflexivity.
rewrite call_common_beam_run, with_trace_app. reflexivity.
Qed.

Lemma mapM_raise_at {A B} (g : A -> M B) (pre post : list A) (x : A) w ys w1 e w2 :
  mapM g pre w = (Ok ys, w1) -> g x w1 = (Raise e, w2) ->
  mapM g (pre ++ x :: post) w = (Raise e, w2).
Proof.
intros Hpre Hx. rewrite mapM_app.
rewrite (bind_ok _ _ _ _ _ Hpre). simpl.
rewrite (bind_raise _ _ _ _ _ (bind_raise _ _ _ _ _ Hx)). reflexivity.
Qed.

Lemma commonbeamer_natural nchans args conv_mode target verbose :
  commonbeamer nchans args conv_mode "natural" target verbose =
  (commonbeams <- (b <- natural_commonbeams nchans args conv_mode ;; ret (Some b)) ;;
   (if verbose && is_None commonbeams
    then raise (UnboundLocalError "commonbeams") else ret tt) ;;;
   dd <- get_datadict ;;
   foldM (convolution_data "natural" nchans commonbeams) None (keys dd) ;;;
   ret tt).
Proof. reflexivity. Qed.

Lemma commonbeamer_total nchans args conv_mode target verbose :
  commonbeamer nchans args conv_mode "total" target verbose =
  (commonbeams <- (b <- total_commonbeams nchans args conv_mode target ;; ret (Some b)) ;;
   (if verbose && is_None commonbeams
    then raise (UnboundLocalError "commonbeams") else ret tt) ;;;
   dd <- get_datadict ;;
   foldM (convolution_data "total" nchans commonbeams) None (keys dd) ;;;
   ret tt).
Proof. reflexivity. Qed.

(** C4.  The search for the common beam of a beam set is first run at the
    configured tolerance.  If it raises [BeamError], it is run exactly once
    more, with the tolerance multiplied by 0.1 and the same [nsamps] and
    [epsilon], and whatever that second run gives, a beam or an exception,
    is the outcome; any other outcome of the first run is final, with no
    second run.  A second failure is caught nowhere: the channel's
    computation in natural mode, [commonbeamer] in natural mode and
    [commonbeamer] in total mode all end with that exception. *)
Theorem common_beam_search_retried_once (args : Args) (bs : Beams) (w : world) :
  let sub := beams_notnan bs in
  let tol := arg_tolerance args in
  let call t := ev_common_beam sub t (arg_nsamps args) (arg_epsilon args) in
  let first := common_beam sub tol (arg_nsamps args) (arg_epsilon args) in
  let second := common_beam sub (tol * (1 # 10))%Q (arg_nsamps args) (arg_epsilon args) in
  (first = Raise BeamError ->
   find_common_beam args bs w =
   (second, with_trace w [call tol; call (tol * (1 # 10))%Q])) /\
  (first <> Raise BeamError ->
   find_common_beam args bs w = (first, with_trace w [call tol])) /\
  (forall e, first = Raise BeamError -> second = Raise e ->
     (forall conv_mode, forallb id (beams_isnan bs) = false ->
        fst (natural_commonbeam args conv_mode bs w) = Raise e) /\
     (forall nchans conv_mode target verbose w0 pre post done,
        mapR (channel_beams (datadict w0)) (seq 0 nchans) = Ok (pre ++ bs :: post) ->
        mapM (natural_commonbeam args conv_mode) pre w0 = (Ok done, w) ->
        forallb id (beams_isnan bs) = false ->
        fst (commonbeamer nchans args conv_mode "natural" target verbose w0) = Raise e) /\
     (forall nchans conv_mode target verbose w0,
        total_big_beams w0 = (Ok bs, w) ->
        fst (commonbeamer nchans args conv_mode "total" target verbose w0) = Raise e)).
Proof.
intros sub tol call first second.
pose proof (find_common_beam_run args bs w) as Hrun. cbv zeta in Hrun.
fold sub tol first second in Hrun.
assert (Hnat : forall e conv_mode, first = Raise BeamError -> second = Raise e ->
          forallb id (beams_isnan bs) = false ->
          natural_commonbeam args conv_mode bs w =
          (Raise e, with_trace w [call tol; call (tol * (1 # 10))%Q])).
{ intros e conv_mode H1 H2 Hn. unfold natural_commonbeam. rewrite Hn.
  apply bind_raise. rewrite Hrun, H1, H2. reflexivity. }
split; [|split].
- intros H1. rewrite Hrun, H1. reflexivity.
- intros H1. rewrite Hrun. destruct first as [b|[]]; try reflexivity.
  now elim H1.
- intros e H1 H2. split; [|split].
  + intros conv_mode Hn. now rewrite (Hnat e conv_mode H1 H2 Hn).
  + intros nchans conv_mode target verbose w0 pre post done Hbig Hpre Hn.
    rewrite commonbeamer_natural.
    erewrite bind_raise; [reflexivity|].
    apply bind_raise. unfold natural_commonbeams.
    erewrite bind_ok by reflexivity.
    erewrite bind_ok by (unfold lift; rewrite Hbig; reflexivity).
    apply bind_raise.
    eapply mapM_raise_at; [exact Hpre|]. now apply Hnat.
  + intros nchans conv_mode target verbose w0 Hbig.
    rewrite commonbeamer_total.
    erewrite bind_raise; [reflexivity|].
    apply bind_raise. unfold total_commonbeams.
    rewrite (bind_ok _ _ _ _ _ Hbig).
    apply bind_raise. rewrite Hrun, H1, H2. reflexivity.
Qed.

(** ** What the planner leaves of the stored beams *)

Lemma beams_kept_refl c : beams_kept c c.
Proof. now split. Qed.

Lemma unmasked_kept_refl c : unmasked_kept c c.
Proof. now split. Qed.

Lemma unmasked_kept_trans c0 c1 c2 :
  unmasked_kept c0 c1 -> unmasked_kept c1 c2 -> unmasked_kept c0 c2.
Proof.
intros [M1 H1] [M2 H2]. split; [congruence|].
intros n Hn. rewrite H2 by congruence. now apply H1.
Qed.

Lemma Forall2_refl_of {A} (R : A -> A -> Prop) (l : list A) :
  (forall x, R x x) -> Forall2 R l l.
Proof. intros HR. induction l; constructor; auto. Qed.

Lemma Forall2_list_update {A} (R : A -> A -> Prop) (l0 l : list A) k x0 y :
  Forall2 R l0 l -> nth_error l0 k = Some x0 -> R x0 y ->
  Forall2 R l0 (list_update l k y).
Proof.
intros H. revert k. induction H as [|a b l0 l Hab H IH]; intros k Hk Hy.
- constructor.
- destruct k as [|k]; simpl in *.
  + injection Hk as ->. now constructor.
  + constructor; [exact Hab|]. now apply IH.
Qed.

Lemma Forall2_nth_error_r {A} (R : A -> A -> Prop) (l0 l : list A) k y :
  Forall2 R l0 l -> nth_error l k = Some y ->
  exists x0, nth_error l0 k = Some x0 /\ R x0 y.
Proof.
intros H. revert k. induction H as [|a b l0 l Hab H IH]; intros k Hk.
- destruct k; discriminate.
- destruct k as [|k]; simpl in *.
  + injection Hk as ->. now exists a.
  + now apply IH.
Qed.

(** Reading a cube under an invariant that relates every cube to its
    initial state: what is read is related to the initial cube. *)
Lemma inv_rel_get_cube {B} (R : cube -> cube -> Prop) dd0 key (k : cube -> M B) :
  (forall c c0, nth_error dd0 key = Some c0 -> R c0 c ->
                inv datadict (Forall2 R dd0) (k c)) ->
  inv datadict (Forall2 R dd0) (bind (get_cube key) k).
Proof.
intros Hk w H. unfold bind, get_cube.
destruct (nth_error (datadict w) key) as [c|] eqn:E; [|exact H].
destruct (Forall2_nth_error_r _ _ _ _ _ H E) as [c0 [E0 Hc]].
now apply (Hk c c0 E0 Hc).
Qed.

Lemma inv_rel_put_cube (R : cube -> cube -> Prop) dd0 key c0 c' :
  nth_error dd0 key = Some c0 -> R c0 c' ->
  inv datadict (Forall2 R dd0) (put_cube key c').
Proof.
intros E Hc w H. simpl. now apply (Forall2_list_update R dd0 _ key c0).
Qed.

(** The four keys the last loop sets leave ['beams'] and ['mask'] alone. *)
Lemma planned_cube_beams c f cb mb l :
  beams (set_commonbeamlog (set_commonbeams (set_convbeams (set_facs c f) cb) mb) l)
  = beams c /\
  mask (set_commonbeamlog (set_commonbeams (set_convbeams (set_facs c f) cb) mb) l)
  = mask c.
Proof. now split. Qed.

Lemma inv_rel_convolution_data (R : cube -> cube -> Prop) dd0 mode nchans cbs v key :
  (forall c0 c c', R c0 c -> beams c' = beams c -> mask c' = mask c -> R c0 c') ->
  inv datadict (Forall2 R dd0) (convolution_data mode nchans cbs v key).
Proof.
intros HR. unfold convolution_data.
apply inv_rel_get_cube. intros c c0 E0 Hc.
destruct cbs as [cbs|]; [|frame].
apply inv_bind; [frame|]. intros convs.
destruct (match last_opt convs with Some b => Some b | None => v end); [|frame].
apply inv_bind.
- eapply inv_rel_put_cube; [exact E0|].
  eapply HR; [exact Hc| |]; reflexivity.
- intros _. frame.
Qed.

Lemma zip_nan_unmasked vs mask n :
  nth_error mask n = Some false ->
  List.length mask = List.length vs ->
  nth_error (zip_nan vs mask) n = nth_error vs n.
Proof.
unfold zip_nan. revert mask n. induction vs as [|v vs IH]; intros mask n Hn Hl.
- destruct mask; [|discriminate]. destruct n; discriminate.
- destruct mask as [|m mask]; [discriminate|]. simpl in Hl.
  destruct n as [|n]; simpl in *.
  + injection Hn as ->. reflexivity.
  + apply IH; [exact Hn | lia].
Qed.

Lemma nan_where_unmasked mask a a' n :
  nan_where mask a = Ok a' -> nth_error mask n = Some false ->
  nth_error (values a') n = nth_error (values a) n /\ aunit a' = aunit a.
Proof.
unfold nan_where. destruct (Nat.eqb_spec (List.length mask) (List.length (values a))) as [E|];
  [|discriminate].
intros H Hn. injection H as <-. simpl. split; [|reflexivity].
now apply zip_nan_unmasked.
Qed.

Lemma unmasked_kept_nan_where c0 c a' (get : Beams -> QArray)
  (put : Beams -> QArray -> Beams) :
  (forall b x, majors (put b x) = majors b \/ majors (put b x) = x /\ get b = majors b) ->
  (forall b x, minors (put b x) = minors b \/ minors (put b x) = x /\ get b = minors b) ->
  (forall b x, pas (put b x) = pas b \/ pas (put b x) = x /\ get b = pas b) ->
  unmasked_kept c0 c ->
  nan_where (mask c) (get (beams c)) = Ok a' ->
  unmasked_kept c0 (set_beams c (put (beams c) a')).
Proof.
intros Hmaj Hmin Hpa Hc E.
apply (unmasked_kept_trans _ c); [exact Hc|]. split; [reflexivity|].
intros n Hn. destruct (nan_where_unmasked _ _ _ n E Hn) as [Hv Hu].
unfold beams_get. simpl.
destruct (Hmaj (beams c) a') as [->|[-> E1]];
destruct (Hmin (beams c) a') as [->|[-> E2]];
destruct (Hpa (beams c) a') as [->|[-> E3]];
rewrite ?E1, ?E2, ?E3 in *; rewrite ?Hv, ?Hu; reflexivity.
Qed.

Lemma inv_rel_total_gather dd0 key :
  inv datadict (Forall2 unmasked_kept dd0) (total_gather key).
Proof.
unfold total_gather.
apply inv_rel_get_cube. intros c c0 E0 Hc.
apply inv_bind_lift. intros major' E1. cbv zeta.
assert (H1 : unmasked_kept c0
               (set_beams c (mkBeams major' (minors (beams c)) (pas (beams c))))).
{ apply (unmasked_kept_nan_where c0 c major' majors
           (fun b x => mkBeams x (minors b) (pas b))); auto. }
set (c1 := set_beams c (mkBeams major' (minors (beams c)) (pas (beams c)))) in *.
apply inv_bind; [now apply (inv_rel_put_cube _ _ _ c0)|]. intros _.
apply inv_bind_lift. intros minor' E2.
assert (H2 : unmasked_kept c0
               (set_beams c1 (mkBeams (majors (beams c1)) minor' (pas (beams c1))))).
{ apply (unmasked_kept_nan_where c0 c1 minor' minors
           (fun b x => mkBeams (majors b) x (pas b))); auto. }
set (c2 := set_beams c1 (mkBeams (majors (beams c1)) minor' (pas (beams c1)))) in *.
apply inv_bind; [now apply (inv_rel_put_cube _ _ _ c0)|]. intros _.
apply inv_bind_lift. intros pa' E3.
assert (H3 : unmasked_kept c0
               (set_beams c2 (mkBeams (majors (beams c2)) (minors (beams c2)) pa'))).
{ apply (unmasked_kept_nan_where c0 c2 pa' pas
           (fun b x => mkBeams (majors b) (minors b) x)); auto. }
apply inv_bind; [now apply (inv_rel_put_cube _ _ _ c0)|]. intros _.
apply inv_ret.
Qed.

Lemma inv_rel_total_commonbeams dd0 nchans args conv_mode target :
  inv datadict (Forall2 unmasked_kept dd0)
      (total_commonbeams nchans args conv_mode target).
Proof.
unfold total_commonbeams, total_big_beams.
apply inv_bind.
- apply inv_bind; [frame|]. intros dd.
  apply inv_bind; [apply inv_mapM; intros key; apply inv_rel_total_gather|].
  intros gathered. frame.
- intros bb. frame.
Qed.

(** In natural mode [commonbeamer] leaves the stored beams and masks of
    every cube exactly as they were, whatever its outcome.  In total
    mode it leaves every mask as it was and, for every cube and every
    channel that is not masked, the stored major axis, minor axis and
    position angle (values and units) as they were, on cubes of any
    shape. *)
Theorem commonbeamer_keeps_unmasked_beams
  (nchans : nat) (args : Args) (conv_mode : string) (target : option Beam)
  (verbose : bool) (w : world) :
  Forall2 beams_kept (datadict w)
    (datadict (snd (commonbeamer nchans args conv_mode "natural" target verbose w))) /\
  Forall2 unmasked_kept (datadict w)
    (datadict (snd (commonbeamer nchans args conv_mode "total" target verbose w))).
Proof.
split.
- rewrite commonbeamer_natural.
  assert (H : inv datadict (Forall2 beams_kept (datadict w))
                (commonbeams <- (b <- natural_commonbeams nchans args conv_mode ;;
                                 ret (Some b)) ;;
                 (if verbose && is_None commonbeams
                  then raise (UnboundLocalError "commonbeams") else ret tt) ;;;
                 dd <- get_datadict ;;
                 foldM (convolution_data "natural" nchans commonbeams) None (keys dd) ;;;
                 ret tt)).
  { apply inv_bind; [apply inv_bind; [apply inv_dd_natural_commonbeams | intros; frame]|].
    intros cbs. apply inv_bind; [frame|]. intros _.
    apply inv_bind; [frame|]. intros dd.
    apply inv_bind; [|intros; frame].
    apply inv_foldM. intros v key. apply inv_rel_convolution_data.
    intros c0 c c' [Hb Hm] Hb' Hm'. split; congruence. }
  apply H. apply Forall2_refl_of, beams_kept_refl.
- rewrite commonbeamer_total.
  assert (H : inv datadict (Forall2 unmasked_kept (datadict w))
                (commonbeams <- (b <- total_commonbeams nchans args conv_mode target ;;
                                 ret (Some b)) ;;
                 (if verbose && is_None commonbeams
                  then raise (UnboundLocalError "commonbeams") else ret tt) ;;;
                 dd <- get_datadict ;;
                 foldM (convolution_data "total" nchans commonbeams) None (keys dd) ;;;
                 ret tt)).
  { apply inv_bind; [apply inv_bind; [apply inv_rel_total_commonbeams | intros; frame]|].
    intros cbs. apply inv_bind; [frame|]. intros _.
    apply inv_bind; [frame|]. intros dd.
    apply inv_bind; [|intros; frame].
    apply inv_foldM. intros v key. apply inv_rel_convolution_data.
    intros c0 c c' [Hm H] Hb' Hm'. split; [congruence|].
    intros n Hn. rewrite Hb'. now apply H. }
  apply H. apply Forall2_refl_of, unmasked_kept_refl.
Qed.

(** ** The stored beams in total mode (claim C10) *)

Lemma list_update_twice {A} (l : list A) k x y :
  list_update (list_update l k x) k y = list_update l k y.
Proof.
revert k. induction l as [|a l IH]; intros [|k]; simpl; try reflexivity.
now rewrite IH.
Qed.

Lemma total_gather_run key c w :
  nth_error (datadict w) key = Some c ->
  well_shaped (List.length (mask c)) c ->
  total_gather key w =
  (Ok (blanked_beams c),
   put_dd w (list_update (datadict w) key (set_beams c (blanked_beams c)))).
Proof.
intros E (H1 & H2 & H3). unfold total_gather, bind at 1, get_cube. rewrite E.
unfold bind, lift, nan_where, put_cube.
cbn [beams set_beams mask majors minors pas datadict files trace values aunit].
rewrite H1, H2, H3, !Nat.eqb_refl.
cbn [beams set_beams mask majors minors pas datadict files trace values aunit].
unfold ret, put_dd. rewrite !list_update_twice. reflexivity.
Qed.

(** A loop over the keys whose body rewrites the cube it visits and
    returns something of it. *)
Lemma mapM_keys_map {B} (body : nat -> M B) (f : cube -> B) (g : cube -> cube)
  (Pc : cube -> Prop) :
  (forall key c w, nth_error (datadict w) key = Some c -> Pc c ->
     body key w = (Ok (f c), put_dd w (list_update (datadict w) key (g c)))) ->
  forall post pre w, Forall Pc post -> datadict w = pre ++ post ->
    mapM body (seq (List.length pre) (List.length post)) w =
    (Ok (map f post), put_dd w (pre ++ map g post)).
Proof.
intros Hbody. induction post as [|c post IH]; intros pre w HP Hw.
- simpl. unfold ret, put_dd. rewrite app_nil_r in *. rewrite <- Hw.
  now destruct w.
- inversion HP as [|? ? Hc HP']; subst. cbn [List.length seq mapM].
  erewrite bind_ok.
  2:{ apply Hbody; [|exact Hc]. rewrite Hw. apply nth_error_middle. }
  rewrite Hw, list_update_app.
  replace (S (List.length pre)) with (List.length (pre ++ [g c]))
    by (rewrite length_app; simpl; lia).
  erewrite bind_ok.
  2:{ apply (IH (pre ++ [g c])); [exact HP'|]. simpl. now rewrite <- app_assoc. }
  unfold ret, put_dd. simpl. now rewrite <- app_assoc.
Qed.

Lemma total_gather_all nchans w :
  Forall (fun c => well_shaped nchans c /\ List.length (mask c) = nchans) (datadict w) ->
  mapM total_gather (keys (datadict w)) w =
  (Ok (map blanked_beams (datadict w)),
   put_dd w (map (fun c => set_beams c (blanked_beams c)) (datadict w))).
Proof.
intros H.
apply (mapM_keys_map total_gather blanked_beams (fun c => set_beams c (blanked_beams c))
         (fun c => well_shaped nchans c /\ List.length (mask c) = nchans)
         (fun key c w0 E Hc => total_gather_run key c w0 E
            (eq_ind_r (fun n => well_shaped n c) (proj1 Hc) (proj2 Hc)))
         (datadict w) [] w H eq_refl).
Qed.

(** What a computation ends in, when what follows it keeps the property. *)
Lemma ends_then {A B} (P : list cube -> Prop) (m : M A) (k : A -> M B) w :
  P (datadict (snd (m w))) -> (forall a, inv datadict P (k a)) ->
  P (datadict (snd (bind m k w))).
Proof.
intros Hm Hk. unfold bind. destruct (m w) as [[a|e] w'] eqn:E; simpl in Hm.
- now apply Hk.
- exact Hm.
Qed.

Lemma zip_nan_masked vs mask n v :
  nth_error mask n = Some true -> nth_error vs n = Some v ->
  nth_error (zip_nan vs mask) n = Some NaN.
Proof.
unfold zip_nan. revert mask n. induction vs as [|x vs IH]; intros mask n Hm Hv.
- destruct n; discriminate.
- destruct mask as [|b mask]; [destruct n; discriminate|].
  destruct n as [|n]; simpl in *.
  + injection Hm as ->. simpl. now destruct x.
  + now apply IH.
Qed.

Lemma Forall2_beams_kept_map dd0 dd :
  Forall2 beams_kept dd0 dd -> map beams dd = map beams dd0 /\ map mask dd = map mask dd0.
Proof.
induction 1 as [|c0 c l0 l [Hb Hm] _ [IHb IHm]]; [now split|].
simpl. now rewrite Hb, Hm, IHb, IHm.
Qed.

(** C10, where the code departs from it.  Natural mode leaves the stored
    beams of every cube as they were: it makes the masked entries [NaN]
    on new scalars.  Total mode does not: on cubes whose mask and beam
    arrays have one entry per channel, once [commonbeamer] has run in
    total mode, whether it returned or raised and whatever the library
    did, the beams stored for every cube are the stored beams with the
    masked channels overwritten: major axis, minor axis and position
    angle of a masked channel are [NaN], with the units they had; those
    of the other channels are as they were.  The masks are as they
    were in both modes. *)
Theorem total_mode_overwrites_stored_beams
  (nchans : nat) (args : Args) (conv_mode : string) (target : option Beam)
  (verbose : bool) (w : world) :
  Forall (fun c => well_shaped nchans c /\ List.length (mask c) = nchans) (datadict w) ->
  let natural := snd (commonbeamer nchans args conv_mode "natural" target verbose w) in
  let total := snd (commonbeamer nchans args conv_mode "total" target verbose w) in
  map beams (datadict natural) = map beams (datadict w) /\
  map mask (datadict natural) = map mask (datadict w) /\
  map beams (datadict total) = map blanked_beams (datadict w) /\
  map mask (datadict total) = map mask (datadict w) /\
  (forall c n b, In c (datadict w) -> beams_get (beams c) n = Some b ->
     (nth_error (mask c) n = Some true ->
      beams_get (blanked_beams c) n =
      Some (mkBeam (mkQuantity NaN (unit_of (major b)))
                   (mkQuantity NaN (unit_of (minor b)))
                   (mkQuantity NaN (unit_of (pa b))))) /\
     (nth_error (mask c) n = Some false ->
      beams_get (blanked_beams c) n = Some b)).
Proof.
intros H natural total.
assert (Hnat : Forall2 beams_kept (datadict w) (datadict natural)).
{ unfold natural. rewrite commonbeamer_natural.
  assert (Hi : inv datadict (Forall2 beams_kept (datadict w))
                (commonbeams <- (b <- natural_commonbeams nchans args conv_mode ;;
                                 ret (Some b)) ;;
                 (if verbose && is_None commonbeams
                  then raise (UnboundLocalError "commonbeams") else ret tt) ;;;
                 dd <- get_datadict ;;
                 foldM (convolution_data "natural" nchans commonbeams) None (keys dd) ;;;
                 ret tt)).
  { apply inv_bind; [apply inv_bind; [apply inv_dd_natural_commonbeams | intros; frame]|].
    intros cbs. apply inv_bind; [frame|]. intros _.
    apply inv_bind; [frame|]. intros dd.
    apply inv_bind; [|intros; frame].
    apply inv_foldM. intros v key. apply inv_rel_convolution_data.
    intros c0 c c' [Hb Hm] Hb' Hm'. split; congruence. }
  apply Hi. apply Forall2_refl_of, beams_kept_refl. }
set (dd1 := map (fun c => set_beams c (blanked_beams c)) (datadict w)).
assert (Htot : Forall2 beams_kept dd1 (datadict total)).
{ unfold total. rewrite commonbeamer_total.
  apply ends_then.
  - apply ends_then; [|intros; frame].
    unfold total_commonbeams. apply ends_then; [|intros; frame].
    unfold total_big_beams, bind at 1, get_datadict.
    apply ends_then; [|intros gathered; frame].
    rewrite (total_gather_all nchans w H). cbn [snd datadict put_dd].
    apply Forall2_refl_of, beams_kept_refl.
  - intros cbs. apply inv_bind; [frame|]. intros _.
    apply inv_bind; [frame|]. intros dd.
    apply inv_bind; [|intros; frame].
    apply inv_foldM. intros v key. apply inv_rel_convolution_data.
    intros c0 c c' [Hb Hm] Hb' Hm'. split; congruence. }
apply Forall2_beams_kept_map in Hnat as [Hnb Hnm].
apply Forall2_beams_kept_map in Htot as [Htb Htm].
split; [exact Hnb|]. split; [exact Hnm|].
split; [rewrite Htb; unfold dd1; rewrite map_map; reflexivity|].
split; [rewrite Htm; unfold dd1; rewrite map_map; reflexivity|].
intros c n b Hc Hb. unfold beams_get in Hb.
destruct (nth_error (values (majors (beams c))) n) as [x|] eqn:Ex; [|discriminate].
destruct (nth_error (values (minors (beams c))) n) as [y|] eqn:Ey; [|discriminate].
destruct (nth_error (values (pas (beams c))) n) as [z|] eqn:Ez; [|discriminate].
injection Hb as <-. rewrite Forall_forall in H. destruct (H c Hc) as [(H1 & H2 & H3) Hm].
split; intros Hn; unfold beams_get, blanked_beams;
  cbn [majors minors pas values aunit major minor pa unit_of].
- now rewrite (zip_nan_masked _ _ _ _ Hn Ex), (zip_nan_masked _ _ _ _ Hn Ey),
    (zip_nan_masked _ _ _ _ Hn Ez).
- rewrite !zip_nan_unmasked by congruence. now rewrite Ex, Ey, Ez.
Qed.

(** ** The target beam of total mode (claim C2) *)

Lemma nth_error_list_update {A} (l : list A) k y n :
  nth_error (list_update l k y) n =
  if Nat.eqb n k then match nth_error l n with Some _ => Some y | None => None end
  else nth_error l n.
Proof.
revert k n. induction l as [|x l IH]; intros k n.
- simpl. destruct (Nat.eqb n k); destruct n; reflexivity.
- destruct k as [|k], n as [|n]; simpl; try reflexivity. apply IH.
Qed.

Lemma inv_planned_put_cube cbs k key c' :
  commonbeams c' = Some cbs -> inv datadict (planned_with cbs k) (put_cube key c').
Proof.
intros Hc w [c [E Hp]]. simpl. unfold planned_with.
rewrite nth_error_list_update. destruct (Nat.eqb_spec k key) as [->|Hne].
- rewrite E. now exists c'.
- now exists c.
Qed.

Lemma inv_planned_convolution_data cbs k mode nchans v key :
  inv datadict (planned_with cbs k) (convolution_data mode nchans (Some cbs) v key).
Proof.
unfold convolution_data.
apply inv_bind; [frame|]. intros c.
apply inv_bind; [frame|]. intros convs.
destruct (match last_opt convs with Some b => Some b | None => v end); [|frame].
apply inv_bind; [now apply inv_planned_put_cube | intros _; frame].
Qed.

Lemma get_cube_ok_inv key w c w' :
  get_cube key w = (Ok c, w') -> w' = w /\ nth_error (datadict w) key = Some c.
Proof.
unfold get_cube. destruct (nth_error (datadict w) key) as [c1|]; intros H;
  [|discriminate]. injection H as -> ->. now split.
Qed.

Lemma lift_ok_inv {A} (r : result A) w a w' :
  lift r w = (Ok a, w') -> w' = w /\ r = Ok a.
Proof. unfold lift. intros H. injection H as -> ->. now split. Qed.

Lemma mapM_convolving_beam_dd l w :
  datadict (snd (mapM convolving_beam l w)) = datadict w.
Proof. apply inv_dd_same. intros P. frame. Qed.

Lemma convolution_data_plans mode nchans cbs v key w v' w' :
  convolution_data mode nchans (Some cbs) v key w = (Ok v', w') ->
  planned_with cbs key (datadict w').
Proof.
unfold convolution_data. intros H.
apply bind_ok_inv in H as (c & w1 & Hget & H).
apply get_cube_ok_inv in Hget as [-> E].
apply bind_ok_inv in H as (convs & w2 & Hmap & H).
pose proof (mapM_convolving_beam_dd
              (combine (combine (beams_iter cbs) (beams_iter (beams c))) (mask c)) w) as Hdd.
rewrite Hmap in Hdd. simpl in Hdd.
destruct (match last_opt convs with Some b => Some b | None => v end) as [cv|];
  [|discriminate].
apply bind_ok_inv in H as ([] & w3 & Hput & H).
unfold put_cube in Hput. injection Hput as <-.
apply bind_ok_inv in H as (tab & w4 & Htab & H).
apply lift_ok_inv in Htab as [-> _].
apply bind_ok_inv in H as ([] & w5 & Hw & H).
unfold write_file in Hw. injection Hw as <-.
unfold ret in H. injection H as _ <-. simpl.
unfold planned_with. rewrite nth_error_list_update, Nat.eqb_refl, Hdd, E.
eexists. split; reflexivity.
Qed.

Lemma foldM_convolution_data_plans mode nchans cbs l v w v' w' :
  foldM (convolution_data mode nchans (Some cbs)) v l w = (Ok v', w') ->
  forall k, In k l -> planned_with cbs k (datadict w').
Proof.
revert v w. induction l as [|x l IH]; intros v w H k Hk; [destruct Hk|].
simpl in H. apply bind_ok_inv in H as (v1 & w1 & Hx & H).
destruct Hk as [->|Hk].
- pose proof (inv_foldM datadict (planned_with cbs k)
                (convolution_data mode nchans (Some cbs)) l v1
                (fun s x => inv_planned_convolution_data cbs k mode nchans s x) w1) as Hinv.
  rewrite H in Hinv. apply Hinv. eapply convolution_data_plans; exact Hx.
- eapply IH; eauto.
Qed.

Lemma foldM_convolution_data_length mode nchans cbs l v w :
  List.length (datadict (snd (foldM (convolution_data mode nchans cbs) v l w))) =
  List.length (datadict w).
Proof.
pose proof (inv_foldM datadict (Forall2 (fun _ _ => True) (datadict w))
              (convolution_data mode nchans cbs) l v
              (fun s x => inv_rel_convolution_data (fun _ _ => True) (datadict w)
                            mode nchans cbs s x (fun _ _ _ _ _ _ => I)) w) as H.
symmetry. eapply Forall2_length. apply H. now apply Forall2_refl_of.
Qed.

Lemma total_nyquist_target conv_mode t bb w b w' :
  total_nyquist conv_mode (Some t) t bb w = (Ok b, w') -> b = t.
Proof.
unfold total_nyquist. destruct (negb (String.eqb conv_mode "robust")).
- intros H. apply bind_ok_inv in H as (grid & w1 & _ & H).
  apply bind_ok_inv in H as (samps & w2 & _ & H).
  destruct (undersampled samps).
  + apply bind_ok_inv in H as (nyq & w3 & _ & H).
    destruct (beam_lt t nyq).
    * apply bind_ok_inv in H as (u & w4 & _ & H). discriminate.
    * unfold ret in H. now injection H as <-.
  + unfold ret in H. now injection H as <-.
- unfold ret. intros H. now injection H as <-.
Qed.

Lemma total_commonbeams_target nchans args conv_mode t w cbs w' :
  total_commonbeams nchans args conv_mode (Some t) w = (Ok cbs, w') ->
  cbs = beams_of_values (repeat t nchans) t.
Proof.
unfold total_commonbeams. intros H.
apply bind_ok_inv in H as (bb & w1 & _ & H).
apply bind_ok_inv in H as (b & w2 & _ & H).
apply bind_ok_inv in H as (b' & w3 & Hn & H).
apply total_nyquist_target in Hn as ->.
unfold ret in H. now injection H as <-.
Qed.

Lemma last_grid_run w :
  last_grid w = match last_opt (datadict w) with
                | Some c => (Ok (dy c), w)
                | None => (Raise (UnboundLocalError "key"), w)
                end.
Proof. unfold last_grid, bind, get_datadict. destruct (last_opt (datadict w)); reflexivity. Qed.

Lemma total_nyquist_fatal conv_mode t bb w c samps w1 :
  String.eqb conv_mode "robust" = false ->
  last_opt (datadict w) = Some c ->
  nyquist_samps t bb (dy c) w = (Ok samps, w1) ->
  undersampled samps = true ->
  beam_lt t (round_beam (convolve t (nyq_con_beam (dy c)))) = true ->
  total_nyquist conv_mode (Some t) t bb w =
  (Raise (Exception "CAN'T UNDERSAMPLE BEAM - EXITING"),
   with_trace w1 [ev_convolve t (nyq_con_beam (dy c));
                  ev_warn "TARGET BEAM WILL BE UNDERSAMPLED!"]).
Proof.
intros Hc Hl Hs Hu Hlt. unfold total_nyquist. rewrite Hc. cbn [negb].
erewrite bind_ok by (rewrite last_grid_run, Hl; reflexivity).
rewrite (bind_ok _ _ _ _ _ Hs). rewrite Hu.
unfold nyquist_beam, call_convolve.
erewrite bind_ok by reflexivity.
cbn [fst snd]. rewrite Hlt.
unfold bind, warn, emit, raise, with_trace. simpl.
now rewrite <- app_assoc.
Qed.

(** C2, as the code has it.  In total mode with a target beam:
    whenever [commonbeamer] returns, the common beams stored for every
    cube are the target beam itself, once per channel, never an
    enlarged beam; when the convolution mode is not ['robust'], some
    beam of the set gives the target a sample count below 2, and the
    target is smaller (in area) than the target convolved with the
    circular beam of twice the grid spacing and rounded up, the run ends
    with the exception "CAN'T UNDERSAMPLE BEAM - EXITING"; and with the
    ['robust'] convolution there is no check and no such end: once the
    beams are gathered and the search has returned, the target beam is
    the common beam as it is, with no deconvolution, no convolution and
    no warning, and [commonbeamer] is its last loop run with the target
    beam on every channel. *)
Theorem target_beam_kept_or_fatal
  (nchans : nat) (args : Args) (conv_mode : string) (t : Beam) (verbose : bool)
  (w : world) :
  (forall w',
     commonbeamer nchans args conv_mode "total" (Some t) verbose w = (Ok tt, w') ->
     forall c, In c (datadict w') ->
               commonbeams c = Some (beams_of_values (repeat t nchans) t)) /\
  (forall bb w1 b w2 c samps w3,
     String.eqb conv_mode "robust" = false ->
     total_big_beams w = (Ok bb, w1) ->
     find_common_beam args bb w1 = (Ok b, w2) ->
     last_opt (datadict w2) = Some c ->
     nyquist_samps t bb (dy c) w2 = (Ok samps, w3) ->
     undersampled samps = true ->
     beam_lt t (round_beam (convolve t (nyq_con_beam (dy c)))) = true ->
     fst (commonbeamer nchans args conv_mode "total" (Some t) verbose w) =
     Raise (Exception "CAN'T UNDERSAMPLE BEAM - EXITING")) /\
  (forall bb w1 b w2,
     total_big_beams w = (Ok bb, w1) ->
     find_common_beam args bb w1 = (Ok b, w2) ->
     total_nyquist "robust" (Some t) t bb w2 = (Ok t, w2) /\
     commonbeamer nchans args "robust" "total" (Some t) verbose w =
     (foldM (convolution_data "total" nchans
               (Some (beams_of_values (repeat t nchans) t)))
            None (keys (datadict w2)) ;;;
      ret tt) w2).
Proof.
split; [|split].
- intros w' H c Hc. rewrite commonbeamer_total in H.
  apply bind_ok_inv in H as (cbs & w1 & Hcbs & H).
  apply bind_ok_inv in Hcbs as (b & w1' & Hb & Hret).
  unfold ret in Hret. injection Hret as <- ->.
  apply total_commonbeams_target in Hb as ->.
  apply bind_ok_inv in H as ([] & w2 & Hv & H).
  assert (w2 = w1) as ->.
  { destruct (verbose && is_None _); [discriminate|].
    unfold ret in Hv. now injection Hv. }
  apply bind_ok_inv in H as (dd & w3 & Hdd & H).
  unfold get_datadict in Hdd. injection Hdd as <- <-.
  apply bind_ok_inv in H as (v & w4 & Hfold & H).
  unfold ret in H. injection H as <-.
  destruct (In_nth_error _ _ Hc) as [k Hk].
  assert (Hlen : (k < List.length (datadict w1))%nat).
  { pose proof (foldM_convolution_data_length "total" nchans
                  (Some (beams_of_values (repeat t nchans) t))
                  (keys (datadict w1)) None w1) as Hl.
    rewrite Hfold in Hl. simpl in Hl. rewrite <- Hl.
    apply nth_error_Some. congruence. }
  destruct (foldM_convolution_data_plans _ _ _ _ _ _ _ _ Hfold k) as [c1 [E1 Hp]].
  { unfold keys. apply in_seq. lia. }
  congruence.
- intros bb w1 b w2 c samps w3 Hc Hbig Hfind Hl Hs Hu Hlt.
  rewrite commonbeamer_total.
  erewrite bind_raise; [reflexivity|].
  apply bind_raise. unfold total_commonbeams.
  rewrite (bind_ok _ _ _ _ _ Hbig). rewrite (bind_ok _ _ _ _ _ Hfind).
  apply bind_raise. eapply total_nyquist_fatal; eauto.
- intros bb w1 b w2 Hbig Hfind. split; [reflexivity|].
  rewrite commonbeamer_total.
  assert (Hc : total_commonbeams nchans args "robust" (Some t) w =
               (Ok (beams_of_values (repeat t nchans) t), w2)).
  { unfold total_commonbeams.
    rewrite (bind_ok _ _ _ _ _ Hbig). rewrite (bind_ok _ _ _ _ _ Hfind).
    reflexivity. }
  erewrite bind_ok by (rewrite (bind_ok _ _ _ _ _ Hc); reflexivity).
  cbn [is_None andb]. rewrite andb_false_r.
  erewrite bind_ok by reflexivity.
  erewrite bind_ok by reflexivity.
  reflexivity.
Qed.

(** ** Beam sets with no number in them (claim C1) *)

Lemma select_none {A} (keep : list bool) (l : list A) :
  forallb negb keep = true -> select keep l = [].
Proof.
revert l. induction keep as [|k keep IH]; intros l H; [reflexivity|].
simpl in H. apply andb_true_iff in H as [Hk H].
destruct l as [|x l]; [reflexivity|]. simpl.
destruct k; [discriminate|]. now apply IH.
Qed.

Lemma forallb_negb_map_negb (l : list bool) :
  forallb id l = true -> forallb negb (map negb l) = true.
Proof.
induction l as [|b l IH]; [reflexivity|]. simpl.
intros H. apply andb_true_iff in H as [Hb H]. unfold id in Hb. subst b.
simpl. now apply IH.
Qed.

Lemma beams_notnan_all_nan (bs : Beams) :
  forallb id (beams_isnan bs) = true -> beams_notnan bs = no_beams bs.
Proof.
intros H. unfold beams_notnan, no_beams.
pose proof (forallb_negb_map_negb _ H) as Hk.
now rewrite !select_none by exact Hk.
Qed.

(** Natural mode has a guard for the all-[NaN] channel: the [NaN] beam, no
    search, no call, no exception. *)
Lemma natural_commonbeam_all_nan args conv_mode bs w :
  forallb id (beams_isnan bs) = true ->
  natural_commonbeam args conv_mode bs w = (Ok nan_beam, w).
Proof. intros H. unfold natural_commonbeam. now rewrite H. Qed.

(** C1, where the code departs from it.  Total mode has no such guard.
    When every entry of the gathered beam set is [NaN], [commonbeamer]
    still runs the search, on the sub-set of the beams that are numbers,
    which is empty, and the outcome is the library's.  If the search
    raises anything but [BeamError] on the empty set, [commonbeamer] ends
    with that exception, the search being its only library call; and
    total mode yields common beams only if the search returned a beam for
    the empty set, at the first or at the second try. *)
Theorem total_mode_all_nan_runs_search
  (nchans : nat) (args : Args) (conv_mode : string) (target : option Beam)
  (verbose : bool) (w : world) (bb : Beams) (w1 : world) :
  total_big_beams w = (Ok bb, w1) ->
  forallb id (beams_isnan bb) = true ->
  let call := ev_common_beam (no_beams bb) (arg_tolerance args)
                (arg_nsamps args) (arg_epsilon args) in
  let first := common_beam (no_beams bb) (arg_tolerance args)
                 (arg_nsamps args) (arg_epsilon args) in
  let second := common_beam (no_beams bb) (arg_tolerance args * (1 # 10))%Q
                  (arg_nsamps args) (arg_epsilon args) in
  (forall e, first = Raise e -> is_BeamError e = false ->
     commonbeamer nchans args conv_mode "total" target verbose w =
     (Raise e, with_trace w1 [call])) /\
  (forall cbs w2,
     total_commonbeams nchans args conv_mode target w = (Ok cbs, w2) ->
     exists b, first = Ok b \/ (first = Raise BeamError /\ second = Ok b)).
Proof.
intros Hbig Hnan call first second.
pose proof (find_common_beam_run args bb w1) as Hrun. cbv zeta in Hrun.
rewrite (beams_notnan_all_nan bb Hnan) in Hrun.
fold first second call in Hrun.
split.
- intros e He Hne.
  rewrite commonbeamer_total.
  apply bind_raise, bind_raise. unfold total_commonbeams.
  rewrite (bind_ok _ _ _ _ _ Hbig).
  apply bind_raise. rewrite Hrun, He.
  destruct e; try reflexivity. discriminate.
- intros cbs w2 H. unfold total_commonbeams in H.
  rewrite (bind_ok _ _ _ _ _ Hbig) in H.
  apply bind_ok_inv in H as (b & w3 & Hfind & _).
  rewrite Hrun in Hfind.
  destruct first as [b1|e1].
  + exists b1. now left.
  + destruct e1; try discriminate.
    destruct second as [b2|e2]; [|discriminate].
    exists b2. right. now split.
Qed.

(** ** Writing the log and reading it back (claim C6) *)

(** [readlogs] calls nothing of the library and warns of nothing. *)
Lemma readlogs_trace mode verbose w :
  trace (snd (readlogs mode verbose w)) = trace w.
Proof.
assert (H : inv trace (fun t => t = trace w) (readlogs mode verbose)).
{ unfold readlogs, readlog. frame. }
now apply H.
Qed.

(** The numbers a cube's log holds are the ones [readlog] stores, column
    by column; the units are not read from the file. *)
Lemma readlog_columns mode key w c tab :
  nth_error (datadict w) key = Some c ->
  lookup_file (commonbeam_log_name c mode) (files w) = Some tab ->
  exists c',
    nth_error (datadict (snd (readlog mode key w))) key = Some c' /\
    commonbeams c' =
      Some (mkBeams (mkQArray (Target_BMAJ tab) arcsec)
                    (mkQArray (Target_BMIN tab) arcsec)
                    (mkQArray (Target_BPA tab) deg)) /\
    convbeams c' =
      Some (mkBeams (mkQArray (Convolving_BMAJ tab) arcsec)
                    (mkQArray (Convolving_BMIN tab) arcsec)
                    (mkQArray (Convolving_BPA tab) deg)) /\
    facs c' = Some (Convolving_factor tab).
Proof.
intros E F. unfold readlog, bind, get_cube, read_file. rewrite E, F. simpl.
rewrite nth_error_list_update, Nat.eqb_refl, E.
eexists. split; [reflexivity|]. repeat split.
Qed.


(** *** The numbers that are written are the numbers that are read *)






Section Replay.
Variable mode : string.











End Replay.

(** C6, where the code departs from it.  On a cube whose last channel is
    blanked, natural mode tags the common beams with the units of that
    channel's [NaN] beam, degrees, while their values are in arcsec.  The
    log holds the bare numbers, and [readlogs] takes them as arcsec.  So
    for every library that returns the only beam of a one-beam set and
    can deconvolve channel 0, planning and replay both succeed and
    disagree: the planned common major axis of channel 0 is 10 degrees,
    the replayed one 10 arcsec. *)
Theorem natural_log_replay_changes_units (d : Beam) (verbose : bool) :
  common_beam slip_set (1 # 10000) 200 (5 # 10000) = Ok slip_beam ->
  deconvolve slip_common slip_beam = Ok d ->
  let planned := commonbeamer 2 slip_args "robust" "natural" None verbose slip_world in
  let replayed := readlogs "natural" verbose (snd planned) in
  fst planned = Ok tt /\
  fst replayed = Ok tt /\
  planned_major (snd planned) 0 = Some (mkQuantity (Fin (100 # 10)) deg) /\
  planned_major (snd replayed) 0 = Some (mkQuantity (Fin (100 # 10)) arcsec) /\
  ~ same_angle (mkQuantity (Fin (100 # 10)) deg) (mkQuantity (Fin (100 # 10)) arcsec).
Proof.
intros H1 H2 planned replayed. subst replayed planned.
vm_compute in H1. vm_compute in H2.
assert (Hne : ~ same_angle (mkQuantity (Fin (100 # 10)) deg)
                           (mkQuantity (Fin (100 # 10)) arcsec)).
{ unfold same_angle. vm_compute. discriminate. }
destruct verbose.
all: repeat split; try exact Hne.
all: vm_compute; rewrite H1; vm_compute; rewrite H2; vm_compute; reflexivity.
Qed.

(** ** A mode that is neither ['natural'] nor ['total'] (claim C8) *)

Lemma commonbeamer_other_mode nchans args conv_mode mode target verbose w :
  String.eqb mode "natural" = false ->
  String.eqb mode "total" = false ->
  verbose = true \/ datadict w <> [] ->
  commonbeamer nchans args conv_mode mode target verbose w =
  (Raise (UnboundLocalError "commonbeams"), w).
Proof.
intros Hn Ht Hv. unfold commonbeamer. rewrite Hn, Ht.
erewrite bind_ok by reflexivity. cbn [is_None].
destruct verbose; [reflexivity|].
destruct Hv as [Hv|Hv]; [discriminate|].
cbn [andb]. erewrite bind_ok by reflexivity.
erewrite bind_ok by reflexivity.
apply bind_raise.
destruct (datadict w) as [|c dd] eqn:E; [now elim Hv|].
unfold keys. cbn [List.length seq foldM].
apply bind_raise. unfold convolution_data.
erewrite bind_ok by (unfold get_cube; rewrite E; reflexivity).
reflexivity.
Qed.

Lemma plan_other_mode nchans args cfg verbose w w1 :
  arg_uselogs args = false ->
  String.eqb (cfg_mode cfg) "natural" = false ->
  String.eqb (cfg_mode cfg) "total" = false ->
  masking beam_eq nchans (cfg_cutoff cfg) w = (Ok tt, w1) ->
  verbose = true \/ datadict w1 <> [] ->
  plan nchans args cfg verbose w = (Raise (UnboundLocalError "commonbeams"), w1).
Proof.
intros Hu Hn Ht Hm Hv. unfold plan.
rewrite (bind_ok _ _ _ _ _ Hm). rewrite Hu. cbn [negb].
now apply commonbeamer_other_mode.
Qed.

(** ** The Nyquist check (first half of claim C3) *)

Lemma undersampled_false (samps : list float64) :
  Forall sampled samps -> undersampled samps = false.
Proof.
unfold undersampled. induction 1 as [|s samps Hs _ IH]; [reflexivity|].
cbn [existsb]. rewrite IH, orb_false_r.
destruct s as [|q]; [destruct Hs|]. cbn. apply negb_false_iff.
now apply Qle_bool_iff.
Qed.

(** When the check runs and every sample count is at least 2, natural
    mode keeps the rounded candidate.  Whether the replacement built
    otherwise passes the check again is a property of the library's
    [convolve] and [deconvolve], which the planner never re-checks. *)
Lemma natural_commonbeam_accepts_sampled args conv_mode bs w b w1 c samps w2 :
  forallb id (beams_isnan bs) = false ->
  find_common_beam args bs w = (Ok b, w1) ->
  last_opt (datadict w1) = Some c ->
  nyquist_samps (round_beam b) bs (dy c) w1 = (Ok samps, w2) ->
  Forall sampled samps ->
  natural_commonbeam args conv_mode bs w =
  (Ok (round_beam b), if String.eqb conv_mode "robust" then w1 else w2).
Proof.
intros Hn Hf Hl Hs Hall. unfold natural_commonbeam. rewrite Hn.
rewrite (bind_ok _ _ _ _ _ Hf). cbv zeta.
erewrite bind_ok by (rewrite last_grid_run, Hl; reflexivity).
destruct (String.eqb conv_mode "robust"); cbn [negb]; [reflexivity|].
rewrite (bind_ok _ _ _ _ _ Hs). now rewrite undersampled_false.
Qed.

(** The same for total mode without a target beam. *)
Lemma total_nyquist_accepts_sampled conv_mode commonbeam bb w c samps w1 :
  last_opt (datadict w) = Some c ->
  nyquist_samps commonbeam bb (dy c) w = (Ok samps, w1) ->
  Forall sampled samps ->
  total_nyquist conv_mode None commonbeam bb w =
  (Ok commonbeam, if String.eqb conv_mode "robust" then w else w1).
Proof.
intros Hl Hs Hall. unfold total_nyquist.
destruct (String.eqb conv_mode "robust"); cbn [negb]; [reflexivity|].
erewrite bind_ok by (rewrite last_grid_run, Hl; reflexivity).
rewrite (bind_ok _ _ _ _ _ Hs). now rewrite undersampled_false.
Qed.

(** ** The ['robust'] convolution and the Nyquist check *)

Lemma quietly_extends_refl t0 : quietly_extends t0 t0.
Proof. exists []. now rewrite app_nil_r. Qed.

Lemma inv_quiet_emit t0 e : quiet e = true -> inv trace (quietly_extends t0) (emit e).
Proof.
intros He w [evs [E Hq]]. simpl. exists (evs ++ [e]). split.
- now rewrite E, app_assoc.
- rewrite forallb_app, Hq. simpl. now rewrite He.
Qed.

Lemma inv_quiet_call_common_beam t0 bs t n e :
  inv trace (quietly_extends t0) (call_common_beam bs t n e).
Proof.
unfold call_common_beam. apply inv_bind; [now apply inv_quiet_emit | intros; frame].
Qed.

Lemma inv_quiet_call_deconvolve t0 a b :
  inv trace (quietly_extends t0) (call_deconvolve a b).
Proof.
unfold call_deconvolve. apply inv_bind; [now apply inv_quiet_emit | intros; frame].
Qed.

#[local] Hint Resolve inv_quiet_call_common_beam inv_quiet_call_deconvolve : frame.

Lemma natural_commonbeam_robust args bs :
  natural_commonbeam args "robust" bs =
  if forallb id (beams_isnan bs) then ret nan_beam
  else commonbeam <- find_common_beam args bs ;;
       grid <- last_grid ;;
       ret (round_beam commonbeam).
Proof. reflexivity. Qed.

Lemma total_nyquist_robust target commonbeam bb :
  total_nyquist "robust" target commonbeam bb = ret commonbeam.
Proof. reflexivity. Qed.

Lemma inv_quiet_natural_commonbeams t0 nchans args :
  inv trace (quietly_extends t0) (natural_commonbeams nchans args "robust").
Proof.
unfold natural_commonbeams.
apply inv_bind; [frame|]. intros dd.
apply inv_bind; [frame|]. intros big.
apply inv_bind; [|intros; frame].
apply inv_mapM. intros bs. rewrite natural_commonbeam_robust.
unfold find_common_beam, last_grid. frame.
Qed.

Lemma inv_quiet_total_commonbeams t0 nchans args target :
  inv trace (quietly_extends t0) (total_commonbeams nchans args "robust" target).
Proof.
unfold total_commonbeams, total_big_beams, total_gather, find_common_beam.
apply inv_bind; [frame|]. intros bb.
apply inv_bind; [frame|]. intros b.
rewrite total_nyquist_robust. frame.
Qed.

Lemma inv_quiet_convolution_data t0 mode nchans cbs v key :
  inv trace (quietly_extends t0) (convolution_data mode nchans cbs v key).
Proof. unfold convolution_data, convolving_beam. frame. Qed.

(** X6.  With the ['robust'] convolution nothing comes of the Nyquist
    check: whatever the mode, the options, the data and the library, and
    whether [commonbeamer] returns or raises, the events it adds to the
    trace hold no warning and no convolution of beams.  So no common
    beam is replaced by a beam convolved with the Nyquist beam, and the
    two warnings that come with the replacement, or with the refusal of
    an under-sampled target, are not issued.  (The trace records the
    searches, the deconvolutions, the convolutions of beams and the
    warnings; [gauss_factor] and the writing of the logs leave no event
    in it.) *)
Theorem robust_mode_skips_nyquist_check
  (nchans : nat) (args : Args) (mode : string) (target : option Beam)
  (verbose : bool) (w : world) :
  exists evs,
    trace (snd (commonbeamer nchans args "robust" mode target verbose w)) =
    trace w ++ evs /\
    forallb quiet evs = true.
Proof.
assert (H : inv trace (quietly_extends (trace w))
              (commonbeamer nchans args "robust" mode target verbose)).
{ unfold commonbeamer.
  apply inv_bind.
  - destruct (String.eqb mode "natural").
    + apply inv_bind; [apply inv_quiet_natural_commonbeams | intros; frame].
    + destruct (String.eqb mode "total"); [|frame].
      apply inv_bind; [apply inv_quiet_total_commonbeams | intros; frame].
  - intros cbs. apply inv_bind; [frame|]. intros _.
    apply inv_bind; [frame|]. intros dd.
    apply inv_bind; [|intros; frame].
    apply inv_foldM. intros v key. apply inv_quiet_convolution_data. }
exact (H w (quietly_extends_refl _)).
Qed.

(** ** One set of common beams for all cubes *)

Lemma mapR_length {A B} (g : A -> result B) (l : list A) (ys : list B) :
  mapR g l = Ok ys -> List.length ys = List.length l.
Proof.
revert ys. induction l as [|x l IH]; intros ys; simpl.
- intros H. now injection H as <-.
- destruct (g x) as [y|e]; [|discriminate].
  destruct (mapR g l) as [ys'|e]; [|discriminate].
  intros H. injection H as <-. simpl. now rewrite (IH ys').
Qed.

Lemma mapM_length {A B} (g : A -> M B) (l : list A) w ys w' :
  mapM g l w = (Ok ys, w') -> List.length ys = List.length l.
Proof.
revert w ys w'. induction l as [|x l IH]; intros w ys w'; simpl.
- unfold ret. intros H. now injection H as <- _.
- intros H. apply bind_ok_inv in H as (y & w1 & _ & H).
  apply bind_ok_inv in H as (ys' & w2 & Hl & H).
  unfold ret in H. injection H as <- _. simpl. now rewrite (IH _ _ _ Hl).
Qed.

Lemma beams_of_values_shape (bs : list Beam) (src : Beam) :
  beams_shape (List.length bs) (beams_of_values bs src).
Proof. unfold beams_shape, beams_of_values. simpl. now rewrite !length_map. Qed.

Lemma natural_commonbeams_shape nchans args conv_mode w cbs w' :
  natural_commonbeams nchans args conv_mode w = (Ok cbs, w') -> beams_shape nchans cbs.
Proof.
unfold natural_commonbeams. intros H.
apply bind_ok_inv in H as (dd & w1 & _ & H).
apply bind_ok_inv in H as (big & w2 & Hbig & H).
apply lift_ok_inv in Hbig as [_ Hbig]. apply mapR_length in Hbig.
apply bind_ok_inv in H as (commons & w3 & Hc & H). apply mapM_length in Hc.
destruct (last_opt commons) as [b|]; [|discriminate].
unfold ret in H. injection H as <- _.
rewrite length_seq in Hbig. rewrite <- Hbig, <- Hc. apply beams_of_values_shape.
Qed.

Lemma total_commonbeams_one_beam nchans args conv_mode target w cbs w' :
  total_commonbeams nchans args conv_mode target w = (Ok cbs, w') ->
  exists b, cbs = beams_of_values (repeat b nchans) b.
Proof.
unfold total_commonbeams. intros H.
apply bind_ok_inv in H as (bb & w1 & _ & H).
apply bind_ok_inv in H as (b & w2 & _ & H).
apply bind_ok_inv in H as (b' & w3 & _ & H).
unfold ret in H. injection H as <- _. now exists b'.
Qed.

(** What [commonbeamer] does once a mode has given the common beams. *)
Lemma planned_run (stage : M Beams) mode nchans verbose w w' :
  (commonbeams <- (b <- stage ;; ret (Some b)) ;;
   (if verbose && is_None commonbeams
    then raise (UnboundLocalError "commonbeams") else ret tt) ;;;
   dd <- get_datadict ;;
   foldM (convolution_data mode nchans commonbeams) None (keys dd) ;;;
   ret tt) w = (Ok tt, w') ->
  exists cbs w1 v,
    stage w = (Ok cbs, w1) /\
    foldM (convolution_data mode nchans (Some cbs)) None (keys (datadict w1)) w1 =
    (Ok v, w').
Proof.
intros H.
apply bind_ok_inv in H as (ocbs & w1 & Hcbs & H).
apply bind_ok_inv in Hcbs as (cbs & w0 & Hc & Hr).
unfold ret in Hr. injection Hr as <- <-.
apply bind_ok_inv in H as ([] & w2 & Hv & H).
assert (w2 = w0) as ->.
{ destruct (verbose && is_None (Some cbs)); [discriminate|].
  unfold ret in Hv. now injection Hv. }
apply bind_ok_inv in H as (dd & w3 & Hdd & H).
unfold get_datadict in Hdd. injection Hdd as <- <-.
apply bind_ok_inv in H as (v & w4 & Hfold & H).
unfold ret in H. injection H as <-.
now exists cbs, w0, v.
Qed.

(** When the last loop completes, every cube holds the common beams. *)
Lemma foldM_convolution_data_all mode nchans cbs w v w' :
  foldM (convolution_data mode nchans (Some cbs)) None (keys (datadict w)) w = (Ok v, w') ->
  Forall (fun c => commonbeams c = Some cbs) (datadict w').
Proof.
intros Hfold. apply Forall_forall. intros c Hc.
destruct (In_nth_error _ _ Hc) as [k Hk].
assert (Hlen : (k < List.length (datadict w))%nat).
{ pose proof (foldM_convolution_data_length mode nchans (Some cbs)
                (keys (datadict w)) None w) as Hl.
  rewrite Hfold in Hl. simpl in Hl. rewrite <- Hl.
  apply nth_error_Some. congruence. }
destruct (foldM_convolution_data_plans _ _ _ _ _ _ _ _ Hfold k) as [c1 [E1 Hp]].
{ unfold keys. apply in_seq. lia. }
congruence.
Qed.

(** X7.  When [commonbeamer] returns, all the cubes hold one and the same
    set of common beams.  In natural mode it has one beam per channel,
    [nchans] in all; in total mode it is [nchans] times one single beam,
    so that every channel of every cube is brought to the same
    resolution. *)
Theorem commonbeamer_same_beams_for_all_cubes
  (nchans : nat) (args : Args) (conv_mode : string) (target : option Beam)
  (verbose : bool) (w : world) :
  (forall w',
     commonbeamer nchans args conv_mode "natural" target verbose w = (Ok tt, w') ->
     exists cbs, beams_shape nchans cbs /\
                 Forall (fun c => commonbeams c = Some cbs) (datadict w')) /\
  (forall w',
     commonbeamer nchans args conv_mode "total" target verbose w = (Ok tt, w') ->
     exists b, Forall (fun c => commonbeams c =
                                Some (beams_of_values (repeat b nchans) b))
                      (datadict w')).
Proof.
split; intros w' H.
- rewrite commonbeamer_natural in H.
  apply planned_run in H as (cbs & w1 & v & Hc & Hfold).
  exists cbs. split.
  + eapply natural_commonbeams_shape; exact Hc.
  + eapply foldM_convolution_data_all; exact Hfold.
- rewrite commonbeamer_total in H.
  apply planned_run in H as (cbs & w1 & v & Hc & Hfold).
  apply total_commonbeams_one_beam in Hc as [b ->].
  exists b. eapply foldM_convolution_data_all; exact Hfold.
Qed.

(** ** Masked channels come out blank *)

Lemma mapM_nth {A B} (g : A -> M B) (l : list A) w ys w' :
  mapM g l w = (Ok ys, w') ->
  forall n x, nth_error l n = Some x ->
    exists y w1 w2, g x w1 = (Ok y, w2) /\ nth_error ys n = Some y.
Proof.
revert w ys w'. induction l as [|a l IH]; intros w ys w' H n x Hn.
- destruct n; discriminate.
- simpl in H. apply bind_ok_inv in H as (y & w1 & Ha & H).
  apply bind_ok_inv in H as (ys' & w2 & Hl & H).
  unfold ret in H. injection H as <- _.
  destruct n as [|n]; simpl in *.
  + injection Hn as <-. now exists y, w, w1.
  + eapply IH; eauto.
Qed.

Lemma mapM_convolving_beam_masked l w convs w' :
  mapM convolving_beam l w = (Ok convs, w') ->
  forall n cb ob, nth_error l n = Some (cb, ob, true) ->
                  nth_error convs n = Some nan_beam.
Proof.
intros H n cb ob Hn.
destruct (mapM_nth _ _ _ _ _ H n _ Hn) as (y & w1 & w2 & Hy & Hc).
unfold convolving_beam, ret in Hy. injection Hy as <- _. exact Hc.
Qed.

(** What one cube of the last loop leaves, when it succeeds. *)
Lemma convolution_data_cube mode nchans cbs v key w v' w' :
  convolution_data mode nchans (Some cbs) v key w = (Ok v', w') ->
  exists c c',
    nth_error (datadict w) key = Some c /\
    datadict w' = list_update (datadict w) key c' /\
    planned_for cbs c'.
Proof.
unfold convolution_data. intros H.
apply bind_ok_inv in H as (c & w1 & Hget & H).
apply get_cube_ok_inv in Hget as [-> E].
apply bind_ok_inv in H as (convs & w2 & Hmap & H).
pose proof (mapM_convolving_beam_dd
              (combine (combine (beams_iter cbs) (beams_iter (beams c))) (mask c)) w) as Hdd.
rewrite Hmap in Hdd. simpl in Hdd.
destruct (match last_opt convs with Some b => Some b | None => v end) as [cv|];
  [|discriminate].
apply bind_ok_inv in H as ([] & w3 & Hput & H).
unfold put_cube in Hput. injection Hput as <-.
apply bind_ok_inv in H as (tab & w4 & Htab & H).
apply lift_ok_inv in Htab as [-> _].
apply bind_ok_inv in H as ([] & w5 & Hw & H).
unfold write_file in Hw. injection Hw as <-.
unfold ret in H. injection H as _ <-. cbn [datadict].
eexists c, _. split; [exact E|]. split; [rewrite Hdd; reflexivity|].
split; [reflexivity|]. exists convs, cv.
split; [reflexivity|]. split; [reflexivity|]. split.
- apply (mapM_length _ _ _ _ _ Hmap).
- exact (mapM_convolving_beam_masked _ _ _ _ Hmap).
Qed.

Lemma foldM_convolution_data_keeps mode nchans cbs l :
  forall v w v' w' k,
  foldM (convolution_data mode nchans (Some cbs)) v l w = (Ok v', w') ->
  ~ In k l -> nth_error (datadict w') k = nth_error (datadict w) k.
Proof.
induction l as [|j l IH]; intros v w v' w' k H Hk.
- simpl in H. unfold ret in H. now injection H as _ <-.
- simpl in H. apply bind_ok_inv in H as (v1 & w1 & Hj & H).
  rewrite (IH _ _ _ _ k H) by (intros Hin; apply Hk; now right).
  apply convolution_data_cube in Hj as (c & c' & _ & -> & _).
  rewrite nth_error_list_update.
  destruct (Nat.eqb_spec k j) as [->|_]; [|reflexivity].
  elim Hk. now left.
Qed.

Lemma foldM_convolution_data_planned mode nchans cbs l :
  forall v w v' w',
  foldM (convolution_data mode nchans (Some cbs)) v l w = (Ok v', w') ->
  NoDup l ->
  forall k, In k l ->
    exists c, nth_error (datadict w') k = Some c /\ planned_for cbs c.
Proof.
induction l as [|j l IH]; intros v w v' w' H Hl k Hk; [destruct Hk|].
simpl in H. apply bind_ok_inv in H as (v1 & w1 & Hj & H).
inversion Hl as [|? ? Hnotin Hl']; subst.
destruct Hk as [->|Hk].
- rewrite (foldM_convolution_data_keeps _ _ _ _ _ _ _ _ k H Hnotin).
  apply convolution_data_cube in Hj as (c & c' & E & -> & Hp).
  exists c'. split; [|exact Hp].
  now rewrite nth_error_list_update, Nat.eqb_refl, E.
- eapply IH; eauto.
Qed.

(** When [commonbeamer] returns, every cube holds a plan for one set of
    [nchans] common beams. *)
Lemma commonbeamer_planned nchans args conv_mode mode target verbose w w' :
  commonbeamer nchans args conv_mode mode target verbose w = (Ok tt, w') ->
  datadict w' <> [] ->
  exists cbs, beams_shape nchans cbs /\ Forall (planned_for cbs) (datadict w').
Proof.
intros H Hne.
assert (Hrun : exists cbs w1 v,
          beams_shape nchans cbs /\
          foldM (convolution_data mode nchans (Some cbs)) None (keys (datadict w1)) w1 =
          (Ok v, w')).
{ destruct (String.eqb_spec mode "natural") as [->|Hn];
    [|destruct (String.eqb_spec mode "total") as [->|Ht]].
  - rewrite commonbeamer_natural in H.
    apply planned_run in H as (cbs & w1 & v & Hc & Hfold).
    exists cbs, w1, v. split; [|exact Hfold].
    eapply natural_commonbeams_shape; exact Hc.
  - rewrite commonbeamer_total in H.
    apply planned_run in H as (cbs & w1 & v & Hc & Hfold).
    exists cbs, w1, v. split; [|exact Hfold].
    apply total_commonbeams_one_beam in Hc as [b ->].
    pose proof (beams_of_values_shape (repeat b nchans) b) as Hs.
    now rewrite repeat_length in Hs.
  - exfalso. apply String.eqb_neq in Hn, Ht.
    destruct (datadict w) as [|c0 dd0] eqn:E.
    + unfold commonbeamer in H. rewrite Hn, Ht in H.
      unfold bind, ret, get_datadict in H. cbn [is_None] in H.
      destruct verbose; [discriminate|]. cbn [andb] in H.
      rewrite E in H. cbn in H. injection H as <-. now apply Hne.
    + rewrite (commonbeamer_other_mode nchans args conv_mode mode target verbose w Hn Ht)
        in H; [discriminate|]. right. congruence. }
destruct Hrun as (cbs & w1 & v & Hs & Hfold).
exists cbs. split; [exact Hs|].
apply Forall_forall. intros c Hc.
destruct (In_nth_error _ _ Hc) as [k Hk].
assert (Hlen : (k < List.length (datadict w1))%nat).
{ pose proof (foldM_convolution_data_length mode nchans (Some cbs)
                (keys (datadict w1)) None w1) as Hl.
  rewrite Hfold in Hl. simpl in Hl. rewrite <- Hl.
  apply nth_error_Some. congruence. }
destruct (foldM_convolution_data_planned _ _ _ _ _ _ _ _ Hfold (seq_NoDup _ _) k)
  as [c1 [E1 Hp]].
{ unfold keys. apply in_seq. lia. }
congruence.
Qed.

Lemma nth_error_zip_beams u1 u2 u3 l1 l2 l3 n :
  nth_error (zip_beams u1 u2 u3 l1 l2 l3) n =
  match nth_error l1 n, nth_error l2 n, nth_error l3 n with
  | Some x, Some y, Some z =>
      Some (mkBeam (mkQuantity x u1) (mkQuantity y u2) (mkQuantity z u3))
  | _, _, _ => None
  end.
Proof.
revert l2 l3 n. induction l1 as [|x l1 IH]; intros l2 l3 n.
- simpl. now destruct n.
- destruct l2 as [|y l2].
  + simpl. destruct n; simpl; [reflexivity|]. now destruct (nth_error l1 n).
  + destruct l3 as [|z l3].
    * simpl. destruct n; simpl; [reflexivity|].
      destruct (nth_error l1 n); [|reflexivity]. now destruct (nth_error l2 n).
    * destruct n; simpl; [reflexivity|]. apply IH.
Qed.

Lemma nth_error_beams_iter (b : Beams) (n : nat) :
  nth_error (beams_iter b) n = beams_get b n.
Proof. unfold beams_iter, beams_get. apply nth_error_zip_beams. Qed.

Lemma beams_get_shape (nchans : nat) (b : Beams) (n : nat) :
  beams_shape nchans b -> (n < nchans)%nat -> exists x, beams_get b n = Some x.
Proof.
intros (H1 & H2 & H3) Hn. unfold beams_get.
destruct (nth_error (values (majors b)) n) eqn:E1;
  [|apply nth_error_None in E1; lia].
destruct (nth_error (values (minors b)) n) eqn:E2;
  [|apply nth_error_None in E2; lia].
destruct (nth_error (values (pas b)) n) eqn:E3;
  [|apply nth_error_None in E3; lia].
eexists. reflexivity.
Qed.

Lemma nth_error_combine {A B} (l1 : list A) (l2 : list B) n a b :
  nth_error l1 n = Some a -> nth_error l2 n = Some b ->
  nth_error (combine l1 l2) n = Some (a, b).
Proof.
revert l2 n. induction l1 as [|x l1 IH]; intros l2 n H1 H2.
- destruct n; discriminate.
- destruct l2 as [|y l2]; [destruct n; discriminate|].
  destruct n as [|n]; simpl in *; [congruence|]. now apply IH.
Qed.

Lemma scale_nan (im : image) : scale im NaN = blank im.
Proof.
unfold scale, blank. apply map_ext. intros row. apply map_ext.
intros p. now destruct p.
Qed.

Section Blanking.

Variable as_kernel : Beam -> Quantity -> result image.
Variable convolve_uv :
  image -> Beam -> Beam -> Quantity -> Quantity -> result (image * float64).
Variable scipy_signal_convolve : image -> image -> result image.
Variable astropy_convolve : image -> image -> result image.
Variable astropy_convolve_fft : image -> image -> result image.
Variable read_plane : string -> nat -> result image.

(** X9.  A masked channel comes out blank.  When [commonbeamer] has
    returned, take any cube, any channel below [nchans] that the cube's
    mask flags and for which the cube has a beam, and any plane read
    from the cube's file for it: [worker] returns that plane with [NaN]
    in every pixel, whatever the convolution mode and the routines of
    the libraries, none of which it calls. *)
Theorem masked_channel_is_blanked
  (nchans : nat) (args : Args) (conv_mode mode : string) (target : option Beam)
  (verbose : bool) (w w' : world) (key chan : nat) (c : cube) (oldbeam : Beam)
  (plane : image) (worker_mode : string) :
  commonbeamer nchans args conv_mode mode target verbose w = (Ok tt, w') ->
  nth_error (datadict w') key = Some c ->
  (chan < nchans)%nat ->
  nth_error (mask c) chan = Some true ->
  beams_get (beams c) chan = Some oldbeam ->
  read_plane (filename c) chan = Ok plane ->
  worker as_kernel convolve_uv scipy_signal_convolve astropy_convolve
         astropy_convolve_fft read_plane chan c worker_mode 0 =
  Ok (blank plane).
Proof.
intros Hrun Hc Hchan Hmask Hbeam Hplane.
destruct (commonbeamer_planned _ _ _ _ _ _ _ _ Hrun) as (cbs & Hshape & Hall).
{ intros E. rewrite E in Hc. destruct key; discriminate. }
rewrite Forall_forall in Hall.
destruct (Hall c (nth_error_In _ _ Hc)) as (Hcbs & convs & cvb & Hcv & Hfacs & Hlen & Hnan).
destruct (beams_get_shape nchans cbs chan Hshape Hchan) as [newbeam Hnew].
assert (Hin : nth_error (conv_inputs cbs c) chan = Some (newbeam, oldbeam, true)).
{ unfold conv_inputs. apply nth_error_combine; [|exact Hmask].
  apply nth_error_combine; now rewrite nth_error_beams_iter. }
specialize (Hnan chan newbeam oldbeam Hin).
assert (Hcon : beams_get (conv_beams_of convs cvb) chan =
               Some (mkBeam (mkQuantity NaN (unit_of (major cvb)))
                            (mkQuantity NaN (unit_of (minor cvb)))
                            (mkQuantity NaN deg))).
{ unfold beams_get, conv_beams_of. cbn [majors minors pas values aunit].
  rewrite (map_nth_error (fun b => value (major b)) _ _ Hnan).
  rewrite (map_nth_error (fun b => value (minor b)) _ _ Hnan).
  rewrite (map_nth_error (fun b => value (to deg (pa b))) _ _ Hnan).
  reflexivity. }
assert (Hfac : exists f, nth_error (getfacs c (conv_beams_of convs cvb)) chan = Some f).
{ unfold getfacs. eexists. apply map_nth_error.
  apply nth_error_combine; rewrite nth_error_beams_iter; eassumption. }
destruct Hfac as [f Hf].
unfold worker. cbn [Nat.add].
rewrite Hplane. cbn [rbind]. rewrite Hbeam. cbn [index_of rbind].
rewrite Hcbs. cbn [key_of rbind]. rewrite Hnew. cbn [index_of rbind].
rewrite Hcv. cbn [key_of rbind]. rewrite Hcon. cbn [index_of rbind].
rewrite Hfacs. cbn [key_of rbind]. rewrite Hf. cbn [index_of rbind].
unfold smooth.
assert (Hisnan : beam_isnan (mkBeam (mkQuantity NaN (unit_of (major cvb)))
                                    (mkQuantity NaN (unit_of (minor cvb)))
                                    (mkQuantity NaN deg)) = true).
{ unfold beam_isnan, beam_area, to. cbn [major minor value unit_of].
  destruct (unit_of (major cvb)), (unit_of (minor cvb)); reflexivity. }
rewrite Hisnan. now rewrite scale_nan.
Qed.

End Blanking.

(** ** Planning, then replaying the logs *)




(** ** A channel that is masked in every cube, in natural mode *)

Lemma mapR_nth {A B} (g : A -> result B) (l : list A) (ys : list B) :
  mapR g l = Ok ys ->
  forall n x, nth_error l n = Some x ->
    exists y, g x = Ok y /\ nth_error ys n = Some y.
Proof.
revert ys. induction l as [|a l IH]; intros ys H n x Hn.
- destruct n; discriminate.
- simpl in H. destruct (g a) as [y|e] eqn:Ea; [|discriminate].
  destruct (mapR g l) as [ys'|e]; [|discriminate].
  injection H as <-. destruct n as [|n]; simpl in *.
  + injection Hn as <-. now exists y.
  + now apply (IH ys').
Qed.

Lemma mapR_Forall {A B} (g : A -> result B) (P : A -> Prop) (Q : B -> Prop)
  (l : list A) (ys : list B) :
  (forall x y, P x -> g x = Ok y -> Q y) ->
  mapR g l = Ok ys -> Forall P l -> Forall Q ys.
Proof.
intros HPQ. revert ys. induction l as [|a l IH]; intros ys H HP.
- simpl in H. injection H as <-. constructor.
- simpl in H. destruct (g a) as [y|e] eqn:Ea; [|discriminate].
  destruct (mapR g l) as [ys'|e]; [|discriminate].
  injection H as <-. inversion HP; subst. constructor; eauto.
Qed.

Lemma masked_entry_nan n c e :
  nth_error (mask c) n = Some true -> masked_entry n c = Ok e ->
  value (major e) = NaN.
Proof.
intros Hm. unfold masked_entry. destruct (beams_get (beams c) n) as [b|]; [|discriminate].
rewrite Hm. intros H. injection H as <-. cbn. now destruct (value (major b)).
Qed.

Lemma beams_of_values_all_nan (entries : list Beam) (src : Beam) :
  Forall (fun e => value (major e) = NaN) entries ->
  forallb id (beams_isnan (beams_of_values entries src)) = true.
Proof.
unfold beams_isnan, beams_iter, beams_of_values. cbn [majors minors pas values aunit].
induction 1 as [|e entries He _ IH]; [reflexivity|].
cbn [map zip_beams forallb]. rewrite IH, andb_true_r.
unfold id, beam_isnan, beam_area, to. cbn [major minor value unit_of]. rewrite He.
now destruct (unit_of (major src)).
Qed.

Lemma channel_beams_all_nan dd n bs :
  Forall (fun c => nth_error (mask c) n = Some true) dd ->
  channel_beams dd n = Ok bs -> forallb id (beams_isnan bs) = true.
Proof.
intros Hall. unfold channel_beams.
destruct (mapR (masked_entry n) dd) as [entries|] eqn:E; [|discriminate].
destruct (last_opt entries) as [e|]; [|discriminate].
intros H. injection H as <-. apply beams_of_values_all_nan.
apply (mapR_Forall (masked_entry n) _ _ dd entries
         (fun c e Hc He => masked_entry_nan n c e Hc He) E Hall).
Qed.

Lemma natural_commonbeams_blank nchans args conv_mode w cbs w' n :
  natural_commonbeams nchans args conv_mode w = (Ok cbs, w') ->
  (n < nchans)%nat ->
  Forall (fun c => nth_error (mask c) n = Some true) (datadict w) ->
  exists b, beams_get cbs n = Some b /\
            value (major b) = NaN /\ value (minor b) = NaN /\ value (pa b) = NaN.
Proof.
unfold natural_commonbeams. intros H Hn Hall.
apply bind_ok_inv in H as (dd & w1 & Hdd & H).
unfold get_datadict in Hdd. injection Hdd as <- <-.
apply bind_ok_inv in H as (big & w2 & Hbig & H).
apply lift_ok_inv in Hbig as [-> Hbig].
apply bind_ok_inv in H as (commons & w3 & Hc & H).
destruct (last_opt commons) as [lastb|]; [|discriminate].
unfold ret in H. injection H as <- _.
destruct (mapR_nth _ _ _ Hbig n n) as (bs & Hbs & Hnth).
{ rewrite nth_error_seq. destruct (Nat.ltb_spec n nchans); [reflexivity | lia]. }
pose proof (channel_beams_all_nan _ _ _ Hall Hbs) as Hnan.
destruct (mapM_nth _ _ _ _ _ Hc n bs Hnth) as (y & wa & wb & Hy & Hcn).
rewrite (natural_commonbeam_all_nan args conv_mode bs wa Hnan) in Hy.
injection Hy as <- _.
unfold beams_get, beams_of_values. cbn [majors minors pas values aunit].
rewrite (map_nth_error (fun b => value (major b)) _ _ Hcn).
rewrite (map_nth_error (fun b => value (minor b)) _ _ Hcn).
rewrite (map_nth_error (fun b => value (pa b)) _ _ Hcn).
eexists. split; [reflexivity|]. now repeat split.
Qed.

(** X16.  In natural mode a channel that is masked in every cube gets no
    common beam: when [commonbeamer] returns, the common beam that every
    cube holds for that channel has [NaN] for its major axis, its minor
    axis and its position angle. *)
Theorem natural_mode_blanks_fully_masked_channel
  (nchans : nat) (args : Args) (conv_mode : string) (target : option Beam)
  (verbose : bool) (w w' : world) (n : nat) :
  commonbeamer nchans args conv_mode "natural" target verbose w = (Ok tt, w') ->
  (n < nchans)%nat ->
  Forall (fun c => nth_error (mask c) n = Some true) (datadict w) ->
  Forall (fun c => exists cbs b,
            commonbeams c = Some cbs /\ beams_get cbs n = Some b /\
            value (major b) = NaN /\ value (minor b) = NaN /\ value (pa b) = NaN)
         (datadict w').
Proof.
intros H Hn Hall. rewrite commonbeamer_natural in H.
apply planned_run in H as (cbs & w1 & v & Hc & Hfold).
destruct (natural_commonbeams_blank _ _ _ _ _ _ n Hc Hn Hall) as (b & Hb & Hnan).
apply foldM_convolution_data_all in Hfold.
eapply Forall_impl; [|exact Hfold].
intros c Hcbs. now exists cbs, b.
Qed.

(** ** What the Nyquist check does *)

Lemma nyquist_beam_run commonbeam grid w :
  nyquist_beam commonbeam grid w =
  (Ok (round_beam (convolve commonbeam (nyq_con_beam grid))),
   with_trace w [ev_convolve commonbeam (nyq_con_beam grid)]).
Proof. reflexivity. Qed.

Lemma warn_twice_run {A} (m1 m2 : string) (a : A) w :
  (warn m1 ;;; warn m2 ;;; ret a) w = (Ok a, with_trace w [ev_warn m1; ev_warn m2]).
Proof.
unfold bind, warn, emit, ret, with_trace. simpl. now rewrite <- app_assoc.
Qed.

Lemma undersampled_iff (samps : list float64) :
  undersampled samps = true <-> exists q, In (Fin q) samps /\ (q < 2)%Q.
Proof.
unfold undersampled. rewrite existsb_exists. split.
- intros [s [Hin Hs]]. destruct s as [|q]; [discriminate|].
  exists q. split; [exact Hin|]. cbn in Hs. apply negb_true_iff in Hs.
  apply Qnot_le_lt. intros Hle. apply Qle_bool_iff in Hle. congruence.
- intros [q [Hin Hq]]. exists (Fin q). split; [exact Hin|]. cbn.
  apply negb_true_iff. destruct (Qle_bool 2 q) eqn:E; [|reflexivity].
  apply Qle_bool_iff in E. exfalso. now apply (Qlt_not_le _ _ Hq).
Qed.

(** X18.  The Nyquist check, when there is no target beam and the
    convolution is not ['robust'].  The sample counts are the minor axes
    of the candidate deconvolved by each beam that is a number, in
    arcsec, over the grid step of the last cube.  The candidate is
    under-sampled exactly when one of the counts is a number below 2 (a
    count that is [NaN] passes).  If it is not, the candidate is kept as
    it is.  If it is, it is replaced by the candidate convolved with the
    circular beam of twice the grid step, rounded up, with two warnings;
    the replacement is not checked again.  This holds for the common
    beam of a channel in natural mode, the candidate being the rounded
    beam of the search, and for the common beam of total mode. *)
Theorem nyquist_check_outcome
  (args : Args) (conv_mode : string) (bs : Beams) (w w1 w2 : world)
  (b : Beam) (c : cube) (samps : list float64) :
  String.eqb conv_mode "robust" = false ->
  last_opt (datadict w1) = Some c ->
  let replaced commonbeam :=
    (Ok (round_beam (convolve commonbeam (nyq_con_beam (dy c)))),
     with_trace w2 [ev_convolve commonbeam (nyq_con_beam (dy c));
                    ev_warn "COMMON BEAM WILL BE UNDERSAMPLED!";
                    ev_warn "SETTING COMMON BEAM TO NYQUIST BEAM"]) in
  (undersampled samps = true <-> exists q, In (Fin q) samps /\ (q < 2)%Q) /\
  (forallb id (beams_isnan bs) = false ->
   find_common_beam args bs w = (Ok b, w1) ->
   nyquist_samps (round_beam b) bs (dy c) w1 = (Ok samps, w2) ->
   natural_commonbeam args conv_mode bs w =
   if undersampled samps then replaced (round_beam b) else (Ok (round_beam b), w2)) /\
  (nyquist_samps b bs (dy c) w1 = (Ok samps, w2) ->
   total_nyquist conv_mode None b bs w1 =
   if undersampled samps then replaced b else (Ok b, w2)).
Proof.
intros Hmode Hl replaced. split; [apply undersampled_iff|]. split.
- intros Hn Hf Hs. unfold natural_commonbeam. rewrite Hn.
  rewrite (bind_ok _ _ _ _ _ Hf). cbv zeta.
  erewrite bind_ok by (rewrite last_grid_run, Hl; reflexivity).
  rewrite Hmode. cbn [negb]. rewrite (bind_ok _ _ _ _ _ Hs).
  destruct (undersampled samps); [|reflexivity].
  erewrite bind_ok by apply nyquist_beam_run.
  rewrite warn_twice_run, with_trace_app. reflexivity.
- intros Hs. unfold total_nyquist. rewrite Hmode. cbn [negb].
  erewrite bind_ok by (rewrite last_grid_run, Hl; reflexivity).
  rewrite (bind_ok _ _ _ _ _ Hs).
  destruct (undersampled samps); [|reflexivity].
  erewrite bind_ok by apply nyquist_beam_run.
  rewrite warn_twice_run, with_trace_app. reflexivity.
Qed.

End Planner.

(** ** Rounding (claim C5) *)

Example my_ceil_rounds_up : my_ceil (Fin (1234 # 100)) 1 = Fin (124 # 10).
Proof. reflexivity. Qed.

Example my_ceil_keeps_decimal : my_ceil (Fin (124 # 10)) 1 = Fin (124 # 10).
Proof. reflexivity. Qed.

Example round_up_angle :
  round_up (mkQuantity (Fin (30004 # 1000)) deg) 2 = mkQuantity (Fin (3001 # 100)) deg.
Proof. reflexivity. Qed.

Example log_name :
  commonbeam_log_name slip_cube "total" = "beamlogConvolve-total.image.txt"%string.
Proof. reflexivity. Qed.

Lemma pow10_pos (p : Z) : 0 <= p -> (0 < inject_Z (10 ^ p))%Q.
Proof.
intros Hp. replace 0%Q with (inject_Z 0) by reflexivity.
rewrite <- Zlt_Qlt. apply Z.pow_pos_nonneg; lia.
Qed.

Lemma decimal_ceil_ge (q : Q) (p : Z) : 0 <= p -> (q <= decimal_ceil q p)%Q.
Proof.
intros Hp. unfold decimal_ceil.
pose proof (pow10_pos p Hp) as Hk.
apply Qle_shift_div_l; [exact Hk|]. apply Qle_ceiling.
Qed.


Lemma decimal_ceil_comp (x y : Q) (p : Z) :
  (x == y)%Q -> (decimal_ceil x p == decimal_ceil y p)%Q.
Proof.
intros E. unfold decimal_ceil.
assert (E' : (x * inject_Z (10 ^ p) == y * inject_Z (10 ^ p))%Q) by now rewrite E.
rewrite (Qceiling_comp _ _ E'). reflexivity.
Qed.

Lemma float_equiv_refl (a : float64) : float_equiv a a.
Proof. destruct a; simpl; [exact I | reflexivity]. Qed.


Lemma to_same_unit (q : Quantity) : to (unit_of q) q = q.
Proof. destruct q as [v [|]]; reflexivity. Qed.

Lemma to_arcsec_le (v : Q) (u : AngUnit) (x : Q) :
  value (to arcsec (mkQuantity (Fin v) u)) = Fin x ->
  Quantity_le (mkQuantity (Fin v) u) (mkQuantity (Fin (decimal_ceil x 1)) arcsec).
Proof.
intros E. unfold Quantity_le. rewrite E. simpl.
apply decimal_ceil_ge. lia.
Qed.






(** ** The task partition (claim C9) *)

Section Partition.
Variable nPE dims : Z.
Hypothesis HnPE : 1 <= nPE.
Hypothesis Hdims : 0 <= dims.

Lemma count_nonneg : 0 <= dims / nPE.
Proof. apply Z.div_pos; lia. Qed.

Lemma rem_bounds : 0 <= dims mod nPE < nPE.
Proof. apply Z.mod_pos_bound; lia. Qed.

Lemma boundary_0 : boundary nPE dims 0 = 0.
Proof. unfold boundary. pose proof rem_bounds. lia. Qed.

Lemma boundary_nPE : boundary nPE dims nPE = dims.
Proof.
  unfold boundary. pose proof rem_bounds.
  rewrite Z.min_r by lia.
  rewrite (Z.div_mod dims nPE) at 3 by lia. lia.
Qed.

Lemma boundary_step r : 0 <= r ->
  boundary nPE dims (r + 1) - boundary nPE dims r = dims / nPE + (if r <? dims mod nPE then 1 else 0).
Proof.
  intros Hr. unfold boundary.
  destruct (Z.ltb_spec r (dims mod nPE)); lia.
Qed.

Lemma boundary_mono r : 0 <= r -> boundary nPE dims r <= boundary nPE dims (r + 1).
Proof.
  intros Hr. pose proof (boundary_step r Hr). pose proof count_nonneg.
  destruct (r <? dims mod nPE); lia.
Qed.

Lemma boundary_nonneg r : 0 <= r -> 0 <= boundary nPE dims r.
Proof.
  intros Hr. unfold boundary. pose proof count_nonneg. pose proof rem_bounds. nia.
Qed.

Lemma boundary_le_dims r : 0 <= r <= nPE -> boundary nPE dims r <= dims.
Proof.
  intros Hr. pose proof boundary_nPE as E. unfold boundary in *.
  pose proof count_nonneg. pose proof rem_bounds.
  rewrite Z.min_r in E by lia. nia.
Qed.

Lemma my_range_boundary r : 0 <= r ->
  my_range nPE r dims = (boundary nPE dims r, boundary nPE dims (r + 1) - 1).
Proof.
  intros Hr. unfold my_range, boundary. cbv zeta.
  destruct (Z.ltb_spec r (dims mod nPE)); f_equal; lia.
Qed.

Lemma boundary_le r r' : 0 <= r <= r' -> boundary nPE dims r <= boundary nPE dims r'.
Proof.
intros Hr. unfold boundary. pose proof count_nonneg. pose proof rem_bounds. nia.
Qed.

End Partition.

Lemma firstn_skipn_firstn {A} (l : list A) (a b : nat) :
  firstn a l ++ firstn b (skipn a l) = firstn (a + b) l.
Proof.
  revert l; induction a as [|a IH]; intros l; simpl; [reflexivity|].
  destruct l as [|x l]; simpl.
  - now rewrite firstn_nil.
  - now rewrite IH.
Qed.

Lemma py_slice_inner {A} (l : list A) (a b : Z) :
  0 <= a <= b -> b <= Z.of_nat (List.length l) ->
  py_slice l a b = firstn (Z.to_nat (b - a)) (skipn (Z.to_nat a) l).
Proof.
  intros Hab Hb. unfold py_slice, slice_index.
  destruct (Z.ltb_spec a 0); [lia|]. destruct (Z.ltb_spec b 0); [lia|].
  rewrite !Z.min_l by lia. reflexivity.
Qed.

Lemma my_inputs_chunk {A} (nPE : Z) (inputs : list A) (r : Z) :
  1 <= nPE -> 0 <= r < nPE ->
  let d := Z.of_nat (List.length inputs) in
  my_inputs nPE r inputs =
  firstn (Z.to_nat (boundary nPE d (r + 1) - boundary nPE d r))
         (skipn (Z.to_nat (boundary nPE d r)) inputs).
Proof.
  intros Hn Hr d. unfold my_inputs. fold d.
  assert (Hd : 0 <= d) by (unfold d; lia).
  rewrite my_range_boundary by lia.
  pose proof (boundary_mono nPE d Hn Hd r ltac:(lia)).
  pose proof (boundary_nonneg nPE d Hn Hd r ltac:(lia)).
  pose proof (boundary_le_dims nPE d Hn Hd (r + 1) ltac:(lia)).
  rewrite py_slice_inner by (fold d; lia).
  do 2 f_equal. lia.
Qed.

Lemma concat_my_inputs_prefix {A} (nPE : Z) (inputs : list A) (k : nat) :
  1 <= nPE -> Z.of_nat k <= nPE ->
  concat (map (fun r => my_inputs nPE r inputs) (map Z.of_nat (seq 0 k))) =
  firstn (Z.to_nat (boundary nPE (Z.of_nat (List.length inputs)) (Z.of_nat k))) inputs.
Proof.
  intros Hn. induction k as [|k IH]; intros Hk.
  - simpl. rewrite boundary_0 by lia. reflexivity.
  - rewrite seq_S, !map_app, concat_app. simpl. rewrite app_nil_r.
    rewrite IH by lia.
    rewrite my_inputs_chunk by lia. cbv zeta.
    set (d := Z.of_nat (List.length inputs)).
    assert (Hd : 0 <= d) by (unfold d; lia).
    pose proof (boundary_mono nPE d Hn Hd (Z.of_nat k) ltac:(lia)).
    pose proof (boundary_nonneg nPE d Hn Hd (Z.of_nat k) ltac:(lia)).
    rewrite firstn_skipn_firstn. f_equal.
    change (Z.pos (Pos.of_succ_nat k)) with (Z.of_nat (S k)).
    rewrite Nat2Z.inj_succ. unfold Z.succ. lia.
Qed.

Lemma concat_my_inputs {A} (nPE : Z) (inputs : list A) :
  1 <= nPE ->
  concat (map (fun r => my_inputs nPE r inputs) (ranks nPE)) = inputs.
Proof.
  intros Hn. unfold ranks. rewrite concat_my_inputs_prefix by lia.
  rewrite Z2Nat.id by lia. rewrite boundary_nPE by lia.
  rewrite Nat2Z.id. apply firstn_all.
Qed.

Lemma my_range_fst nPE dims r : 0 <= r -> fst (my_range nPE r dims) = boundary nPE dims r.
Proof. intros Hr. now rewrite my_range_boundary. Qed.

Lemma my_range_snd nPE dims r :
  0 <= r -> snd (my_range nPE r dims) = boundary nPE dims (r + 1) - 1.
Proof. intros Hr. now rewrite my_range_boundary. Qed.

(** Every task index lies in the range of some rank below [k], as soon as
    it lies below the first index of rank [k]. *)
Lemma index_has_rank nPE dims (k : nat) (i : Z) :
  1 <= nPE -> 0 <= dims -> 0 <= i < boundary nPE dims (Z.of_nat k) ->
  exists r, 0 <= r < Z.of_nat k /\
            boundary nPE dims r <= i < boundary nPE dims (r + 1).
Proof.
intros Hn Hd. induction k as [|k IH]; intros Hi.
- simpl in Hi. rewrite boundary_0 in Hi by lia. lia.
- rewrite Nat2Z.inj_succ in Hi. unfold Z.succ in Hi.
  destruct (Z.lt_ge_cases i (boundary nPE dims (Z.of_nat k))) as [Hlt|Hge].
  + destruct IH as [r [Hr Hb]]; [lia|]. exists r. split; [lia|exact Hb].
  + exists (Z.of_nat k). split; [lia|]. lia.
Qed.

(** C9.  For [nPE >= 1] workers and the [dims = len(inputs)] tasks of
    [main], the ranges [(my_start, my_end)] that the ranks compute from
    [(nPE, myPE, dims)] alone are contiguous (rank 0 starts at 0, each rank
    starts right after the previous one ends, the last one ends at
    [dims - 1]), have [count + 1] tasks on the first [rem] ranks and
    [count] on the others, contain every task index in exactly one of
    them, and the slices [inputs[my_start:my_end+1]] put end to end are
    [inputs] itself.  For 10 tasks on 3 workers the ranges are 0..3, 4..6
    and 7..9. *)
Theorem block_partition_exact (nPE : Z) (A : Type) (inputs : list A) :
  1 <= nPE ->
  let dims := Z.of_nat (List.length inputs) in
  let my_start r := fst (my_range nPE r dims) in
  let my_end r := snd (my_range nPE r dims) in
  my_start 0 = 0 /\
  (forall r, 0 <= r < nPE - 1 -> my_start (r + 1) = my_end r + 1) /\
  my_end (nPE - 1) = dims - 1 /\
  (forall r, 0 <= r < nPE ->
     my_end r - my_start r + 1 =
     dims / nPE + (if r <? dims mod nPE then 1 else 0)) /\
  (forall i, 0 <= i < dims ->
     exists r, (0 <= r < nPE /\ my_start r <= i <= my_end r) /\
               forall r', 0 <= r' < nPE -> my_start r' <= i <= my_end r' -> r' = r) /\
  concat (map (fun r => my_inputs nPE r inputs) (ranks nPE)) = inputs /\
  map (fun r => my_range 3 r 10) (ranks 3) = [(0, 3); (4, 6); (7, 9)].
Proof.
intros Hn dims my_start my_end.
assert (Hd : 0 <= dims) by (unfold dims; lia).
unfold my_start, my_end.
split; [|split; [|split; [|split; [|split; [|split]]]]].
- rewrite my_range_fst by lia. apply boundary_0; lia.
- intros r Hr. rewrite my_range_fst, my_range_snd by lia. lia.
- rewrite my_range_snd by lia. replace (nPE - 1 + 1) with nPE by lia.
  rewrite boundary_nPE by lia. reflexivity.
- intros r Hr. rewrite my_range_fst, my_range_snd by lia.
  pose proof (boundary_step nPE dims r ltac:(lia)). lia.
- intros i Hi.
  destruct (index_has_rank nPE dims (Z.to_nat nPE) i Hn Hd) as [r [Hr Hb]].
  { rewrite Z2Nat.id by lia. rewrite boundary_nPE by lia. exact Hi. }
  rewrite Z2Nat.id in Hr by lia.
  exists r. split.
  + split; [exact Hr|]. rewrite my_range_fst, my_range_snd by lia. lia.
  + intros r' Hr'. rewrite my_range_fst, my_range_snd by lia. intros Hb'.
    destruct (Z.lt_trichotomy r' r) as [Hlt|[Heq|Hgt]]; [|exact Heq|].
    * pose proof (boundary_le nPE dims Hn Hd (r' + 1) r ltac:(lia)). lia.
    * pose proof (boundary_le nPE dims Hn Hd (r + 1) r' ltac:(lia)). lia.
- apply concat_my_inputs; exact Hn.
- reflexivity.
Qed.

(** Ten tasks on three workers: the hypothesis of [block_partition_exact]
    holds and its conclusion is the split 4, 3, 3. *)
Lemma block_partition_exact_witness :
  1 <= 3 /\
  concat (map (fun r => my_inputs 3 r (ranks 10)) (ranks 3)) = ranks 10 /\
  map (fun r => my_inputs 3 r (ranks 10)) (ranks 3) =
    [[0; 1; 2; 3]; [4; 5; 6]; [7; 8; 9]].
Proof.
split; [lia|]. split.
- exact (proj1 (proj2 (proj2 (proj2 (proj2 (proj2
    (block_partition_exact 3 Z (ranks 10) ltac:(lia)))))))).
- reflexivity.
Defined.

(** ** The mode check of [main] (claim C8) *)

Lemma mode_test_false (mode : string) :
  String.eqb mode "natural" && String.eqb mode "total" = false.
Proof.
destruct (String.eqb_spec mode "natural") as [->|]; reflexivity.
Qed.

(** C8, where the code departs from it.  The test of the mode,
    [mode == 'natural' and mode == 'total'], holds for no string, so
    [main] never raises its error about the mode: whatever the options,
    the configuration checks do not end with that error, and with a mode
    that is neither ['natural'] nor ['total'], a valid convolution mode,
    no target beam and some input file they succeed.  With
    [--mode foo] the run goes on through the masking and fails only in
    [commonbeamer], on the unbound variable [commonbeams], whatever the
    library does. *)
Theorem unknown_mode_is_not_rejected :
  (forall args : Args,
     main_config args <> Raise (Exception "'mode' must be 'natural' or 'total'")) /\
  (forall args : Args,
     String.eqb (arg_mode args) "natural" = false ->
     String.eqb (arg_mode args) "total" = false ->
     String.eqb (arg_conv_mode args) "robust" = true ->
     arg_bmaj args = None -> arg_bmin args = None -> arg_bpa args = None ->
     arg_infile args <> [] ->
     exists cfg, main_config args = Ok cfg /\ cfg_mode cfg = arg_mode args) /\
  main_config foo_args = Ok (mkConfig "foo" None "robust" None ["cube.fits"%string]) /\
  (forall beam_eq common_beam deconvolve convolve gauss_factor nchans verbose w w1,
     masking beam_eq nchans None w = (Ok tt, w1) ->
     verbose = true \/ datadict w1 <> [] ->
     plan beam_eq common_beam deconvolve convolve gauss_factor nchans foo_args
          (mkConfig "foo" None "robust" None ["cube.fits"%string]) verbose w =
     (Raise (UnboundLocalError "commonbeams"), w1)).
Proof.
split; [|split; [|split]].
- intros args. unfold main_config. rewrite mode_test_false.
  destruct (negb (String.eqb (arg_conv_mode args) "robust") && _ && _ && _);
    [intros H; discriminate|].
  destruct (negb (forallb id _) && _); [intros H; discriminate|].
  destruct (forallb id _).
  + destruct (sorted (arg_infile args)); intros H; discriminate.
  + destruct (existsb id _); [intros H; discriminate|].
    destruct (arg_bmaj args), (arg_bmin args), (arg_bpa args);
      try (destruct (sorted (arg_infile args)); intros H; discriminate).
    unfold Beam_new. destruct (q_gt _ _); [intros H; discriminate|].
    destruct (sorted (arg_infile args)); intros H; discriminate.
- intros args Hn Ht Hc Hmaj Hmin Hpa Hf. unfold main_config.
  rewrite mode_test_false, Hc, Hmaj, Hmin, Hpa. cbn.
  destruct (arg_infile args) as [|f fs] eqn:E; [now elim Hf|].
  assert (Hs : sorted (f :: fs) <> []).
  { unfold sorted. cbn [fold_right].
    destruct (fold_right insert_sorted [] fs) as [|x l]; cbn; [discriminate|].
    destruct (String.leb f x); discriminate. }
  destruct (sorted (f :: fs)) as [|x l] eqn:Es; [now elim Hs|].
  eexists. split; reflexivity.
- reflexivity.
- intros beam_eq common_beam deconvolve convolve gauss_factor nchans verbose w w1 Hm Hv.
  now apply plan_other_mode.
Qed.

(** [--mode foo] on a one-cube data dictionary: the hypotheses of the
    last part of [unknown_mode_is_not_rejected] hold. *)
Lemma unknown_mode_is_not_rejected_witness :
  plan Ref.beam_eq Ref.common_beam Ref.deconvolve Ref.convolve Ref.gauss_factor 2 foo_args
       (mkConfig "foo" None "robust" None ["cube.fits"%string]) false slip_world =
  (Raise (UnboundLocalError "commonbeams"), slip_world).
Proof.
apply (proj2 (proj2 (proj2 unknown_mode_is_not_rejected))).
- reflexivity.
- right. discriminate.
Defined.

(** ** Masking (claim C7) *)

(** A loop over the keys whose body rewrites the cube it visits. *)
Lemma forM_keys_map (body : nat -> M unit) (g : cube -> cube) (Pc : cube -> Prop) :
  (forall key c w, nth_error (datadict w) key = Some c -> Pc c ->
     body key w = (Ok tt, put_dd w (list_update (datadict w) key (g c)))) ->
  forall post pre w, Forall Pc post -> datadict w = pre ++ post ->
    forM_ (seq (List.length pre) (List.length post)) body w =
    (Ok tt, put_dd w (pre ++ map g post)).
Proof.
intros Hbody. induction post as [|c post IH]; intros pre w HP Hw.
- simpl. unfold ret, put_dd. rewrite app_nil_r in *. rewrite <- Hw.
  now destruct w.
- inversion HP as [|? ? Hc HP']; subst. cbn [List.length seq forM_].
  erewrite bind_ok.
  2:{ apply Hbody; [|exact Hc]. rewrite Hw. apply nth_error_middle. }
  rewrite Hw, list_update_app.
  replace (S (List.length pre)) with (List.length (pre ++ [g c]))
    by (rewrite length_app; simpl; lia).
  rewrite (IH (pre ++ [g c])); [|exact HP'|].
  + unfold put_dd. simpl. now rewrite <- app_assoc.
  + simpl. now rewrite <- app_assoc.
Qed.

Lemma forM_keys_map_all (body : nat -> M unit) (g : cube -> cube) (Pc : cube -> Prop) w :
  (forall key c w, nth_error (datadict w) key = Some c -> Pc c ->
     body key w = (Ok tt, put_dd w (list_update (datadict w) key (g c)))) ->
  Forall Pc (datadict w) ->
  (dd <- get_datadict ;; forM_ (keys dd) body) w =
  (Ok tt, put_dd w (map g (datadict w))).
Proof.
intros Hbody HP. erewrite bind_ok by reflexivity.
exact (forM_keys_map body g Pc Hbody (datadict w) [] w HP eq_refl).
Qed.

Lemma zip_or_length (a b : list bool) :
  List.length a = List.length b -> List.length (zip_or a b) = List.length a.
Proof.
revert b. induction a as [|x a IH]; intros [|y b] H; simpl in *; try discriminate;
  [reflexivity|]. f_equal. apply IH. lia.
Qed.

Lemma zip_or_repeat_false (n : nat) (l : list bool) :
  List.length l = n -> zip_or (repeat false n) l = l.
Proof.
revert n. induction l as [|x l IH]; intros n H; simpl in H; subst n; simpl;
  [reflexivity|]. f_equal. now apply IH.
Qed.

Lemma zip_or_map {A} (f g : A -> bool) (l : list A) :
  zip_or (map f l) (map g l) = map (fun x => f x || g x) l.
Proof. induction l as [|x l IH]; simpl; [reflexivity | now rewrite IH]. Qed.

Lemma iadd_mask_same_length (m o : list bool) :
  List.length o = List.length m -> iadd_mask m o = Ok (zip_or m o).
Proof. intros H. unfold iadd_mask. now rewrite H, Nat.eqb_refl. Qed.

Lemma zip_beams_majors u1 u2 u3 (f : Quantity -> bool) (l1 l2 l3 : list float64) :
  List.length l2 = List.length l1 -> List.length l3 = List.length l1 ->
  map (fun v => f (mkQuantity v u1)) l1 =
  map (fun b => f (major b)) (zip_beams u1 u2 u3 l1 l2 l3) /\
  List.length (zip_beams u1 u2 u3 l1 l2 l3) = List.length l1.
Proof.
revert l2 l3. induction l1 as [|x l1 IH]; intros [|y l2] [|z l3] H2 H3;
  simpl in *; try discriminate; [now split|].
destruct (IH l2 l3) as [E L]; [lia|lia|]. split; [now rewrite E | now rewrite L].
Qed.

Lemma cutmask_of_beams nchans c cutoff :
  well_shaped nchans c ->
  cutmask_of (beams c) cutoff =
  map (fun b => q_gt (major b) cutoff) (beams_iter (beams c)) /\
  List.length (beams_iter (beams c)) = nchans.
Proof.
intros (H1 & H2 & H3). unfold cutmask_of, beams_iter.
destruct (zip_beams_majors (aunit (majors (beams c))) (aunit (minors (beams c)))
            (aunit (pas (beams c))) (fun q => q_gt q cutoff)
            (values (majors (beams c))) (values (minors (beams c)))
            (values (pas (beams c)))) as [E L]; [congruence|congruence|].
split; [exact E | congruence].
Qed.

Lemma init_masks_run nchans w :
  init_masks nchans w =
  (Ok tt, put_dd w (map (fun c => set_mask c (repeat false nchans)) (datadict w))).
Proof.
unfold init_masks.
apply (forM_keys_map_all _ (fun c => set_mask c (repeat false nchans)) (fun _ => True)).
- intros key c w0 E _. unfold bind, get_cube. now rewrite E.
- apply Forall_forall. intros; exact I.
Qed.

Lemma add_cutmasks_run nchans cutoff w :
  Forall (fun c => well_shaped nchans c /\ List.length (mask c) = nchans) (datadict w) ->
  add_cutmasks cutoff w =
  (Ok tt, put_dd w (map (fun c => set_mask c
                       (zip_or (mask c)
                          (map (fun b => q_gt (major b) cutoff) (beams_iter (beams c)))))
                     (datadict w))).
Proof.
intros H. unfold add_cutmasks.
apply (forM_keys_map_all _
         (fun c => set_mask c
            (zip_or (mask c)
               (map (fun b => q_gt (major b) cutoff) (beams_iter (beams c)))))
         (fun c => well_shaped nchans c /\ List.length (mask c) = nchans) w);
  [|exact H].
intros key c w0 E [Hs Hm]. unfold bind at 1, get_cube. rewrite E.
destruct (cutmask_of_beams nchans c cutoff Hs) as [Ec Lc].
rewrite Ec. rewrite iadd_mask_same_length by (rewrite length_map; congruence).
reflexivity.
Qed.

Section MaskingFacts.

Variable beam_eq : Beam -> Beam -> bool.

Lemma add_nullmasks_run nchans w :
  Forall (fun c => well_shaped nchans c /\ List.length (mask c) = nchans) (datadict w) ->
  add_nullmasks beam_eq w =
  (Ok tt, put_dd w (map (fun c => set_mask c
                       (zip_or (mask c)
                          (map (fun b => beam_eq b nullbeam) (beams_iter (beams c)))))
                     (datadict w))).
Proof.
intros H. unfold add_nullmasks.
apply (forM_keys_map_all _
         (fun c => set_mask c
            (zip_or (mask c)
               (map (fun b => beam_eq b nullbeam) (beams_iter (beams c)))))
         (fun c => well_shaped nchans c /\ List.length (mask c) = nchans) w);
  [|exact H].
intros key c w0 E [Hs Hm]. unfold bind at 1, get_cube. rewrite E.
destruct (cutmask_of_beams nchans c (mkQuantity NaN deg) Hs) as [_ Lc].
unfold nullmask_of.
rewrite iadd_mask_same_length by (rewrite length_map; congruence).
reflexivity.
Qed.

Lemma set_mask_set_mask c a b : set_mask (set_mask c a) b = set_mask c b.
Proof. reflexivity. Qed.

Lemma well_shaped_set_mask nchans c m : well_shaped nchans (set_mask c m) <-> well_shaped nchans c.
Proof. reflexivity. Qed.

Lemma put_dd_put_dd w a b : put_dd (put_dd w a) b = put_dd w b.
Proof. reflexivity. Qed.

Lemma Forall_map_shape nchans (g : cube -> list bool) (dd : list cube) :
  Forall (well_shaped nchans) dd ->
  (forall c, well_shaped nchans c -> List.length (g c) = nchans) ->
  Forall (fun c => well_shaped nchans c /\ List.length (mask c) = nchans)
         (map (fun c => set_mask c (g c)) dd).
Proof.
intros H Hg. apply Forall_forall. intros c' Hin.
apply in_map_iff in Hin as [c [<- Hc]].
rewrite Forall_forall in H. split; [exact (H c Hc) | exact (Hg c (H c Hc))].
Qed.

Lemma beams_iter_length nchans c :
  well_shaped nchans c -> List.length (beams_iter (beams c)) = nchans.
Proof. intros H. exact (proj2 (cutmask_of_beams nchans c (mkQuantity NaN deg) H)). Qed.

Lemma masking_run nchans cutoff w :
  Forall (well_shaped nchans) (datadict w) ->
  masking beam_eq nchans cutoff w = (Ok tt, put_dd w (map (with_mask beam_eq cutoff) (datadict w))).
Proof.
intros H. unfold masking.
rewrite (bind_ok _ _ _ _ _ (init_masks_run nchans w)).
set (w1 := put_dd w (map (fun c => set_mask c (repeat false nchans)) (datadict w))).
assert (H1 : Forall (fun c => well_shaped nchans c /\ List.length (mask c) = nchans)
                    (datadict w1)).
{ apply Forall_map_shape; [exact H|]. intros c _. apply repeat_length. }
destruct cutoff as [cutoff|].
- rewrite (bind_ok _ _ _ _ _ (add_cutmasks_run nchans cutoff w1 H1)).
  set (w2 := put_dd w1 _).
  assert (H2 : Forall (fun c => well_shaped nchans c /\ List.length (mask c) = nchans)
                      (datadict w2)).
  { unfold w2, w1. cbn [datadict put_dd]. rewrite map_map.
    apply Forall_map_shape; [exact H|]. intros c Hc. cbn [mask set_mask beams].
    rewrite zip_or_length; rewrite ?repeat_length, ?length_map; try reflexivity.
    symmetry. now apply beams_iter_length. }
  rewrite (add_nullmasks_run nchans w2 H2).
  unfold w2, w1. cbn [datadict put_dd]. rewrite !put_dd_put_dd. f_equal. f_equal.
  rewrite !map_map. apply map_ext_in. intros c Hc.
  rewrite Forall_forall in H. specialize (H c Hc).
  unfold with_mask, masked. cbn [mask set_mask beams]. rewrite !set_mask_set_mask.
  f_equal. rewrite zip_or_repeat_false
    by (rewrite length_map; now apply beams_iter_length).
  apply zip_or_map.
- erewrite bind_ok by reflexivity.
  rewrite (add_nullmasks_run nchans w1 H1).
  unfold w1. cbn [datadict put_dd]. rewrite !put_dd_put_dd. f_equal. f_equal.
  rewrite !map_map. apply map_ext_in. intros c Hc.
  rewrite Forall_forall in H. specialize (H c Hc).
  unfold with_mask, masked. cbn [mask set_mask beams]. rewrite !set_mask_set_mask.
  f_equal. rewrite zip_or_repeat_false
    by (rewrite length_map; now apply beams_iter_length).
  reflexivity.
Qed.

Lemma masking_null_first_run nchans cutoff w :
  Forall (well_shaped nchans) (datadict w) ->
  masking_null_first beam_eq nchans cutoff w =
  (Ok tt, put_dd w (map (with_mask beam_eq cutoff) (datadict w))).
Proof.
intros H. unfold masking_null_first.
rewrite (bind_ok _ _ _ _ _ (init_masks_run nchans w)).
set (w1 := put_dd w (map (fun c => set_mask c (repeat false nchans)) (datadict w))).
assert (H1 : Forall (fun c => well_shaped nchans c /\ List.length (mask c) = nchans)
                    (datadict w1)).
{ apply Forall_map_shape; [exact H|]. intros c _. apply repeat_length. }
rewrite (bind_ok _ _ _ _ _ (add_nullmasks_run nchans w1 H1)).
set (w2 := put_dd w1 _).
assert (H2 : Forall (fun c => well_shaped nchans c /\ List.length (mask c) = nchans)
                    (datadict w2)).
{ unfold w2, w1. cbn [datadict put_dd]. rewrite map_map.
  apply Forall_map_shape; [exact H|]. intros c Hc. cbn [mask set_mask beams].
  rewrite zip_or_length; rewrite ?repeat_length, ?length_map; try reflexivity.
  symmetry. now apply beams_iter_length. }
assert (E : forall c, In c (datadict w) ->
          set_mask c (zip_or (repeat false nchans)
                        (map (fun b => beam_eq b nullbeam) (beams_iter (beams c)))) =
          set_mask c (map (fun b => beam_eq b nullbeam) (beams_iter (beams c)))).
{ intros c Hc. rewrite Forall_forall in H. specialize (H c Hc).
  now rewrite zip_or_repeat_false by (rewrite length_map; now apply beams_iter_length). }
destruct cutoff as [cutoff|].
- rewrite (add_cutmasks_run nchans cutoff w2 H2).
  unfold w2, w1. cbn [datadict put_dd]. rewrite !put_dd_put_dd. f_equal. f_equal.
  rewrite !map_map. apply map_ext_in. intros c Hc.
  unfold with_mask, masked. cbn [mask set_mask beams]. rewrite !set_mask_set_mask.
  f_equal. injection (E c Hc) as ->.
  rewrite zip_or_map. apply map_ext. intros b. apply orb_comm.
- unfold ret, w2, w1. cbn [datadict put_dd]. rewrite !put_dd_put_dd. f_equal. f_equal.
  rewrite !map_map. apply map_ext_in. intros c Hc.
  unfold with_mask, masked. cbn [mask set_mask beams]. rewrite !set_mask_set_mask.
  f_equal. now injection (E c Hc) as ->.
Qed.

Lemma in_combine_map {A B} (f : A -> B) (l : list A) (x : A) (y : B) :
  In (x, y) (combine l (map f l)) -> y = f x /\ In x l.
Proof.
induction l as [|a l IH]; [intros []|].
intros [H|H].
- injection H as -> <-. split; [reflexivity | now left].
- destruct (IH H) as [E Hin]. split; [exact E | now right].
Qed.

Lemma with_mask_idem cutoff c : with_mask beam_eq cutoff (with_mask beam_eq cutoff c) = with_mask beam_eq cutoff c.
Proof. reflexivity. Qed.

(** C7, as the code has it.  On cubes whose three beam arrays have one
    entry per channel, [masking] succeeds and sets every cube's mask to
    the entry-wise "or" of two tests of the stored beam: its major axis
    is over the cutoff (when a cutoff is given), or the library's
    comparison finds it equal to the null beam; the stored beams are
    left as they are.  A [NaN] major axis is over no cutoff.  Masking
    the result again gives the same world, and so does running the two
    sources in the other order.  For major axes 10, 12, [NaN] and 15
    arcsec and a cutoff of 14 arcsec the mask is
    [False, False, False, True] as soon as the comparison tells the
    four beams from the null beam.  All this holds whatever the
    comparison of the library takes for equal. *)
Theorem masking_is_union_of_cutoff_and_null
  (nchans : nat) (cutoff : option Quantity) (w : world) :
  Forall (well_shaped nchans) (datadict w) ->
  let w' := put_dd w (map (with_mask beam_eq cutoff) (datadict w)) in
  masking beam_eq nchans cutoff w = (Ok tt, w') /\
  (forall c c', In (c, c') (combine (datadict w) (datadict w')) ->
     mask c' = map (fun b => match cutoff with
                             | Some q => q_gt (major b) q
                             | None => false
                             end || beam_eq b nullbeam)
                   (beams_iter (beams c)) /\
     beams c' = beams c) /\
  (forall (b : Beam) (q : Quantity), value (major b) = NaN -> q_gt (major b) q = false) /\
  masking beam_eq nchans cutoff w' = (Ok tt, w') /\
  masking_null_first beam_eq nchans cutoff w = (Ok tt, w') /\
  (Forall (fun b => beam_eq b nullbeam = false) (beams_iter example_beams) ->
   map mask (datadict (snd (masking beam_eq 4 (Some example_cutoff) example_world))) =
     [[false; false; false; true]]).
Proof.
intros H w'. split; [|split; [|split; [|split; [|split]]]].
- now apply masking_run.
- intros c c' Hin. unfold w' in Hin. cbn [datadict put_dd] in Hin.
  apply in_combine_map in Hin as [-> _]. now split.
- intros b q Hb. unfold q_gt, fgt, flt. rewrite Hb. now destruct (value (to _ q)).
- rewrite masking_run.
  + unfold w'. cbn [datadict put_dd]. rewrite put_dd_put_dd, map_map. reflexivity.
  + unfold w'. cbn [datadict put_dd]. apply Forall_forall. intros c' Hin.
    apply in_map_iff in Hin as [c [<- Hc]]. rewrite Forall_forall in H. exact (H c Hc).
- now apply masking_null_first_run.
- intros Hex. rewrite (masking_run 4 (Some example_cutoff) example_world)
    by (repeat constructor).
  cbn [snd datadict put_dd example_world map with_mask mask set_mask beams].
  rewrite (map_ext_in (masked beam_eq (Some example_cutoff))
             (fun b => q_gt (major b) example_cutoff)).
  + reflexivity.
  + intros b Hb. rewrite Forall_forall in Hex. unfold masked.
    rewrite (Hex b Hb). apply orb_false_r.
Qed.

End MaskingFacts.

(** The example cube satisfies the hypotheses of
    [masking_is_union_of_cutoff_and_null], with the comparison of
    [Ref]. *)
Lemma masking_is_union_of_cutoff_and_null_witness :
  masking Ref.beam_eq 4 (Some example_cutoff) example_world =
  (Ok tt, put_dd example_world
            (map (with_mask Ref.beam_eq (Some example_cutoff)) (datadict example_world))) /\
  map mask (datadict (snd (masking Ref.beam_eq 4 (Some example_cutoff) example_world))) =
    [[false; false; false; true]].
Proof.
pose proof (masking_is_union_of_cutoff_and_null Ref.beam_eq 4 (Some example_cutoff)
              example_world ltac:(repeat constructor)) as H.
split.
- exact (proj1 H).
- apply (proj2 (proj2 (proj2 (proj2 (proj2 H))))). repeat constructor.
Defined.

(** C7 as stated fails on the example of the specification: the channel
    whose major axis is [NaN] is not masked.  The comparison is the one
    of [Ref]; any comparison that tells the four beams of the example
    from the null beam gives the same mask. *)
Lemma masking_example_nan_channel_unmasked :
  map mask (datadict (snd (masking Ref.beam_eq 4 (Some example_cutoff) example_world))) =
  [[false; false; false; true]] /\
  map mask (datadict (snd (masking Ref.beam_eq 4 (Some example_cutoff) example_world))) <>
  [[false; false; true; true]].
Proof. split; [vm_compute; reflexivity | vm_compute; discriminate]. Qed.

(** ** Concrete runs with the reference instance *)

(** The first part of [common_beam_search_retried_once] on [crossed_set]:
    two calls, the second one at a tenth of the tolerance, and the second
    failure is the outcome. *)
Lemma common_beam_search_retried_once_witness :
  find_common_beam Ref.common_beam slip_args crossed_set slip_world =
  (Raise BeamError,
   with_trace slip_world
     [ev_common_beam crossed_set (1 # 10000) 200 (5 # 10000);
      ev_common_beam crossed_set ((1 # 10000) * (1 # 10)) 200 (5 # 10000)]).
Proof.
exact (proj1 (common_beam_search_retried_once Ref.common_beam Ref.deconvolve
                Ref.convolve Ref.gauss_factor slip_args crossed_set slip_world)
             eq_refl).
Defined.

(** The second part of [target_beam_kept_or_fatal] with the ['scipy']
    convolution: the convolving beam is 6 arcsec wide, half a pixel, and
    the run ends with the under-sampling exception. *)
Lemma target_beam_kept_or_fatal_witness :
  fst (commonbeamer Ref.common_beam Ref.deconvolve Ref.convolve Ref.gauss_factor
         1 (coarse_args "scipy") "scipy" "total" (Some target10) false coarse_world) =
  Raise (Exception "CAN'T UNDERSAMPLE BEAM - EXITING").
Proof.
eapply (proj1 (proj2 (target_beam_kept_or_fatal Ref.common_beam Ref.deconvolve
                        Ref.convolve Ref.gauss_factor 1 (coarse_args "scipy") "scipy"
                        target10 false coarse_world))).
- reflexivity.
- vm_compute. reflexivity.
- vm_compute. reflexivity.
- vm_compute. reflexivity.
- vm_compute. reflexivity.
- vm_compute. reflexivity.
- vm_compute. reflexivity.
Defined.

(** C2 as stated fails with the ['robust'] convolution: the target beam
    is smaller than the guard beam, whether that is built from the target
    (26 arcsec) or from the solved beam (25.3 arcsec), and the run
    succeeds with the target beam as the common beam. *)
Lemma robust_mode_accepts_target_below_guard_beam :
  beam_lt target10 (round_beam (Ref.convolve target10 (nyq_con_beam coarse_grid))) = true /\
  beam_lt target10
    (round_beam (Ref.convolve (round_beam coarse_beam) (nyq_con_beam coarse_grid))) = true /\
  main_config (coarse_args "robust") =
    Ok (mkConfig "total" None "robust" (Some target10) ["image.fits"%string]) /\
  fst (commonbeamer Ref.common_beam Ref.deconvolve Ref.convolve Ref.gauss_factor
         1 (coarse_args "robust") "robust" "total" (Some target10) false coarse_world) =
  Ok tt /\
  map commonbeams
    (datadict
       (snd (commonbeamer Ref.common_beam Ref.deconvolve Ref.convolve Ref.gauss_factor
               1 (coarse_args "robust") "robust" "total" (Some target10) false
               coarse_world))) =
  [Some (beams_of_values [target10] target10)].
Proof. repeat split; vm_compute; reflexivity. Qed.

(** [total_mode_overwrites_stored_beams] on the cube of
    [flagged_world], whose second channel is masked: the mask is the one
    [masking] sets, the run in total mode returns, and the stored beam
    of the second channel, the null beam before the call, is all [NaN]
    after it. *)
Lemma total_mode_overwrites_stored_beams_witness :
  masking Ref.beam_eq 2 None flagged_world = (Ok tt, flagged_world) /\
  fst (commonbeamer Ref.common_beam Ref.deconvolve Ref.convolve Ref.gauss_factor
         2 slip_args "robust" "total" None false flagged_world) = Ok tt /\
  map beams (datadict flagged_world) = [flagged_beams] /\
  map beams
    (datadict
       (snd (commonbeamer Ref.common_beam Ref.deconvolve Ref.convolve Ref.gauss_factor
               2 slip_args "robust" "total" None false flagged_world))) =
  [mkBeams (mkQArray [Fin (995 # 100); NaN] arcsec)
           (mkQArray [Fin (495 # 100); NaN] arcsec)
           (mkQArray [Fin 0; NaN] deg)].
Proof.
split; [reflexivity|]. split; [vm_compute; reflexivity|]. split; [reflexivity|].
exact (proj1 (proj2 (proj2
         (total_mode_overwrites_stored_beams Ref.common_beam Ref.deconvolve
            Ref.convolve Ref.gauss_factor 2 slip_args "robust" None false flagged_world
            ltac:(repeat constructor))))).
Defined.

(** [total_mode_all_nan_runs_search] on [blank_world]: the reference
    search has no largest beam to return for the empty set, and the run
    ends with its [ValueError]. *)
Lemma total_mode_all_nan_runs_search_witness :
  masking Ref.beam_eq 1 None blank_world = (Ok tt, blank_world) /\
  commonbeamer Ref.common_beam Ref.deconvolve Ref.convolve Ref.gauss_factor
    1 slip_args "robust" "total" None false blank_world =
  (Raise (ValueError "attempt to get argmax of an empty sequence"),
   with_trace (mkWorld [set_beams (hd slip_cube (datadict blank_world)) blank_set] [] [])
     [ev_common_beam (no_beams blank_set) (1 # 10000) 200 (5 # 10000)]).
Proof.
split; [reflexivity|].
refine (proj1 (total_mode_all_nan_runs_search Ref.common_beam Ref.deconvolve
                 Ref.convolve Ref.gauss_factor 1 slip_args "robust" None false
                 blank_world blank_set _ _ _) _ _ _).
- vm_compute. reflexivity.
- reflexivity.
- reflexivity.
- reflexivity.
Defined.

(** [natural_log_replay_changes_units] with the reference instance, which
    returns the only beam of [slip_set] and deconvolves channel 0. *)
Lemma natural_log_replay_changes_units_witness :
  planned_major
    (snd (commonbeamer Ref.common_beam Ref.deconvolve Ref.convolve Ref.gauss_factor
            2 slip_args "robust" "natural" None false slip_world)) 0 =
  Some (mkQuantity (Fin (100 # 10)) deg) /\
  planned_major
    (snd (readlogs "natural" false
            (snd (commonbeamer Ref.common_beam Ref.deconvolve Ref.convolve
                    Ref.gauss_factor 2 slip_args "robust" "natural" None false
                    slip_world)))) 0 =
  Some (mkQuantity (Fin (100 # 10)) arcsec).
Proof.
assert (H1 : Ref.common_beam slip_set (1 # 10000) 200 (5 # 10000) = Ok slip_beam)
  by reflexivity.
destruct (Ref.deconvolve slip_common slip_beam) as [d|e] eqn:H2;
  [|vm_compute in H2; discriminate].
pose proof (natural_log_replay_changes_units Ref.common_beam Ref.deconvolve
              Ref.convolve Ref.gauss_factor d false H1 H2) as H.
cbv zeta in H. destruct H as (_ & _ & Hp & Hr & _).
split; [exact Hp | exact Hr].
Defined.

(** ** [cpu_to_use] *)

Lemma in_py_range (a b i : Z) : In i (py_range a b) <-> a <= i < b.
Proof.
unfold py_range. rewrite in_map_iff. split.
- intros [k [<- Hk]]. apply in_seq in Hk. lia.
- intros H. exists (Z.to_nat (i - a)). split; [lia|]. apply in_seq. lia.
Qed.

Lemma fold_left_max_spec (l : list Z) (x : Z) :
  In (fold_left Z.max l x) (x :: l) /\
  forall y, In y (x :: l) -> y <= fold_left Z.max l x.
Proof.
revert x. induction l as [|a l IH]; intros x; simpl.
- split; [now left|]. intros y [->|[]]. lia.
- destruct (IH (Z.max x a)) as [Hin Hmax]. split.
  + destruct Hin as [E|Hin]; [|now right; right].
    rewrite <- E. destruct (Z.max_spec x a) as [[_ ->]|[_ ->]]; [right|]; now left.
  + intros y [->|[->|Hy]].
    * specialize (Hmax (Z.max y a) (or_introl eq_refl)). lia.
    * specialize (Hmax (Z.max x y) (or_introl eq_refl)). lia.
    * apply Hmax. now right.
Qed.

(** The candidates of [cpu_to_use]: the divisors of [count] between 1 and
    [max_cpu]. *)
Lemma cpu_candidates (max_cpu count d : Z) :
  In d (filter (fun f => f <=? max_cpu)
          (filter (fun i => count mod i =? 0) (py_range 1 (count + 1)))) <->
  1 <= d <= count /\ count mod d = 0 /\ d <= max_cpu.
Proof.
rewrite !filter_In, in_py_range, Z.eqb_eq, Z.leb_le. lia.
Qed.

(** X1.  With at least one task and at least one core allowed,
    [cpu_to_use] returns the greatest divisor of the number of tasks that
    does not exceed [max_cpu]. *)
Theorem cpu_to_use_greatest_divisor (max_cpu count : Z) :
  1 <= max_cpu -> 1 <= count ->
  exists n, cpu_to_use max_cpu count = Ok n /\
            1 <= n <= max_cpu /\ (n | count) /\
            forall d, 1 <= d <= max_cpu -> (d | count) -> d <= n.
Proof.
intros Hm Hc. unfold cpu_to_use.
pose proof (cpu_candidates max_cpu count) as Hcand.
destruct (filter _ (filter _ _)) as [|x l] eqn:E.
- exfalso. apply (proj2 (Hcand 1)). split; [lia|]. split; [apply Z.mod_1_r | lia].
- simpl. destruct (fold_left_max_spec l x) as [Hin Hmax].
  exists (fold_left Z.max l x). split; [reflexivity|].
  apply Hcand in Hin as (Hn & Hmod & Hle).
  split; [lia|]. split.
  + apply Z.mod_divide; [lia | exact Hmod].
  + intros d Hd Hdiv. apply Hmax. apply Hcand.
    split; [|split; [|lia]].
    * split; [lia|]. apply Z.divide_pos_le; [lia | exact Hdiv].
    * apply Z.mod_divide; [lia | exact Hdiv].
Qed.

(** Ten tasks on at most four cores: two cores. *)
Lemma cpu_to_use_greatest_divisor_witness :
  exists n, cpu_to_use 4 10 = Ok n /\
            1 <= n <= 4 /\ (n | 10) /\
            forall d, 1 <= d <= 4 -> (d | 10) -> d <= n.
Proof. apply (cpu_to_use_greatest_divisor 4 10); lia. Defined.

(** X2.  [cpu_to_use] fails exactly when there is no task or no core:
    the set of candidates is then empty and [max] raises its
    [ValueError]; it raises nothing else. *)
Theorem cpu_to_use_fails_without_task_or_core (max_cpu count : Z) (e : exn) :
  cpu_to_use max_cpu count = Raise e <->
  (count < 1 \/ max_cpu < 1) /\ e = ValueError "max() arg is an empty sequence".
Proof.
split.
- intros H. destruct (Z.lt_ge_cases count 1) as [Hc|Hc];
    [|destruct (Z.lt_ge_cases max_cpu 1) as [Hm|Hm]].
  + split; [now left|]. revert H. unfold cpu_to_use.
    destruct (filter _ (filter _ _)); simpl; congruence.
  + split; [now right|]. revert H. unfold cpu_to_use.
    destruct (filter _ (filter _ _)); simpl; congruence.
  + destruct (cpu_to_use_greatest_divisor max_cpu count) as [n [E _]]; [lia|lia|].
    congruence.
- intros [H ->]. unfold cpu_to_use.
  pose proof (cpu_candidates max_cpu count) as Hcand.
  destruct (filter _ (filter _ _)) as [|x l]; [reflexivity|].
  exfalso. specialize (proj1 (Hcand x) (or_introl eq_refl)). lia.
Qed.

(** ** The configuration checks of [main], in full *)

Lemma insert_sorted_not_nil s l : insert_sorted s l <> [].
Proof. destruct l as [|x l]; simpl; [|destruct (String.leb s x)]; discriminate. Qed.

Lemma sorted_nil_iff (l : list string) : sorted l = [] <-> l = [].
Proof.
split; [|now intros ->]. destruct l as [|s l]; [reflexivity|].
simpl. intros H. now apply insert_sorted_not_nil in H.
Qed.

Lemma conv_mode_test (m : string) :
  negb (String.eqb m "robust") && negb (String.eqb m "scipy") &&
  negb (String.eqb m "astropy") && negb (String.eqb m "astropy_fft") = false <->
  In m ["robust"; "scipy"; "astropy"; "astropy_fft"]%string.
Proof.
simpl.
destruct (String.eqb_spec m "robust"); [subst; simpl; tauto|].
destruct (String.eqb_spec m "scipy"); [subst; simpl; tauto|].
destruct (String.eqb_spec m "astropy"); [subst; simpl; tauto|].
destruct (String.eqb_spec m "astropy_fft"); [subst; simpl; tauto|].
simpl. split; [discriminate|]. intros [H|[H|[H|[H|[]]]]]; congruence.
Qed.

Lemma fgt_not_above (b a : float64) : fgt b a = false <-> not_above b a.
Proof.
unfold fgt, flt, not_above. destruct a as [|x], b as [|y]; try tauto.
rewrite negb_false_iff. apply Qle_bool_iff.
Qed.

Lemma Beam_new_arcsec (a b p : float64) :
  Beam_new (mkQuantity a arcsec) (mkQuantity b arcsec) (mkQuantity p deg) =
  if fgt b a
  then Raise (ValueError "Minor axis greater than major axis.")
  else Ok (mkBeam (mkQuantity a arcsec) (mkQuantity b arcsec) (mkQuantity p deg)).
Proof. reflexivity. Qed.

(** X3.  The configuration checks of [main] accept the options exactly
    when the convolution mode is one of the four known ones, there is at
    least one input file, and the target beam is either left out
    altogether or given in full, in total mode, with a minor axis that
    is not greater than the major axis: [bmin <= bmaj] for two numbers,
    and any values as soon as one of the two is [NaN], which the
    comparison of the constructor lets through.  The configuration they
    return is then the mode and the convolution mode as given (the mode
    is not looked at when no target beam is given), the cutoff in
    arcsec, the sorted files, and the target beam in arcsec, arcsec and
    degrees. *)
Theorem main_config_accepts_exactly (args : Args) (cfg : Config) :
  main_config args = Ok cfg <->
  In (arg_conv_mode args) ["robust"; "scipy"; "astropy"; "astropy_fft"]%string /\
  arg_infile args <> [] /\
  cfg_mode cfg = arg_mode args /\
  cfg_conv_mode cfg = arg_conv_mode args /\
  cfg_cutoff cfg = option_map (fun c => mkQuantity c arcsec) (arg_cutoff args) /\
  cfg_files cfg = sorted (arg_infile args) /\
  ((arg_bmaj args = None /\ arg_bmin args = None /\ arg_bpa args = None /\
    cfg_target_beam cfg = None) \/
   (arg_mode args = "total"%string /\
    exists a b p, arg_bmaj args = Some a /\ arg_bmin args = Some b /\
                  arg_bpa args = Some p /\ not_above b a /\
                  cfg_target_beam cfg =
                  Some (mkBeam (mkQuantity a arcsec) (mkQuantity b arcsec)
                               (mkQuantity p deg)))).
Proof.
unfold main_config. rewrite mode_test_false.
rewrite <- conv_mode_test.
destruct (negb (String.eqb (arg_conv_mode args) "robust") &&
          negb (String.eqb (arg_conv_mode args) "scipy") &&
          negb (String.eqb (arg_conv_mode args) "astropy") &&
          negb (String.eqb (arg_conv_mode args) "astropy_fft")) eqn:Hcm.
{ split; [discriminate | intros [H _]; discriminate]. }
assert (Hfiles : forall t,
  match sorted (arg_infile args) with
  | [] => Raise (Exception "No files found!")
  | _ :: _ => Ok (mkConfig (arg_mode args)
                    (match arg_cutoff args with
                     | Some c => Some (mkQuantity c arcsec)
                     | None => None
                     end) (arg_conv_mode args) t (sorted (arg_infile args)))
  end = Ok cfg <->
  arg_infile args <> [] /\ cfg_mode cfg = arg_mode args /\
  cfg_conv_mode cfg = arg_conv_mode args /\
  cfg_cutoff cfg = option_map (fun c => mkQuantity c arcsec) (arg_cutoff args) /\
  cfg_files cfg = sorted (arg_infile args) /\ cfg_target_beam cfg = t).
{ intros t. pose proof (sorted_nil_iff (arg_infile args)) as Hs.
  destruct (sorted (arg_infile args)) as [|f fs] eqn:Es.
  - split; [discriminate|]. intros [H _]. now elim H; apply Hs.
  - split.
    + intros H. injection H as <-. simpl.
      split; [intros E; apply Hs in E; discriminate|].
      destruct (arg_cutoff args); repeat split; reflexivity.
    + intros (_ & H1 & H2 & H3 & H4 & H5). destruct cfg as [m c cm t' fl].
      simpl in *. subst. reflexivity. }
destruct (arg_bmaj args) as [a|], (arg_bmin args) as [b|], (arg_bpa args) as [p|];
  cbn [is_None forallb existsb id andb orb negb].
all: try (split; [discriminate|];
          intros (_ & _ & _ & _ & _ & _ & [(? & ? & ? & _)|(_ & ? & ? & ? & ? & ? & ? & _)]);
          congruence).
all: try (destruct (String.eqb (arg_mode args) "total");
          cbn [negb]; (split; [discriminate|]);
          intros (_ & _ & _ & _ & _ & _ & [(? & ? & ? & _)|(_ & ? & ? & ? & ? & ? & ? & _)]);
          congruence).
- (* a full target beam *)
  destruct (String.eqb_spec (arg_mode args) "total") as [Hm|Hm]; cbn [negb].
  + rewrite Beam_new_arcsec. destruct (fgt b a) eqn:Hgt.
    * split; [discriminate|].
      intros (_ & _ & _ & _ & _ & _ & [(? & _)|(_ & a' & b' & p' & Ea & Eb & Ep & Hab & _)]);
        [discriminate|].
      injection Ea as <-. injection Eb as <-.
      apply fgt_not_above in Hab. congruence.
    * cbv beta iota zeta. rewrite Hfiles. apply fgt_not_above in Hgt.
      split.
      -- intros (H0 & H1 & H2 & H3 & H4 & H5). repeat split; try assumption.
         right. split; [exact Hm|]. exists a, b, p. repeat split; try assumption.
      -- intros (_ & H0 & H1 & H2 & H3 & H4 & [(? & _)|(_ & a' & b' & p' & Ea & Eb & Ep & _ & Ht)]);
           [discriminate|].
         injection Ea as <-. injection Eb as <-. injection Ep as <-.
         repeat split; assumption.
  + split; [discriminate|].
    intros (_ & _ & _ & _ & _ & _ & [(? & _)|(? & _)]); [discriminate | contradiction].
- (* no target beam *)
  cbv beta iota zeta. rewrite Hfiles. split.
  + intros (H0 & H1 & H2 & H3 & H4 & H5). repeat split; try assumption.
    left. repeat split; assumption.
  + intros (_ & H0 & H1 & H2 & H3 & H4 & [(_ & _ & _ & Ht)|(_ & a & b & p & ? & _)]);
      [|discriminate].
    repeat split; assumption.
Qed.

(** ** Who initialises which file, and who convolves which plane *)

Lemma firstn_S_nth_error {A} (l : list A) (n : nat) :
  firstn (S n) l =
  firstn n l ++ match nth_error l n with Some x => [x] | None => [] end.
Proof.
revert l. induction n as [|n IH]; intros [|x l]; try reflexivity.
change (firstn (S (S n)) (x :: l)) with (x :: firstn (S n) l).
rewrite IH. reflexivity.
Qed.

Lemma firstn_1_skipn {A} (l : list A) (k : nat) :
  firstn 1 (skipn k l) = match nth_error l k with Some x => [x] | None => [] end.
Proof.
revert l. induction k as [|k IH]; intros [|x l]; try reflexivity. apply IH.
Qed.

(** [l[r:r+1]] is the element of index [r], if there is one. *)
Lemma py_slice_single {A} (l : list A) (r : Z) :
  0 <= r ->
  py_slice l r (r + 1) =
  match nth_error l (Z.to_nat r) with Some x => [x] | None => [] end.
Proof.
intros Hr. unfold py_slice, slice_index.
destruct (Z.ltb_spec r 0); [lia|]. destruct (Z.ltb_spec (r + 1) 0); [lia|].
destruct (Z.lt_ge_cases r (Z.of_nat (List.length l))) as [Hlt|Hge].
- rewrite (Z.min_l r), (Z.min_l (r + 1)) by lia.
  replace (Z.to_nat (r + 1 - r)) with 1%nat by lia. apply firstn_1_skipn.
- rewrite (Z.min_r r), (Z.min_r (r + 1)) by lia.
  rewrite Z.sub_diag. simpl.
  destruct (nth_error l (Z.to_nat r)) eqn:E; [|reflexivity].
  assert (Z.to_nat r < List.length l)%nat by (apply nth_error_Some; congruence). lia.
Qed.

Lemma concat_singles {A} (l : list A) (n : nat) :
  concat (map (fun k => match nth_error l k with Some x => [x] | None => [] end)
              (seq 0 n)) = firstn n l.
Proof.
induction n as [|n IH]; [reflexivity|].
rewrite seq_S, map_app, concat_app, IH, firstn_S_nth_error. simpl.
now rewrite app_nil_r.
Qed.

Lemma init_inputs_many_ranks {A} (nPE r : Z) (inputs : list A) :
  Z.of_nat (List.length inputs) < nPE -> 0 <= r ->
  init_inputs nPE r inputs =
  match nth_error inputs (Z.to_nat r) with Some x => [x] | None => [] end.
Proof.
intros Hn Hr. unfold init_inputs, init_range.
destruct (Z.gtb_spec nPE (Z.of_nat (List.length inputs))); [|lia].
now apply py_slice_single.
Qed.

Lemma init_inputs_few_ranks {A} (nPE r : Z) (inputs : list A) :
  nPE <= Z.of_nat (List.length inputs) ->
  init_inputs nPE r inputs = my_inputs nPE r inputs.
Proof.
intros Hn. unfold init_inputs, init_range, my_inputs.
destruct (Z.gtb_spec nPE (Z.of_nat (List.length inputs))); [lia|reflexivity].
Qed.

(** X4.  The loop that initialises the output files shares the cubes
    among the [nPE >= 1] ranks without loss or repetition: the slices
    [inputs[my_start:my_end+1]] of the ranks, put end to end, are the
    list of the cubes.  With more ranks than cubes, rank [r] takes cube
    [r] alone and the ranks beyond the last cube take nothing. *)
Theorem init_partition_exact (nPE : Z) (A : Type) (inputs : list A) :
  1 <= nPE ->
  concat (map (fun r => init_inputs nPE r inputs) (ranks nPE)) = inputs /\
  (Z.of_nat (List.length inputs) < nPE ->
   forall r, 0 <= r ->
     init_inputs nPE r inputs =
     match nth_error inputs (Z.to_nat r) with Some x => [x] | None => [] end).
Proof.
intros Hn. split; [|intros Hlt r Hr; now apply init_inputs_many_ranks].
destruct (Z.lt_ge_cases (Z.of_nat (List.length inputs)) nPE) as [Hlt|Hge].
- unfold ranks. rewrite map_map.
  rewrite (map_ext_in _ (fun k => match nth_error inputs k with
                                  | Some x => [x] | None => [] end)).
  + rewrite concat_singles. apply firstn_all2. lia.
  + intros k _. rewrite init_inputs_many_ranks by lia. now rewrite Nat2Z.id.
- rewrite (map_ext _ (fun r => my_inputs nPE r inputs)).
  + now apply concat_my_inputs.
  + intros r. now apply init_inputs_few_ranks.
Qed.

(** Two cubes on three ranks, and three cubes on two ranks. *)
Lemma init_partition_exact_witness :
  map (fun r => init_inputs 3 r [0; 1]%nat) (ranks 3) = [[0%nat]; [1%nat]; []] /\
  map (fun r => init_inputs 2 r [0; 1; 2]%nat) (ranks 2) = [[0; 1]%nat; [2%nat]] /\
  concat (map (fun r => init_inputs 3 r [0; 1]%nat) (ranks 3)) = [0; 1]%nat.
Proof.
split; [reflexivity|]. split; [reflexivity|].
exact (proj1 (init_partition_exact 3 nat [0; 1]%nat ltac:(lia))).
Defined.

Lemma tasks_from_length (nchans s n : nat) :
  List.length (flat_map (fun key => map (fun chan => (key, chan)) (seq 0 nchans))
                        (seq s n)) = (n * nchans)%nat.
Proof.
revert s. induction n as [|n IH]; intros s; [reflexivity|].
simpl. rewrite length_app, length_map, length_seq, IH. reflexivity.
Qed.

Lemma task_list_length (dd : list cube) (nchans : nat) :
  List.length (task_list dd nchans) = (List.length dd * nchans)%nat.
Proof. apply tasks_from_length. Qed.

Lemma task_list_In (dd : list cube) (nchans key chan : nat) :
  In (key, chan) (task_list dd nchans) <->
  (key < List.length dd /\ chan < nchans)%nat.
Proof.
unfold task_list, keys. rewrite in_flat_map. split.
- intros [k [Hk Hin]]. apply in_map_iff in Hin as [c [E Hc]].
  injection E as -> ->. apply in_seq in Hk, Hc. lia.
- intros [Hk Hc]. exists key. split; [apply in_seq; lia|].
  apply in_map_iff. exists chan. split; [reflexivity | apply in_seq; lia].
Qed.

Lemma NoDup_map_pair (key : nat) (l : list nat) :
  NoDup l -> NoDup (map (fun chan => (key, chan)) l).
Proof.
induction 1 as [|x l Hx _ IH]; simpl; constructor; [|exact IH].
intros Hin. apply in_map_iff in Hin as [y [E Hy]]. injection E as ->. now apply Hx.
Qed.

Lemma tasks_from_NoDup (nchans s n : nat) :
  NoDup (flat_map (fun key => map (fun chan => (key, chan)) (seq 0 nchans)) (seq s n)).
Proof.
revert s. induction n as [|n IH]; intros s; [constructor|].
simpl. apply NoDup_app; [| apply IH |].
- apply NoDup_map_pair, seq_NoDup.
- intros [k c] Hin Hin'. apply in_map_iff in Hin as [c' [E _]]. injection E as <- _.
  apply in_flat_map in Hin' as [k' [Hk' Hin']].
  apply in_map_iff in Hin' as [c'' [E _]]. injection E as -> _.
  apply in_seq in Hk'. lia.
Qed.

Lemma task_list_NoDup (dd : list cube) (nchans : nat) : NoDup (task_list dd nchans).
Proof. apply tasks_from_NoDup. Qed.

(** X5.  The task list of the convolution holds every pair of a cube and
    a channel exactly once, [len(datadict) * nchans] pairs in all, so the
    assertion on its length holds as soon as the dictionary has one cube
    per file; and the slices that the [nPE >= 1] ranks take from it, put
    end to end, hold every pair exactly once too: every plane of every
    cube is convolved by one rank, once. *)
Theorem convolution_tasks_exact (nPE : Z) (dd : list cube) (nchans : nat) :
  1 <= nPE ->
  let inputs := task_list dd nchans in
  let work := concat (map (fun r => my_inputs nPE r inputs) (ranks nPE)) in
  List.length inputs = (List.length dd * nchans)%nat /\
  NoDup work /\
  forall key chan,
    In (key, chan) work <-> (key < List.length dd /\ chan < nchans)%nat.
Proof.
intros Hn inputs work. unfold work. rewrite concat_my_inputs by exact Hn.
split; [apply task_list_length|]. split; [apply task_list_NoDup|].
intros key chan. apply task_list_In.
Qed.

(** Two cubes of three channels on four ranks. *)
Lemma convolution_tasks_exact_witness :
  map (fun r => my_inputs 4 r (task_list [slip_cube; slip_cube] 3)) (ranks 4) =
  [[(0, 0); (0, 1)]; [(0, 2); (1, 0)]; [(1, 1)]; [(1, 2)]]%nat /\
  NoDup (concat (map (fun r => my_inputs 4 r (task_list [slip_cube; slip_cube] 3))
                     (ranks 4))).
Proof.
split; [reflexivity|].
exact (proj1 (proj2 (convolution_tasks_exact 4 [slip_cube; slip_cube] 3 ltac:(lia)))).
Defined.

(** ** What [readlogs] does *)






(** ** Strings, slices and replacements *)

Lemma prefix_cons (c d : ascii) (s t : string) :
  String.prefix (String c s) (String d t) =
  if Ascii.eqb c d then String.prefix s t else false.
Proof.
simpl. destruct (ascii_dec c d) as [->|Hn].
- now rewrite Ascii.eqb_refl.
- destruct (Ascii.eqb_spec c d); [contradiction | reflexivity].
Qed.

Lemma prefix_nil (s : string) : String.prefix EmptyString s = true.
Proof. now destruct s. Qed.

Lemma str_app_assoc (a b c : string) : ((a ++ b) ++ c = a ++ (b ++ c))%string.
Proof. induction a as [|x a IH]; simpl; [reflexivity | now rewrite IH]. Qed.

Lemma str_app_nil_r (a : string) : (a ++ "" = a)%string.
Proof. induction a as [|x a IH]; simpl; [reflexivity | now rewrite IH]. Qed.

Lemma str_length_app (a b : string) :
  String.length (a ++ b) = (String.length a + String.length b)%nat.
Proof. induction a as [|x a IH]; simpl; [reflexivity | now rewrite IH]. Qed.

Lemma list_ascii_app (a b : string) :
  list_ascii_of_string (a ++ b) = list_ascii_of_string a ++ list_ascii_of_string b.
Proof. induction a as [|x a IH]; simpl; [reflexivity | now rewrite IH]. Qed.

Lemma list_ascii_length (s : string) :
  List.length (list_ascii_of_string s) = String.length s.
Proof. induction s as [|x s IH]; simpl; [reflexivity | now rewrite IH]. Qed.

Lemma prefix_app_self (p t : string) : String.prefix p (p ++ t) = true.
Proof.
induction p as [|x p IH]; [apply prefix_nil|].
cbn [append]. now rewrite prefix_cons, Ascii.eqb_refl.
Qed.

(** A prefix of [a ++ b] is a prefix of [a], or goes on into [b]. *)
Lemma prefix_app_cases (p a b : string) :
  String.prefix p (a ++ b) = true ->
  String.prefix p a = true \/
  exists u, p = (a ++ u)%string /\ String.prefix u b = true.
Proof.
revert p. induction a as [|x a IH]; intros p H.
- right. now exists p.
- destruct p as [|y p]; [left; reflexivity|].
  cbn [append] in H. rewrite prefix_cons in H.
  destruct (Ascii.eqb_spec y x) as [->|]; [|discriminate].
  destruct (IH p H) as [Hp|[u [-> Hu]]].
  + left. now rewrite prefix_cons, Ascii.eqb_refl.
  + right. now exists u.
Qed.

(** *** Slices *)

Lemma py_slice_app_middle {A} (l1 l2 l3 : list A) :
  py_slice (l1 ++ l2 ++ l3) (Z.of_nat (List.length l1))
           (Z.of_nat (List.length l1 + List.length l2)) = l2.
Proof.
rewrite py_slice_inner by (rewrite ?length_app; lia).
rewrite Nat2Z.id.
replace (Z.to_nat (Z.of_nat (List.length l1 + List.length l2) - Z.of_nat (List.length l1)))
  with (List.length l2) by lia.
rewrite skipn_app, skipn_all, Nat.sub_diag. simpl.
rewrite firstn_app, firstn_all, Nat.sub_diag. simpl. apply app_nil_r.
Qed.

Lemma str_slice_head (a b : string) :
  str_slice (a ++ b) 0 (Z.of_nat (String.length a)) = a.
Proof.
unfold str_slice. rewrite list_ascii_app.
pose proof (py_slice_app_middle [] (list_ascii_of_string a) (list_ascii_of_string b)) as H.
simpl in H. rewrite list_ascii_length in H. rewrite H.
apply string_of_list_ascii_of_string.
Qed.

Lemma str_from_tail (a b : string) :
  str_from (a ++ b) (Z.of_nat (String.length a)) = b.
Proof.
unfold str_from, str_slice. rewrite list_ascii_app, str_length_app.
pose proof (py_slice_app_middle (list_ascii_of_string a) (list_ascii_of_string b) []) as H.
rewrite app_nil_r, !list_ascii_length in H. rewrite H.
apply string_of_list_ascii_of_string.
Qed.

Lemma py_slice_app_inside {A} (l1 l2 : list A) (c : A) :
  py_slice (l1 ++ l2 ++ [c]) (Z.of_nat (List.length l1)) (-1) = l2.
Proof.
unfold py_slice, slice_index. rewrite !length_app. cbn [List.length].
destruct (Z.ltb_spec (Z.of_nat (List.length l1)) 0); [lia|].
change (-1 <? 0) with true. cbv iota.
rewrite Z.min_l, Z.max_l by lia. rewrite Nat2Z.id.
replace (Z.to_nat (Z.of_nat (List.length l1 + (List.length l2 + 1)) + -1 -
                   Z.of_nat (List.length l1)))
  with (List.length l2) by lia.
rewrite skipn_app, skipn_all, Nat.sub_diag. simpl.
rewrite firstn_app, firstn_all, Nat.sub_diag. simpl. apply app_nil_r.
Qed.

(** [(a ++ b ++ c)[len(a):-1]] for a one-character [c] *)
Lemma str_slice_inside (a b : string) (c : ascii) :
  str_slice (a ++ b ++ String c "") (Z.of_nat (String.length a)) (-1) = b.
Proof.
unfold str_slice. rewrite !list_ascii_app. cbn [list_ascii_of_string].
rewrite <- (list_ascii_length a), py_slice_app_inside.
apply string_of_list_ascii_of_string.
Qed.

(** *** Finding *)

Lemma contains_cons (sub : string) (c : ascii) (s : string) :
  contains sub (String c s) = String.prefix sub (String c s) || contains sub s.
Proof. reflexivity. Qed.

Lemma find_from_first (c : ascii) (name rest : string) (i : Z) :
  contains (String c "") name = false ->
  find_from (String c "") (name ++ String c rest) i = i + Z.of_nat (String.length name).
Proof.
revert i. induction name as [|x name IH]; intros i H.
- cbn [append find_from]. rewrite prefix_cons, Ascii.eqb_refl, prefix_nil. simpl. lia.
- rewrite contains_cons in H. apply orb_false_iff in H as [Hp H].
  rewrite prefix_cons, prefix_nil in Hp.
  cbn [append find_from]. rewrite prefix_cons, prefix_nil, Hp.
  rewrite IH by exact H. cbn [String.length]. lia.
Qed.

Lemma rfind_from_absent (c : ascii) (s : string) (i : Z) :
  contains (String c "") s = false -> rfind_from (String c "") s i = -1.
Proof.
revert i. induction s as [|x s IH]; intros i H; [reflexivity|].
rewrite contains_cons in H. apply orb_false_iff in H as [Hp H].
cbn [rfind_from]. rewrite IH by exact H. rewrite Z.eqb_refl. now rewrite Hp.
Qed.

Lemma rfind_from_last (c : ascii) (d b : string) (i : Z) :
  0 <= i -> contains (String c "") b = false ->
  rfind_from (String c "") (d ++ String c b) i = i + Z.of_nat (String.length d).
Proof.
intros Hi Hb. revert i Hi. induction d as [|x d IH]; intros i Hi.
- cbn [append rfind_from]. rewrite rfind_from_absent by exact Hb. rewrite Z.eqb_refl.
  rewrite prefix_cons, Ascii.eqb_refl, prefix_nil. simpl. lia.
- cbn [append rfind_from]. rewrite IH by lia.
  destruct (Z.eqb_spec (i + 1 + Z.of_nat (String.length d)) (-1)); [lia|].
  cbn [String.length]. lia.
Qed.

(** *** Paths *)

Lemma rstrip_app_sep (s : string) (c : ascii) :
  rstrip (s ++ String c "") c = rstrip s c.
Proof.
induction s as [|x s IH].
- simpl. now rewrite Ascii.eqb_refl.
- cbn [append rstrip]. now rewrite IH.
Qed.

Lemma rstrip_keeps (s : string) (x c : ascii) :
  x <> c -> rstrip (s ++ String x "") c = (s ++ String x "")%string.
Proof.
intros Hx. induction s as [|y s IH].
- simpl. destruct (Ascii.eqb_spec x c); [contradiction | reflexivity].
- cbn [append rstrip]. rewrite IH. now destruct s.
Qed.

Lemma str_repeat_char (c x : ascii) (n : nat) (a b : string) :
  str_repeat c n = (a ++ String x b)%string -> x = c.
Proof.
revert n. induction a as [|y a IH]; intros n H.
- destruct n; simpl in H; [discriminate|]. now injection H.
- destruct n; simpl in H; [discriminate|]. injection H as _ H. now apply (IH n).
Qed.

(** The directory and the name of [d/b], for a directory that ends with
    something else than a slash and a name without slash. *)
Lemma dirname_basename (d : string) (x : ascii) (b : string) :
  x <> "/"%char -> contains "/" b = false ->
  dirname (d ++ String x "" ++ "/" ++ b) = (d ++ String x "")%string /\
  basename (d ++ String x "" ++ "/" ++ b) = b.
Proof.
intros Hx Hb.
assert (Hr : str_rfind (d ++ String x "" ++ "/" ++ b) "/" =
             Z.of_nat (String.length (d ++ String x ""))).
{ unfold str_rfind. rewrite <- str_app_assoc.
  change ("/" ++ b)%string with (String "/" b).
  now rewrite rfind_from_last by (lia || exact Hb). }
assert (Hsplit : (d ++ String x "" ++ "/" ++ b =
                  ((d ++ String x "") ++ "/") ++ b)%string).
{ now rewrite !str_app_assoc. }
split.
- unfold dirname. rewrite Hr.
  replace (Z.of_nat (String.length (d ++ String x "")) + 1)
    with (Z.of_nat (String.length ((d ++ String x "") ++ "/")))
    by (rewrite (str_length_app _ "/"); simpl; lia).
  rewrite Hsplit, str_slice_head.
  destruct (String.eqb_spec ((d ++ String x "") ++ "/") "") as [E|_].
  { destruct d; discriminate. }
  destruct (String.eqb_spec ((d ++ String x "") ++ "/")
              (str_repeat "/" (String.length ((d ++ String x "") ++ "/")))) as [E|_].
  { symmetry in E. rewrite str_app_assoc in E. apply str_repeat_char in E.
    contradiction. }
  cbn [negb andb]. change "/"%string with (String "/" "").
  rewrite rstrip_app_sep. now apply rstrip_keeps.
- unfold basename. rewrite Hr.
  replace (Z.of_nat (String.length (d ++ String x "")) + 1)
    with (Z.of_nat (String.length ((d ++ String x "") ++ "/")))
    by (rewrite (str_length_app _ "/"); simpl; lia).
  rewrite Hsplit. apply str_from_tail.
Qed.

Lemma str_slice_nothing (s : string) : str_slice s 0 0 = EmptyString.
Proof.
unfold str_slice, py_slice, slice_index. change (0 <? 0) with false. cbv iota.
rewrite Z.min_l by lia. reflexivity.
Qed.

(** The directory and the name of a path without slash. *)
Lemma dirname_basename_plain (b : string) :
  contains "/" b = false -> dirname b = EmptyString /\ basename b = b.
Proof.
intros Hb.
assert (Hr : str_rfind b "/" = -1) by (now apply rfind_from_absent).
split.
- unfold dirname. rewrite Hr. change (-1 + 1) with 0.
  now rewrite str_slice_nothing.
- unfold basename. rewrite Hr. exact (str_from_tail "" b).
Qed.

(** *** Replacements *)

Lemma occurs_app (c : ascii) (a b : string) : occurs c (a ++ String c b) = true.
Proof.
induction a as [|x a IH]; simpl.
- now rewrite Ascii.eqb_refl.
- rewrite IH. apply orb_true_r.
Qed.

Lemma replace_from_skip (old new a t : string) :
  replace_from old new (String.length a) (a ++ t) = replace_from old new 0 t.
Proof. induction a as [|x a IH]; [reflexivity | exact IH]. Qed.

Lemma replace_absent (s old new : string) :
  contains old s = false -> replace s old new = s.
Proof.
unfold replace. induction s as [|x s IH]; intros H; [reflexivity|].
rewrite contains_cons in H. apply orb_false_iff in H as [Hp H].
cbn [replace_from]. rewrite Hp. now rewrite IH.
Qed.

(** An occurrence that starts in a non-empty [s] with no occurrence of
    its own would overlap the occurrence that follows [s]. *)
Lemma no_overlap (old : string) (x : ascii) (s t : string) :
  first_char_once old = true ->
  String.prefix old (String x s) = false ->
  String.prefix old (String x s ++ old ++ t) = false.
Proof.
intros Hold Hp.
destruct (String.prefix old (String x s ++ old ++ t)) eqn:E; [|reflexivity].
exfalso. apply prefix_app_cases in E as [E|[u [Eu Hu]]]; [congruence|].
destruct old as [|c rest]; [discriminate|].
destruct u as [|y u].
- rewrite str_app_nil_r in Eu. rewrite Eu in Hp.
  pose proof (prefix_app_self (String x s) "") as Hs.
  rewrite str_app_nil_r in Hs. congruence.
- cbn [append] in Hu. rewrite prefix_cons in Hu.
  destruct (Ascii.eqb_spec y c) as [->|]; [|discriminate].
  cbn [append] in Eu. injection Eu as _ Erest.
  cbn [first_char_once] in Hold. rewrite Erest, occurs_app in Hold. discriminate.
Qed.

(** Replacing in [s ++ old ++ t], when [old] cannot overlap itself and
    does not occur in [s]: [s] is kept, [old] is replaced, and the
    replacement goes on in [t]. *)
Lemma replace_first (s old new t : string) :
  first_char_once old = true -> contains old s = false ->
  replace (s ++ old ++ t) old new = (s ++ new ++ replace t old new)%string.
Proof.
intros Hold. unfold replace. induction s as [|x s IH]; intros H.
- destruct old as [|c rest]; [discriminate|].
  cbn [append replace_from]. rewrite prefix_cons, Ascii.eqb_refl, prefix_app_self.
  cbn [String.length].
  replace (S (String.length rest) - 1)%nat with (String.length rest) by lia.
  now rewrite replace_from_skip.
- rewrite contains_cons in H. apply orb_false_iff in H as [Hp H].
  pose proof (no_overlap old x s t Hold Hp) as Hno.
  cbn [append] in *. cbn [replace_from]. rewrite Hno. now rewrite IH.
Qed.

Lemma replace_last (s old new : string) :
  first_char_once old = true -> contains old s = false ->
  replace (s ++ old) old new = (s ++ new)%string.
Proof.
intros Hold H. rewrite <- (str_app_nil_r old) at 1.
rewrite replace_first by assumption.
unfold replace. cbn [replace_from]. now rewrite str_app_nil_r.
Qed.

(** ** The names of the columns and of the files *)

Lemma contains_char (c : ascii) (s : string) :
  contains (String c "") s = occurs c s.
Proof.
induction s as [|x s IH]; [reflexivity|].
rewrite contains_cons, prefix_cons, prefix_nil, IH. cbn [occurs].
rewrite (Ascii.eqb_sym x c). now destruct (Ascii.eqb c x).
Qed.

Lemma occurs_append (c : ascii) (a b : string) :
  occurs c (a ++ b) = occurs c a || occurs c b.
Proof.
induction a as [|x a IH]; [reflexivity|]. cbn [append occurs]. rewrite IH.
apply orb_assoc.
Qed.

Lemma find_from_absent (c : ascii) (s : string) (i : Z) :
  contains (String c "") s = false -> find_from (String c "") s i = -1.
Proof.
revert i. induction s as [|x s IH]; intros i H; [reflexivity|].
rewrite contains_cons in H. apply orb_false_iff in H as [Hp H].
cbn [find_from]. rewrite Hp. now apply IH.
Qed.

(** X10.  [getbeams] splits the header of a column at its first bracket:
    for a header made of a name without bracket, an opening bracket, any
    text and one closing character, the column gets the name, and the
    unit is read from the text; the closing character is dropped
    whatever it is.  A header without bracket is the name of the column,
    which gets the empty unit. *)
Theorem getbeams_column_header (name unit : string) (close : ascii) :
  contains "[" name = false ->
  colname_unit (name ++ "[" ++ unit ++ String close "") = (name, unit) /\
  colname_unit name = (name, EmptyString).
Proof.
intros Hname. split.
- unfold colname_unit, str_find.
  change ("[" ++ unit ++ String close "")%string with (String "[" (unit ++ String close "")).
  rewrite find_from_first by exact Hname.
  destruct (Z.eqb_spec (0 + Z.of_nat (String.length name)) (-1)) as [E|_]; [lia|].
  f_equal.
  + rewrite Z.add_0_l. apply str_slice_head.
  + replace (0 + Z.of_nat (String.length name) + 1)
      with (Z.of_nat (String.length (name ++ "["))).
    * change (String "[" (unit ++ String close ""))
        with ("[" ++ unit ++ String close "")%string.
      rewrite <- (str_app_assoc name "[").
      apply str_slice_inside.
    * rewrite str_length_app. simpl. lia.
- unfold colname_unit, str_find. now rewrite find_from_absent.
Qed.

(** The column [BMAJ[arcsec]] of a beam log. *)
Lemma getbeams_column_header_witness :
  colname_unit "BMAJ[arcsec]" = ("BMAJ", "arcsec")%string /\
  colname_unit "BMAJ" = ("BMAJ", "")%string.
Proof. exact (getbeams_column_header "BMAJ" "arcsec" "]" eq_refl). Defined.

(** X11.  Where the logs are.  For an image [stem.fits] in a directory
    [d], with no other [.fits] in the path of its beam log, [makedata]
    looks for the beam log [d/beamlog.stem.txt] (the directory being [.]
    for a bare file name); and for a cube with that beam log, with no
    other [beamlog.] in the path, [commonbeamer] writes, and [readlogs]
    reads, the log [d/beamlogConvolve-MODE.stem.txt]. *)
Theorem logs_are_beside_the_image (d : string) (x : ascii) (stem mode : string) (c : cube) :
  x <> "/"%char -> contains "/" stem = false ->
  (contains ".fits" ("./beamlog." ++ stem) = false ->
   makedata_beamlog (stem ++ ".fits") = ("./beamlog." ++ stem ++ ".txt")%string) /\
  (contains ".fits" (d ++ String x "" ++ "/beamlog." ++ stem) = false ->
   makedata_beamlog (d ++ String x "" ++ "/" ++ stem ++ ".fits") =
   (d ++ String x "" ++ "/beamlog." ++ stem ++ ".txt")%string) /\
  (beamlog c = (d ++ String x "" ++ "/beamlog." ++ stem ++ ".txt")%string ->
   contains "beamlog." (d ++ String x "" ++ "/") = false ->
   contains "beamlog." (stem ++ ".txt") = false ->
   commonbeam_log_name c mode =
   (d ++ String x "" ++ "/beamlogConvolve-" ++ mode ++ "." ++ stem ++ ".txt")%string).
Proof.
intros Hx Hstem.
assert (Hname : contains "/" (stem ++ ".fits") = false).
{ rewrite contains_char in *. rewrite occurs_append, Hstem. reflexivity. }
split; [|split].
- intros Hno. unfold makedata_beamlog.
  destruct (dirname_basename_plain _ Hname) as [-> ->]. cbn [String.eqb].
  change ("." ++ "/beamlog." ++ stem ++ ".fits")%string
    with ("./beamlog." ++ stem ++ ".fits")%string.
  rewrite <- (str_app_assoc "./beamlog." stem ".fits").
  rewrite replace_last by (reflexivity || exact Hno).
  now rewrite str_app_assoc.
- intros Hno. unfold makedata_beamlog.
  destruct (dirname_basename d x _ Hx Hname) as [-> ->].
  destruct (String.eqb_spec (d ++ String x "") "") as [E|_]; [destruct d; discriminate|].
  replace ((d ++ String x "") ++ "/beamlog." ++ stem ++ ".fits")%string
    with ((d ++ String x "" ++ "/beamlog." ++ stem) ++ ".fits")%string
    by (now rewrite !str_app_assoc).
  rewrite replace_last by (reflexivity || exact Hno).
  now rewrite !str_app_assoc.
- intros Hlog Hd Hs. unfold commonbeam_log_name. rewrite Hlog.
  replace (d ++ String x "" ++ "/beamlog." ++ stem ++ ".txt")%string
    with ((d ++ String x "" ++ "/") ++ "beamlog." ++ stem ++ ".txt")%string
    by (now rewrite !str_app_assoc).
  rewrite replace_first by (reflexivity || exact Hd).
  rewrite replace_absent by exact Hs.
  now rewrite !str_app_assoc.
Qed.

(** The image [data/cube.fits] in natural mode. *)
Lemma logs_are_beside_the_image_witness :
  makedata_beamlog "data/cube.fits" = "data/beamlog.cube.txt"%string /\
  commonbeam_log_name
    (mkCube "data/cube.fits" "data" (mkQuantity (Fin 1) deg) (mkQuantity (Fin 1) deg)
            "data/beamlog.cube.txt" 0 slip_beams [] None None None None) "natural" =
  "data/beamlogConvolve-natural.cube.txt"%string.
Proof.
pose proof (logs_are_beside_the_image "dat" "a" "cube" "natural"
              (mkCube "data/cube.fits" "data" (mkQuantity (Fin 1) deg)
                      (mkQuantity (Fin 1) deg) "data/beamlog.cube.txt" 0 slip_beams []
                      None None None None)
              ltac:(discriminate) eq_refl) as (_ & H2 & H3).
split; [exact (H2 eq_refl) | exact (H3 eq_refl eq_refl eq_refl)].
Defined.

(** X12.  The name of the output file.  For an image [stem.fits], with
    no other [.fits] in its name, [initfiles] writes
    [outdir/PREFIXstem.SUFFIX.fits], the suffix being the mode when none
    is given.  For an image whose name does not contain [.fits] the name
    is left as it is, suffix or not: without prefix the output file is
    [outdir/name], and when the output directory is the one [main] takes
    by default, the directory of the image, that is the path of the
    image itself. *)
Theorem output_file_name
  (d : string) (x : ascii) (name stem outdir mode : string)
  (suffix prefix : option string) :
  x <> "/"%char -> contains "/" name = false ->
  let file := (d ++ String x "" ++ "/" ++ name)%string in
  let sfx := match suffix with Some s => s | None => mode end in
  let pfx := match prefix with Some p => p | None => EmptyString end in
  (name = (stem ++ ".fits")%string -> contains ".fits" stem = false ->
   initfiles_outfile file outdir mode suffix prefix =
   (outdir ++ "/" ++ pfx ++ stem ++ "." ++ sfx ++ ".fits")%string) /\
  (contains ".fits" name = false ->
   initfiles_outfile file outdir mode suffix prefix =
   (outdir ++ "/" ++ pfx ++ name)%string) /\
  (contains ".fits" name = false ->
   main_outdir None [file] = Ok [(d ++ String x "")%string] /\
   initfiles_outfile file (d ++ String x "") mode suffix None = file).
Proof.
intros Hx Hname file sfx pfx.
destruct (dirname_basename d x name Hx Hname) as [Hdir Hbase].
assert (Hout : forall o, initfiles_outfile file o mode suffix prefix =
                 (o ++ "/" ++ pfx ++ replace name ".fits" ("." ++ sfx ++ ".fits"))%string).
{ intros o. unfold initfiles_outfile, file. rewrite Hbase.
  unfold pfx, sfx. now destruct prefix, suffix. }
split; [|split].
- intros -> Hstem. rewrite Hout. do 3 f_equal.
  now rewrite replace_last by (reflexivity || exact Hstem).
- intros Hno. rewrite Hout. now rewrite replace_absent.
- intros Hno. split.
  + unfold main_outdir, file. cbn [map]. rewrite Hdir.
    destruct (String.eqb_spec (d ++ String x "") "") as [E|_];
      [destruct d; discriminate | reflexivity].
  + unfold initfiles_outfile, file. rewrite Hbase.
    rewrite replace_absent by exact Hno.
    now rewrite !str_app_assoc.
Qed.

(** The image [data/cube.fits], and the image [data/cube.fit], whose
    output file is the image itself. *)
Lemma output_file_name_witness :
  initfiles_outfile "data/cube.fits" "out" "natural" None (Some "sm_"%string) =
  "out/sm_cube.natural.fits"%string /\
  main_outdir None ["data/cube.fit"%string] = Ok ["data"%string] /\
  initfiles_outfile "data/cube.fit" "data" "natural" (Some "v2"%string) None =
  "data/cube.fit"%string.
Proof.
pose proof (output_file_name "dat" "a" "cube.fits" "cube" "out" "natural" None
              (Some "sm_"%string) ltac:(discriminate) eq_refl) as (H1 & _).
pose proof (output_file_name "dat" "a" "cube.fit" "" "data" "natural"
              (Some "v2"%string) None ltac:(discriminate) eq_refl) as (_ & _ & H3).
split; [exact (H1 eq_refl eq_refl) | exact (H3 eq_refl)].
Defined.

(** ** The dictionary that [main] sets up *)

Lemma rbind_ok_inv {A B} (m : result A) (k : A -> result B) (b : B) :
  rbind m k = Ok b -> exists a, m = Ok a /\ k a = Ok b.
Proof. destruct m as [a|e]; [|discriminate]. intros H. now exists a. Qed.

Lemma mapR_Forall2 {A B} (g : A -> result B) (l : list A) (ys : list B) :
  mapR g l = Ok ys -> Forall2 (fun x y => g x = Ok y) l ys.
Proof.
revert ys. induction l as [|x l IH]; intros ys; simpl.
- intros H. injection H as <-. constructor.
- destruct (g x) as [y|e] eqn:E; [|discriminate].
  destruct (mapR g l) as [ys'|e]; [|discriminate].
  intros H. injection H as <-. constructor; [exact E | now apply IH].
Qed.

Lemma main_outdir_length (outdir : option string) (files outs : list string) :
  main_outdir outdir files = Ok outs -> List.length outs = List.length files.
Proof.
unfold main_outdir. destruct outdir as [o|].
- destruct (String.get _ o); [|discriminate].
  intros H. injection H as <-. apply repeat_length.
- intros H. injection H as <-. apply length_map.
Qed.

Lemma main_config_files (args : Args) (cfg : Config) :
  main_config args = Ok cfg -> cfg_files cfg = sorted (arg_infile args).
Proof.
unfold main_config. rewrite mode_test_false.
destruct (negb _ && negb _ && negb _ && negb _); [discriminate|].
destruct (negb _ && negb _); [discriminate|].
match goal with
| |- match ?t with Ok _ => _ | Raise _ => _ end = _ -> _ =>
    destruct t as [target|e]; [|discriminate]
end.
cbv zeta. destruct (sorted (arg_infile args)); [discriminate|].
intros H. now injection H as <-.
Qed.

Section Setup.

Variable beam_table : Type.
Variable getheader : string -> result (string -> option float64).
Variable getbeams : string -> result (beam_table * nat).

(** The pixels of the cube are square: the two steps of its grid are
    numbers of degrees, and equal. *)
Let square (c : raw_cube beam_table) : Prop :=
exists p q, raw_dx c = mkQuantity (Fin p) deg /\
            raw_dy c = mkQuantity (Fin q) deg /\ (p == q)%Q.

Lemma makedata_cube_ok (file out : string) (c : raw_cube beam_table) :
  makedata_cube beam_table getheader getbeams file out = Ok c ->
  raw_filename c = file /\ raw_outdir c = out /\
  raw_beamlog c = makedata_beamlog file /\ square c.
Proof.
unfold makedata_cube. intros H.
apply rbind_ok_inv in H as (header & _ & H).
apply rbind_ok_inv in H as (cdelt1 & _ & H).
apply rbind_ok_inv in H as (cdelt2 & _ & H).
destruct (q_eq _ _) eqn:Hq; [|discriminate]. cbn [negb] in H.
apply rbind_ok_inv in H as (r & _ & H).
injection H as <-. cbn. repeat split.
unfold q_eq, to, feq in Hq. cbn in Hq.
destruct cdelt1 as [|a]; [discriminate|]. destruct cdelt2 as [|b]; [discriminate|].
cbn in Hq. exists (a * -1)%Q, b. repeat split. now apply Qeq_bool_iff.
Qed.

Lemma makedata_ok (files outs : list string) (dd : list (raw_cube beam_table)) :
  makedata beam_table getheader getbeams files outs = Ok dd ->
  List.length outs = List.length files ->
  map raw_filename dd = files /\ map raw_outdir dd = outs /\
  map raw_beamlog dd = map makedata_beamlog files /\ Forall square dd.
Proof.
unfold makedata. intros H. apply mapR_Forall2 in H.
revert outs dd H. induction files as [|f files IH]; intros outs dd H Hlen.
- destruct outs; [|discriminate]. inversion H. repeat split. constructor.
- destruct outs as [|o outs]; [discriminate|]. simpl in H.
  inversion H as [|? c ? dd' Hc Hrest]; subst.
  apply makedata_cube_ok in Hc as (Hf & Ho & Hb & Hs). cbn [fst snd] in *.
  destruct (IH outs dd' Hrest) as (IH1 & IH2 & IH3 & IH4); [simpl in Hlen; lia|].
  cbn [map]. rewrite Hf, Ho, Hb, IH1, IH2, IH3. repeat split. now constructor.
Qed.

Lemma main_nchans_ok (l : list nat) (n : nat) :
  main_nchans l = Ok n -> l <> [] /\ Forall (fun m => m = n) l.
Proof.
unfold main_nchans. destruct l as [|n0 l]; [discriminate|].
destruct (forallb _ _) eqn:E; [|discriminate].
intros H. injection H as <-. split; [discriminate|].
rewrite forallb_forall in E. apply Forall_forall. intros m Hm.
now apply Nat.eqb_eq, E.
Qed.

(** X13.  What [main] has when the planning starts.  If the checks of
    the options, the output directories, [makedata] and the check of the
    channel counts all pass, then the options were accepted, the
    dictionary has one cube per input file, in the order of the sorted
    file names, each with the output directory [main] computed for it
    and the beam log that goes with its name; there is at least one
    cube; all the cubes have the same number of channels, the one that
    is kept; and every cube has square pixels: the two grid steps are
    numbers (not [NaN]) of degrees with [-CDELT1 = CDELT2]. *)
Theorem main_setup_postcondition
  (args : Args) (outdir : option string) (cfg : Config)
  (dd : list (raw_cube beam_table)) (nchans : nat) :
  main_setup beam_table getheader getbeams args outdir = Ok (cfg, dd, nchans) ->
  main_config args = Ok cfg /\
  dd <> [] /\
  map raw_filename dd = sorted (arg_infile args) /\
  main_outdir outdir (sorted (arg_infile args)) = Ok (map raw_outdir dd) /\
  map raw_beamlog dd = map makedata_beamlog (sorted (arg_infile args)) /\
  Forall (fun c => raw_nchan c = nchans) dd /\
  Forall (fun c => exists p q, raw_dx c = mkQuantity (Fin p) deg /\
                               raw_dy c = mkQuantity (Fin q) deg /\ (p == q)%Q) dd.
Proof.
unfold main_setup. intros H.
apply rbind_ok_inv in H as (cfg' & Hcfg & H). cbv zeta in H.
apply rbind_ok_inv in H as (outs & Houts & H).
apply rbind_ok_inv in H as (dd' & Hdd & H).
apply rbind_ok_inv in H as (n & Hn & H).
injection H as -> -> ->.
pose proof (main_config_files _ _ Hcfg) as Hfiles. rewrite Hfiles in *.
destruct (makedata_ok _ _ _ Hdd (main_outdir_length _ _ _ Houts)) as (H1 & H2 & H3 & H4).
destruct (main_nchans_ok _ _ Hn) as [Hne Hall].
split; [exact Hcfg|]. split; [intros E; apply Hne; now rewrite E|].
split; [exact H1|]. split; [now rewrite H2|]. split; [exact H3|]. split; [|exact H4].
rewrite Forall_map in Hall. exact Hall.
Qed.

End Setup.

(** ** The output files, and a run without MPI *)

Section OutputFacts.

Variable fits_open : string -> result unit.
Variable comm_gather : list (nat * string) -> list (list (nat * string)).

(** The cube can be initialised: its image opens and it has a common
    beam for its first channel. *)
Let ready (c : cube) : Prop :=
fits_open (filename c) = Ok tt /\
exists cbs b, commonbeams c = Some cbs /\ beams_get cbs 0 = Some b.

Lemma initfiles_ready (c : cube) (mode : string) (suffix prefix : option string) :
  ready c -> mode = "natural"%string \/ mode = "total"%string ->
  exists f, initfiles fits_open c mode suffix prefix =
            Ok (initfiles_outfile (filename c) (outdir c) mode suffix prefix, f) /\
            out_name f = initfiles_outfile (filename c) (outdir c) mode suffix prefix /\
            out_source f = filename c.
Proof.
intros (Hopen & cbs & b & Hcbs & Hb) Hmode. unfold initfiles.
rewrite Hopen, Hcbs. cbn [rbind key_of]. rewrite Hb. cbn [rbind index_of].
destruct Hmode as [->| ->]; cbn; eexists; repeat split.
Qed.

Lemma init_loop_ready (mode : string) (suffix prefix : option string) (post : list cube) :
  forall pre d,
  Forall ready post -> mode = "natural"%string \/ mode = "total"%string ->
  exists d' written,
    init_loop fits_open (pre ++ post) (seq (List.length pre) (List.length post))
              mode suffix prefix d = (Ok d', written) /\
    map out_name written =
      map (fun c => initfiles_outfile (filename c) (outdir c) mode suffix prefix) post /\
    map out_source written = map filename post.
Proof.
induction post as [|c post IH]; intros pre d Hall Hmode.
- exists d, []. now repeat split.
- inversion Hall as [|? ? Hc Hall']; subst.
  destruct (initfiles_ready c mode suffix prefix Hc Hmode) as (f & Hf & Hn & Hs).
  cbn [List.length seq init_loop].
  rewrite nth_error_middle. cbn [key_of rbind]. rewrite Hf.
  specialize (IH (pre ++ [c])
                (dict_update d [(List.length pre,
                   initfiles_outfile (filename c) (outdir c) mode suffix prefix)])
                Hall' Hmode).
  rewrite <- app_assoc in IH. cbn [app] in IH.
  replace (List.length (pre ++ [c])) with (S (List.length pre)) in IH
    by (rewrite length_app; simpl; lia).
  destruct IH as (d' & written & -> & Hnames & Hsrc).
  exists d', (f :: written). cbn [map]. now rewrite Hn, Hs, Hnames, Hsrc.
Qed.

Lemma init_inputs_one_rank {A} (inputs : list A) : init_inputs 1 0 inputs = inputs.
Proof.
pose proof (concat_my_inputs 1 inputs ltac:(lia)) as H.
unfold ranks in H. simpl in H. rewrite app_nil_r in H.
unfold init_inputs, init_range.
destruct (Z.gtb_spec 1 (Z.of_nat (List.length inputs))) as [Hgt|Hle].
- destruct inputs; [reflexivity | simpl in Hgt; lia].
- exact H.
Qed.

(** X14.  Without MPI the run never gets past the output files.  When
    [mpi4py] is missing, nothing binds the list that rank 0 merges after
    the files are initialised: whatever the data, that part of [main]
    ends with an exception.  When every image opens and has a common
    beam for its first channel, in natural or total mode, the exception
    is the unbound [outlist]; by then one output file has been written
    for every cube, under the name [initfiles] gives it, with the data
    of its image as they were, not convolved. *)
Theorem run_without_mpi_stops_after_initfiles
  (dd : list cube) (mode : string) (suffix prefix : option string) :
  (exists e, fst (main_init fits_open comm_gather false 1 dd mode suffix prefix) =
             Raise e) /\
  (Forall (fun c => fits_open (filename c) = Ok tt /\
                    exists cbs b, commonbeams c = Some cbs /\
                                  beams_get cbs 0 = Some b) dd ->
   mode = "natural"%string \/ mode = "total"%string ->
   fst (main_init fits_open comm_gather false 1 dd mode suffix prefix) =
     Raise (UnboundLocalError "outlist") /\
   map out_name (snd (main_init fits_open comm_gather false 1 dd mode suffix prefix)) =
     map (fun c => initfiles_outfile (filename c) (outdir c) mode suffix prefix) dd /\
   map out_source (snd (main_init fits_open comm_gather false 1 dd mode suffix prefix)) =
     map filename dd).
Proof.
split.
- unfold main_init.
  destruct (init_loop _ _ _ _ _ _ _) as [[d|e] written]; cbn; eexists; reflexivity.
- intros Hall Hmode. unfold main_init, keys.
  rewrite init_inputs_one_rank.
  destruct (init_loop_ready mode suffix prefix dd [] [] Hall Hmode)
    as (d' & written & Hrun & Hnames & Hsrc).
  cbn [app List.length] in Hrun. rewrite Hrun. cbn. now split.
Qed.

End OutputFacts.

(** ** The factors and the ['robust'] convolution *)

Section Factors.

Variable as_kernel : Beam -> Quantity -> result image.
Variable convolve_uv :
  image -> Beam -> Beam -> Quantity -> Quantity -> result (image * float64).
Variable scipy_signal_convolve : image -> image -> result image.
Variable astropy_convolve : image -> image -> result image.
Variable astropy_convolve_fft : image -> image -> result image.
Variable read_plane : string -> nat -> result image.

Lemma smooth_robust_ignores_sfactor im dx dy oldbeam newbeam conbeam s1 s2 :
  smooth as_kernel convolve_uv scipy_signal_convolve astropy_convolve
         astropy_convolve_fft im dx dy oldbeam newbeam conbeam s1 "robust" =
  smooth as_kernel convolve_uv scipy_signal_convolve astropy_convolve
         astropy_convolve_fft im dx dy oldbeam newbeam conbeam s2 "robust".
Proof.
unfold smooth. destruct (beam_isnan conbeam); [reflexivity|].
destruct (all_nan im); [reflexivity|]. cbv zeta.
destruct (as_kernel conbeam dy) as [k|e]; [|reflexivity]. cbn [rbind].
destruct (array_max k) as [peak|e]; [|reflexivity]. cbn [rbind].
change (String.eqb "robust" "robust") with true. cbv iota.
destruct (convolve_uv im oldbeam newbeam dx dy) as [[newim fac]|e]; reflexivity.
Qed.

(** X17.  With the ['robust'] convolution the factors are not used: for
    two sets of factors that both have an entry for the channel,
    [worker] gives the same plane, or the same exception, whatever the
    cube, the channel and the routines of the libraries.  The scaling of
    the plane is the one [convolve_uv.convolve] returns. *)
Theorem robust_convolution_ignores_factors
  (idx start : nat) (c : cube) (f1 f2 : list float64) (x1 x2 : float64) :
  nth_error f1 (start + idx) = Some x1 ->
  nth_error f2 (start + idx) = Some x2 ->
  worker as_kernel convolve_uv scipy_signal_convolve astropy_convolve
         astropy_convolve_fft read_plane idx (set_facs c f1) "robust" start =
  worker as_kernel convolve_uv scipy_signal_convolve astropy_convolve
         astropy_convolve_fft read_plane idx (set_facs c f2) "robust" start.
Proof.
intros H1 H2. unfold worker.
cbn [filename beams commonbeams convbeams facs dx dy set_facs].
destruct (read_plane (filename c) (start + idx)) as [plane|e]; [|reflexivity].
cbn [rbind].
destruct (index_of (beams_get (beams c) (start + idx))) as [ob|e]; [|reflexivity].
cbn [rbind].
destruct (key_of (commonbeams c)) as [cbs|e]; [|reflexivity]. cbn [rbind].
destruct (index_of (beams_get cbs (start + idx))) as [nb|e]; [|reflexivity].
cbn [rbind].
destruct (key_of (convbeams c)) as [cvs|e]; [|reflexivity]. cbn [rbind].
destruct (index_of (beams_get cvs (start + idx))) as [cb|e]; [|reflexivity].
cbn [rbind key_of]. rewrite H1, H2. cbn [rbind index_of].
apply smooth_robust_ignores_sfactor.
Qed.

End Factors.

(** ** [copyfileobj] *)

(** X19.  [copyfileobj] copies the whole stream, whatever the size of
    the chunks: for a chunk length that is not zero, the loop ends
    within one round more than the stream has bytes, the destination
    has then received the bytes of the source, in order, after what it
    held, and the progress bar has counted every byte once.  With a
    chunk length of zero the first read is empty and nothing is copied. *)
Theorem copyfileobj_copies_everything
  (length : Z) (fuel : nat) (fsrc fdst : list Byte.byte) (pbar : Z) :
  (length <> 0 -> (List.length fsrc < fuel)%nat ->
   copyfileobj fuel fsrc fdst length pbar =
   Some (fdst ++ fsrc, pbar + Z.of_nat (List.length fsrc))) /\
  copyfileobj (S fuel) fsrc fdst 0 pbar = Some (fdst, pbar).
Proof.
split; [|reflexivity].
intros Hlen. revert fsrc fdst pbar.
induction fuel as [|fuel IH]; intros fsrc fdst pbar Hfuel; [lia|].
cbn [copyfileobj]. unfold stream_read.
destruct (Z.ltb_spec length 0) as [Hneg|Hpos].
- destruct fsrc as [|x fsrc].
  + now rewrite app_nil_r, Z.add_0_r.
  + rewrite IH by (simpl in *; lia).
    now rewrite app_nil_r, Z.add_0_r.
- destruct (firstn (Z.to_nat length) fsrc) as [|x buf] eqn:E.
  + destruct fsrc as [|y fsrc].
    * now rewrite app_nil_r, Z.add_0_r.
    * destruct (Z.to_nat length) eqn:En; [lia | discriminate].
  + rewrite IH.
    * rewrite <- E, <- app_assoc, firstn_skipn. f_equal. f_equal.
      rewrite <- Z.add_assoc, <- Nat2Z.inj_add, <- length_app, firstn_skipn.
      reflexivity.
    * rewrite length_skipn.
      assert (Z.to_nat length <> 0)%nat by lia.
      destruct fsrc; [now rewrite firstn_nil in E | cbn [List.length] in *; lia].
Qed.

(** Three bytes in chunks of two. *)
Lemma copyfileobj_copies_everything_witness :
  copyfileobj 4 [Byte.x61; Byte.x62; Byte.x63] [] 2 0 =
  Some ([Byte.x61; Byte.x62; Byte.x63], 3).
Proof.
exact (proj1 (copyfileobj_copies_everything 2 4 [Byte.x61; Byte.x62; Byte.x63] [] 0)
         ltac:(lia) ltac:(simpl; lia)).
Defined.

(** ** More concrete runs with the reference instance *)

(** [commonbeamer_same_beams_for_all_cubes] on [slip_world] in natural
    mode: the run returns, and its only cube holds two common beams. *)
Lemma commonbeamer_same_beams_for_all_cubes_witness :
  exists cbs,
    beams_shape 2 cbs /\
    Forall (fun c => commonbeams c = Some cbs)
      (datadict (snd (commonbeamer Ref.common_beam Ref.deconvolve Ref.convolve
                        Ref.gauss_factor 2 slip_args "robust" "natural" None false
                        slip_world))).
Proof.
apply (proj1 (commonbeamer_same_beams_for_all_cubes Ref.common_beam Ref.deconvolve
                Ref.convolve Ref.gauss_factor 2 slip_args "robust" None false
                slip_world)).
vm_compute. reflexivity.
Defined.

(** [masked_channel_is_blanked] on the second channel of [slip_world],
    which carries the null beam: the plane comes out blank, with a
    convolution mode that would otherwise call the kernel. *)
Lemma masked_channel_is_blanked_witness :
  worker example_kernel example_convolve_uv example_convolve example_convolve
         example_convolve example_read_plane 1
         (hd slip_cube
            (datadict (snd (commonbeamer Ref.common_beam Ref.deconvolve Ref.convolve
                              Ref.gauss_factor 2 slip_args "robust" "natural" None
                              false slip_world))))
         "scipy" 0 =
  Ok [[NaN; NaN]; [NaN; NaN]].
Proof.
apply (masked_channel_is_blanked Ref.common_beam Ref.deconvolve Ref.convolve
         Ref.gauss_factor example_kernel example_convolve_uv example_convolve
         example_convolve example_convolve example_read_plane
         2 slip_args "robust" "natural" None false slip_world
         (snd (commonbeamer Ref.common_beam Ref.deconvolve Ref.convolve
                 Ref.gauss_factor 2 slip_args "robust" "natural" None false
                 slip_world))
         0 1 _
         (mkBeam (mkQuantity (Fin 0) arcsec) (mkQuantity (Fin 0) arcsec)
                 (mkQuantity (Fin 0) deg))
         example_plane "scipy").
- vm_compute. reflexivity.
- vm_compute. reflexivity.
- repeat constructor.
- vm_compute. reflexivity.
- vm_compute. reflexivity.
- reflexivity.
Defined.


(** [natural_mode_blanks_fully_masked_channel] on the second channel of
    [slip_world]. *)
Lemma natural_mode_blanks_fully_masked_channel_witness :
  Forall (fun c => exists cbs b,
            commonbeams c = Some cbs /\ beams_get cbs 1 = Some b /\
            value (major b) = NaN /\ value (minor b) = NaN /\ value (pa b) = NaN)
    (datadict (snd (commonbeamer Ref.common_beam Ref.deconvolve Ref.convolve
                      Ref.gauss_factor 2 slip_args "robust" "natural" None false
                      slip_world))).
Proof.
apply (natural_mode_blanks_fully_masked_channel Ref.common_beam Ref.deconvolve
         Ref.convolve Ref.gauss_factor 2 slip_args "robust" None false slip_world).
- vm_compute. reflexivity.
- lia.
- repeat constructor.
Defined.

(** [main_setup_postcondition] for the options of [slip_args]: one image
    with square pixels of one arcsec and a beam log of two rows. *)
Lemma main_setup_postcondition_witness :
  main_setup unit example_header example_getbeams slip_args None =
  Ok (mkConfig "natural" None "robust" None ["image.fits"%string],
      [mkRaw "image.fits" "." (mkQuantity (Fin ((-1 # 3600) * -1)) deg)
             (mkQuantity (Fin (1 # 3600)) deg) "./beamlog.image.txt" tt 2%nat],
      2%nat) /\
  Forall (fun c : raw_cube unit => raw_nchan c = 2%nat)
    [mkRaw "image.fits" "." (mkQuantity (Fin ((-1 # 3600) * -1)) deg)
           (mkQuantity (Fin (1 # 3600)) deg) "./beamlog.image.txt" tt 2%nat].
Proof.
split; [reflexivity|].
exact (proj1 (proj2 (proj2 (proj2 (proj2 (proj2
  (main_setup_postcondition unit example_header example_getbeams slip_args None
     _ _ _ eq_refl))))))).
Defined.

(** [run_without_mpi_stops_after_initfiles] on the cube of [slip_world],
    once planned: the output file is written, and the run stops. *)
Lemma run_without_mpi_stops_after_initfiles_witness :
  main_init example_fits_open example_gather false 1
    (datadict (snd (commonbeamer Ref.common_beam Ref.deconvolve Ref.convolve
                      Ref.gauss_factor 2 slip_args "robust" "natural" None false
                      slip_world)))
    "natural" None None =
  (Raise (UnboundLocalError "outlist"),
   [mkOut "./image.natural.fits" "image.fits"
      (mkBeam (mkQuantity (Fin (100 # 10)) deg) (mkQuantity (Fin (50 # 10)) deg)
              (mkQuantity (Fin (0 # 100)) deg))
      true
      (Some (mkQArray [Fin ((100 # 10) * 3600); NaN] arcsec,
             mkQArray [Fin ((50 # 10) * 3600); NaN] arcsec,
             mkQArray [Fin (0 # 100); NaN] deg))]) /\
  fst (main_init example_fits_open example_gather false 1
         (datadict (snd (commonbeamer Ref.common_beam Ref.deconvolve Ref.convolve
                           Ref.gauss_factor 2 slip_args "robust" "natural" None false
                           slip_world)))
         "natural" None None) = Raise (UnboundLocalError "outlist").
Proof.
split; [vm_compute; reflexivity|].
apply (proj2 (run_without_mpi_stops_after_initfiles example_fits_open example_gather
                _ "natural" None None)).
- repeat constructor. vm_compute. eexists _, _. split; reflexivity.
- now left.
Defined.

(** [robust_convolution_ignores_factors] on the first channel of the
    planned cube of [slip_world]: the plane is scaled by the factor of
    the robust convolution, 2, whatever the stored factors. *)
Lemma robust_convolution_ignores_factors_witness :
  worker example_kernel example_convolve_uv example_convolve example_convolve
         example_convolve example_read_plane 0
         (set_facs
            (hd slip_cube
               (datadict (snd (commonbeamer Ref.common_beam Ref.deconvolve Ref.convolve
                                 Ref.gauss_factor 2 slip_args "robust" "natural" None
                                 false slip_world))))
            [Fin 0; Fin 0]) "robust" 0 =
  worker example_kernel example_convolve_uv example_convolve example_convolve
         example_convolve example_read_plane 0
         (set_facs
            (hd slip_cube
               (datadict (snd (commonbeamer Ref.common_beam Ref.deconvolve Ref.convolve
                                 Ref.gauss_factor 2 slip_args "robust" "natural" None
                                 false slip_world))))
            [Fin 7; Fin 7]) "robust" 0.
Proof.
apply (robust_convolution_ignores_factors example_kernel example_convolve_uv
         example_convolve example_convolve example_convolve example_read_plane
         0 0 _ [Fin 0; Fin 0] [Fin 7; Fin 7] (Fin 0) (Fin 7)); reflexivity.
Defined.

(** [nyquist_check_outcome] on [near_world] with the ['scipy']
    convolution: the beam of 7.95 arcsec is rounded up to 8 arcsec, the
    convolving beam is 0.89 arcsec wide on a 12 arcsec grid, a sample
    count of 0.07, and the common beam of the channel is the rounded
    beam convolved with the 24 arcsec Nyquist beam, rounded up. *)
Lemma nyquist_check_outcome_witness :
  fst (natural_commonbeam Ref.common_beam Ref.deconvolve Ref.convolve
         slip_args "scipy" near_beams near_world) =
  Ok (round_beam (Ref.convolve (round_beam near_beam) (nyq_con_beam coarse_grid))) /\
  round_beam (Ref.convolve (round_beam near_beam) (nyq_con_beam coarse_grid)) =
  mkBeam (mkQuantity (Fin (253 # 10)) arcsec) (mkQuantity (Fin (253 # 10)) arcsec)
         (mkQuantity (Fin (0 # 100)) deg).
Proof.
split; [|vm_compute; reflexivity].
pose proof (nyquist_check_outcome Ref.common_beam Ref.deconvolve Ref.convolve
              slip_args "scipy" near_beams near_world
              (snd (find_common_beam Ref.common_beam slip_args near_beams near_world))
              (snd (nyquist_samps Ref.deconvolve (round_beam near_beam) near_beams
                      coarse_grid
                      (snd (find_common_beam Ref.common_beam slip_args near_beams
                              near_world))))
              near_beam (hd slip_cube (datadict near_world))
              (match fst (nyquist_samps Ref.deconvolve (round_beam near_beam)
                            near_beams coarse_grid near_world) with
               | Ok s => s
               | Raise _ => []
               end)
              eq_refl eq_refl) as H.
cbv zeta in H. destruct H as (_ & H & _).
rewrite H.
- vm_compute. reflexivity.
- reflexivity.
- vm_compute. reflexivity.
- vm_compute. reflexivity.
Defined.
